(** * Shamir secret reconstruction: [ShamirSecretSharing] of [shamir_solver.js]

    A shallow embedding of the static methods of the class
    [ShamirSecretSharing] and the properties of its natural-language
    specification.

    JavaScript numbers are IEEE 754 binary64 values.  They are modelled by
    the Standard Library's [spec_float] at precision 53 and maximal exponent
    1024, with the library's own correctly rounded operations, so that the
    rounding, the infinities and the NaN of the program are those of the
    model.  Strings are sequences of code units below 256.  A thrown [Error]
    is a value of the type [error], which keeps the data its message is
    built from.  The built-in [parseInt] follows ECMAScript and, where
    ECMAScript leaves the result to the implementation, the engine of
    Node.js, for which the file is written. *)

From Stdlib Require Import ZArith Lia Bool Ascii String SpecFloat.
From stdpp Require Import base option list gmap strings pretty.

Local Open Scope Z_scope.

(** ** Numbers *)

Abbreviation number := spec_float.

Module Num.

Definition prec : Z := 53.
Definition emax : Z := 1024.

(** The number nearest to an integer (ties to even): the conversion
    written 𝔽 in ECMAScript. *)
Definition of_Z (z : Z) : number := binary_normalize prec emax z 0 false.

Definition zero : number := S754_zero false.
Definition one : number := of_Z 1.

Definition add : number -> number -> number := SFadd prec emax.
Definition sub : number -> number -> number := SFsub prec emax.
Definition mul : number -> number -> number := SFmul prec emax.
Definition div : number -> number -> number := SFdiv prec emax.
Definition abs : number -> number := SFabs.
Definition opp : number -> number := SFopp.

(** [a < b] and [a <= b]; both are false when an operand is NaN. *)
Definition lt : number -> number -> bool := SFltb.
Definition le : number -> number -> bool := SFleb.
Definition gt (a b : number) : bool := SFltb b a.

Definition isNaN (x : number) : bool :=
  match x with S754_nan => true | _ => false end.

(** [!x]: a number is falsy when it is [+0], [-0] or NaN. *)
Definition falsy (x : number) : bool :=
  match x with S754_zero _ | S754_nan => true | _ => false end.

Definition is_finite (x : number) : bool :=
  match x with S754_zero _ | S754_finite _ _ _ => true | _ => false end.

(** The integer part of a finite number, rounded towards zero. *)
Definition truncate (x : number) : Z :=
  match x with
  | S754_finite s m e =>
      let a := match e with
               | Zneg d => Z.shiftr (Zpos m) (Zpos d)
               | _ => Z.shiftl (Zpos m) e
               end in
      if s then - a else a
  | _ => 0
  end.

(** [ToInt32]: NaN, zeros and infinities give 0; otherwise the integer
    part modulo 2^32, read as a signed 32-bit integer. *)
Definition ToInt32 (x : number) : Z :=
  let r := (truncate x) mod 2 ^ 32 in
  if 2 ^ 31 <=? r then r - 2 ^ 32 else r.

(** [ToIntegerOrInfinity]. *)
Inductive ext_int := NegInf | Fin (z : Z) | PosInf.

Definition ToIntegerOrInfinity (x : number) : ext_int :=
  match x with
  | S754_infinity false => PosInf
  | S754_infinity true => NegInf
  | _ => Fin (truncate x)
  end.

(** Whether a number is integral: a zero, or a finite number with no bit
    set below the unit. *)
Definition integral (x : number) : bool :=
  match x with
  | S754_zero _ => true
  | S754_finite _ m (Zneg d) => Z.eqb (Z.land (Zpos m) (Z.ones (Zpos d))) 0
  | S754_finite _ _ _ => true
  | _ => false
  end.

(** [Math.round]: the integral number nearest to [x], the one closer to
    +∞ on a tie; NaN, the infinities and the zeros are returned as they
    are, and a result of magnitude zero keeps the sign of [x]. *)
Definition round (x : number) : number :=
  match x with
  | S754_finite s m (Zneg d) =>
      let v := if s then Zneg m else Zpos m in
      (* floor (v / 2^d + 1/2) *)
      let r := Z.shiftr (2 * v + 2 ^ Zpos d) (Zpos d + 1) in
      match r with
      | Z0 => S754_zero s
      | _ => of_Z r
      end
  | _ => x
  end.

(** [Number::toString] at radix 10.  It is the decimal numeral on
    integral values below 10^21, the only finite values the program
    converts (its loop counter, see [ScanFacts.toString_of_Z]); on other finite
    values this definition gives the numeral of the integer part. *)
Definition toString (x : number) : string :=
  match x with
  | S754_nan => "NaN"
  | S754_infinity false => "Infinity"
  | S754_infinity true => "-Infinity"
  | _ => pretty (truncate x)
  end.


(** *** Auxiliary definitions for the facts about numbers *)

(** 2^53: up to it every integer is a number. *)
Definition two53 : Z := 2 ^ 53.

(** A shifted mantissa with no bit lost. *)
Definition exact_record (m : Z) : shr_record :=
  {| shr_m := m; shr_r := false; shr_s := false |}.

(** The number of zero bits that extend [p] to a 53-bit mantissa. *)
Definition pad (p : positive) : N := Z.to_N (53 - Zpos (digits2_pos p)).

(** A key that orders the numbers other than NaN lexicographically. *)
Definition rank (x : number) : Z * Z * Z :=
  match x with
  | S754_infinity true => (-2, 0, 0)
  | S754_finite true m e => (-1, - e, Zneg m)
  | S754_zero _ => (0, 0, 0)
  | S754_finite false m e => (1, e, Zpos m)
  | S754_infinity false => (2, 0, 0)
  | S754_nan => (3, 0, 0)
  end.

Definition lex_lt (a b : Z * Z * Z) : Prop :=
  let '(a1, a2, a3) := a in
  let '(b1, b2, b3) := b in
  a1 < b1 \/ (a1 = b1 /\ (a2 < b2 \/ (a2 = b2 /\ a3 < b3))).

End Num.

(** ** Errors and completions *)

(** The [Error] objects the class throws, one constructor per message
    template, with the values interpolated into the message. *)
Inductive error : Type :=
  | InvalidBase (base : number)
      (* `Invalid base: ${base}. Base must be between 2 and 36.` *)
  | InvalidValue (value : string) (base : number)
      (* `Invalid value "${value}" for base ${base}` *)
  | NeedAtLeast (k : number) (provided : nat)
      (* `Need at least ${k} points, but only ${points.length} provided` *)
  | MissingKeys
      (* 'Invalid test case format: missing keys.n or keys.k' *)
  | ErrorDecodingPoint (i : number) (cause : error)
      (* `Error decoding point ${i}: ${error.message}` *)
  | InsufficientPoints (k : number) (found : nat).
      (* `Insufficient points: need ${k}, found ${points.length}` *)

(** How a call completes: with a value, or with a thrown error. *)
Inductive completion (A : Type) : Type :=
  | Normal (a : A)
  | Throw (e : error).
Arguments Normal {A} a.
Arguments Throw {A} e.

Definition bind {A B} (c : completion A) (f : A -> completion B) : completion B :=
  match c with
  | Normal a => f a
  | Throw e => Throw e
  end.

(** [try { body } catch (error) { handler }]. *)
Definition try_catch {A} (body : completion A) (handler : error -> completion A)
  : completion A :=
  match body with
  | Normal a => Normal a
  | Throw e => handler e
  end.

(** ** [parseInt] *)

Module ParseInt.

(** White space and line terminators among the code units below 256. *)
Definition is_white_space (c : ascii) : bool :=
  let n := N_of_ascii c in
  (N.leb 9 n && N.leb n 13 || N.eqb n 32 || N.eqb n 160)%bool.

Fixpoint trim_start (s : string) : string :=
  match s with
  | String c s' => if is_white_space c then trim_start s' else s
  | EmptyString => s
  end.

(** The value of a code unit as a digit: 0-9, then a-z or A-Z for 10-35. *)
Definition digit_value (c : ascii) : option Z :=
  let n := Z.of_N (N_of_ascii c) in
  if (48 <=? n) && (n <=? 57) then Some (n - 48)
  else if (97 <=? n) && (n <=? 122) then Some (n - 87)
  else if (65 <=? n) && (n <=? 90) then Some (n - 55)
  else None.

Definition radix_digit (R : Z) (c : ascii) : option Z :=
  match digit_value c with
  | Some d => if d <? R then Some d else None
  | None => None
  end.

(** The digits of the longest prefix of [s] made of radix-[R] digits. *)
Fixpoint digit_prefix (R : Z) (s : string) : list Z :=
  match s with
  | String c s' =>
      match radix_digit R c with
      | Some d => d :: digit_prefix R s'
      | None => []
      end
  | EmptyString => []
  end.

(** The integer a digit sequence denotes in radix [R]. *)
Definition digits_value (R : Z) (ds : list Z) : Z :=
  fold_left (fun acc d => acc * R + d) ds 0.

Definition strip_sign (s : string) : bool * string :=
  match s with
  | String "-" s' => (true, s')
  | String "+" s' => (false, s')
  | _ => (false, s)
  end.

Definition strip_hex_prefix (s : string) : option string :=
  match s with
  | String "0" (String "x" s') | String "0" (String "X" s') => Some s'
  | _ => None
  end.

(** The radixes in which the integer the digits denote is taken exactly
    and rounded once to the nearest number.  ECMAScript requires it for the
    radixes 2, 4, 8, 16 and 32, and in radix 10 for up to 20 significant
    digits; the engine of Node.js does so in radix 10 whatever the number of
    digits. *)
Definition exact_radix (R : Z) : bool :=
  (R =? 2) || (R =? 4) || (R =? 8) || (R =? 10) || (R =? 16) || (R =? 32).

(** In the other radixes ECMAScript leaves the integer to the
    implementation (it may be an implementation-approximated integer).
    The engine of Node.js reads the digits, after the leading zeros, in
    chunks: a chunk takes digits as long as its weight [multiplier], a
    power of the radix, stays at most [0xFFFFFFFF / 36], so that the weight
    and the value [part] of the chunk are 32-bit integers; at the end of
    each chunk the number read so far becomes
    [result * multiplier + part], computed in double precision.  The
    rounding of each of these steps makes the result differ from the number
    nearest to the integer, once the integer is above 2^53. *)
Definition kMaximumMultiplier : Z := 4294967295 / 36.

Fixpoint drop_zeros (ds : list Z) : list Z :=
  match ds with
  | 0 :: ds' => drop_zeros ds'
  | _ => ds
  end.

(** The loop over the chunks, on the digits [ds] that remain: [part] and
    [multiplier] are those of the chunk being read, [result] is the number
    read from the chunks before it.  A digit that would take the weight
    above the limit closes the chunk and opens the next one, of which it is
    the first digit. *)
Fixpoint accumulate (R : Z) (ds : list Z) (result : number) (part multiplier : Z)
  : number :=
  match ds with
  | [] => Num.add (Num.mul result (Num.of_Z multiplier)) (Num.of_Z part)
  | d :: ds' =>
      let m := multiplier * R in
      if kMaximumMultiplier <? m
      then accumulate R ds'
             (Num.add (Num.mul result (Num.of_Z multiplier)) (Num.of_Z part)) d R
      else accumulate R ds' result (part * R + d) m
  end.

(** The number for the digits [ds] of a string with the sign [negative]. *)
Definition to_number (R : Z) (negative : bool) (ds : list Z) : number :=
  let mathInt := digits_value R ds in
  if mathInt =? 0 then S754_zero negative
  else if exact_radix R then Num.of_Z (if negative then - mathInt else mathInt)
  else
    let approximation := accumulate R (drop_zeros ds) Num.zero 0 1 in
    if negative then Num.opp approximation else approximation.

(** [parseInt(string, radix)] where [R] is [ToInt32(radix)]. *)
Definition parse (inputString : string) (R : Z) : number :=
  let '(negative, str) := strip_sign (trim_start inputString) in
  if negb (R =? 0) && ((R <? 2) || (36 <? R)) then S754_nan
  else
    let stripPrefix := (R =? 0) || (R =? 16) in
    let R := if R =? 0 then 10 else R in
    let '(R, str) :=
      match (if stripPrefix then strip_hex_prefix str else None) with
      | Some str' => (16, str')
      | None => (R, str)
      end in
    match digit_prefix R str with
    | [] => S754_nan
    | ds => to_number R negative ds
    end.

End ParseInt.

(** [parseInt(string, radix)] and the one-argument [parseInt(string)],
    whose radix is [undefined] and so converts to 0. *)
Definition parseInt (s : string) (radix : number) : number :=
  ParseInt.parse s (Num.ToInt32 radix).

Definition parseInt1 (s : string) : number := ParseInt.parse s 0.

(** ** The class [ShamirSecretSharing] *)

Definition two : number := Num.of_Z 2.
Definition thirty_six : number := Num.of_Z 36.

Definition baseToDecimal (value : string) (base : number) : completion number :=
  if Num.lt base two || Num.gt base thirty_six then Throw (InvalidBase base)
  else
    let result := parseInt value base in
    if Num.isNaN result then Throw (InvalidValue value base)
    else Normal result.

(** A point is the two-element array [[x, y]]. *)
Definition point : Type := number * number.

(** [points.slice(0, k)]: the end index is [ToIntegerOrInfinity(k)],
    counted from the end of the array when negative and clamped to the
    array. *)
Definition slice0 {A} (l : list A) (k : number) : list A :=
  let len := Z.of_nat (length l) in
  let final :=
    match Num.ToIntegerOrInfinity k with
    | Num.NegInf => 0
    | Num.Fin relativeEnd =>
        if relativeEnd <? 0 then Z.max (len + relativeEnd) 0
        else Z.min relativeEnd len
    | Num.PosInf => len
    end in
  take (Z.to_nat final) l.

(** The inner loop over [j]: the Lagrange basis polynomial of the point of
    index [i] at the abscissa [t].  [rest] is the part of [selectedPoints]
    from index [j] on. *)
Fixpoint basis_loop (t xi : number) (i j : nat) (rest : list point) (li : number)
  : number :=
  match rest with
  | [] => li
  | (xj, _) :: rest' =>
      let li :=
        if Nat.eqb i j then li
        else Num.mul li (Num.div (Num.sub t xj) (Num.sub xi xj)) in
      basis_loop t xi i (S j) rest' li
  end.

(** The outer loop over [i], accumulating [yi * li]. *)
Fixpoint sum_loop (t : number) (selectedPoints : list point) (i : nat)
    (rest : list point) (acc : number) : number :=
  match rest with
  | [] => acc
  | (xi, yi) :: rest' =>
      let li := basis_loop t xi i 0 selectedPoints Num.one in
      sum_loop t selectedPoints (S i) rest' (Num.add acc (Num.mul yi li))
  end.

(** The two nested loops, which [lagrangeInterpolation] runs at the
    literal [0] and [validateSolution] at [testX]. *)
Definition interpolate_at (selectedPoints : list point) (t : number) : number :=
  sum_loop t selectedPoints 0 selectedPoints Num.zero.

Definition lagrangeInterpolation (points : list point) (k : number)
  : completion number :=
  if Num.lt (Num.of_Z (Z.of_nat (length points))) k
  then Throw (NeedAtLeast k (length points))
  else
    let selectedPoints := slice0 points k in
    let secret := interpolate_at selectedPoints Num.zero in
    Normal (Num.round secret).

Record validation_result : Type := {
  vr_point : point;
  vr_calculated : number;
  vr_difference : number;
  vr_valid : bool
}.

Record validation_report : Type := {
  isValid : bool;
  results : list validation_result;
  tolerance : number
}.

(** The literal [1e-10]: the number nearest to 10^-10, which is the
    correctly rounded quotient of 1 by 10^10. *)
Definition tolerance_1e_10 : number :=
  Eval vm_compute in Num.div Num.one (Num.of_Z (10 ^ 10)).

Definition validate_point (selectedPoints : list point) (tolerance : number)
    (testPoint : point) : validation_result :=
  let '(testX, testY) := testPoint in
  let calculatedY := interpolate_at selectedPoints testX in
  let difference := Num.abs (Num.sub calculatedY testY) in
  let isValid := Num.le difference tolerance in
  {| vr_point := (testX, testY);
     vr_calculated := calculatedY;
     vr_difference := difference;
     vr_valid := isValid |}.

Definition validateSolution (points : list point) (secret : number) (k : number)
  : validation_report :=
  let selectedPoints := slice0 points k in
  let tolerance := tolerance_1e_10 in
  let validationResults := map (validate_point selectedPoints tolerance) points in
  let allValid := forallb vr_valid validationResults in
  {| isValid := allValid; results := validationResults; tolerance := tolerance |}.

(** *** Test cases

    The input record: the property [keys] with the numbers [n] and [k]
    (either may be absent), and the share entries, an object under a string
    key with the strings [base] and [value]. *)
Record share : Type := { share_base : string; share_value : string }.

Record keys_record : Type := { keys_n : option number; keys_k : option number }.

Record test_case : Type := {
  tc_keys : option keys_record;
  tc_shares : gmap string share
}.

(** [!v] for a property that may be absent ([undefined]). *)
Definition not_number (v : option number) : bool :=
  match v with
  | None => true
  | Some x => Num.falsy x
  end.

(** The loop [for (let i = 1; i <= n; i++)] of [parseTestCase], from the
    counter [i] on.  The loop runs as long as the counter stays at most [n];
    [fuel] bounds the number of iterations, and [None] is returned when it
    does not suffice. *)
Fixpoint scan (fuel : nat) (shares : gmap string share) (n i : number)
    (points : list point) : option (completion (list point)) :=
  match fuel with
  | O => None
  | S fuel' =>
      if Num.le i n then
        match shares !! Num.toString i with
        | Some entry =>
            let x := i in
            let base := parseInt1 (share_base entry) in
            let encodedValue := share_value entry in
            match baseToDecimal encodedValue base with
            | Normal y =>
                scan fuel' shares n (Num.add i Num.one) (points ++ [(x, y)])
            | Throw e => Some (Throw (ErrorDecodingPoint i e))
            end
        | None => scan fuel' shares n (Num.add i Num.one) points
        end
      else Some (Normal points)
  end.

(** The guard [!keys || !keys.n || !keys.k] of [parseTestCase]. *)
Definition missing_keys (testCase : test_case) : bool :=
  match tc_keys testCase with
  | None => true
  | Some keys => not_number (keys_n keys) || not_number (keys_k keys)
  end.

(** [keys.n] and [keys.k], when present. *)
Definition declared_n (testCase : test_case) : option number :=
  tc_keys testCase ≫= keys_n.

Definition declared_k (testCase : test_case) : option number :=
  tc_keys testCase ≫= keys_k.

(** The object [{ points, n, k }] that [parseTestCase] returns. *)
Record parsed : Type := { p_points : list point; p_n : number; p_k : number }.

(** [parseTestCase]: the guard on the keys, the scanning loop, the check
    that [k] points were found.  Past the guard [keys.n] and [keys.k] are
    present, so the last branch is not reached. *)
Definition parseTestCase (fuel : nat) (testCase : test_case)
  : option (completion parsed) :=
  if missing_keys testCase then Some (Throw MissingKeys)
  else
    match declared_n testCase, declared_k testCase with
    | Some n, Some k =>
        match scan fuel (tc_shares testCase) n Num.one [] with
        | Some (Normal points) =>
            if Num.lt (Num.of_Z (Z.of_nat (length points))) k
            then Some (Throw (InsufficientPoints k (length points)))
            else Some (Normal {| p_points := points; p_n := n; p_k := k |})
        | Some (Throw e) => Some (Throw e)
        | None => None
        end
    | _, _ => Some (Throw MissingKeys)
    end.

Record parameters : Type := { par_n : number; par_k : number; par_degree : number }.

(** The record [solve] returns; [None] stands for [null]. *)
Record solve_result : Type := {
  success : bool;
  secret : option number;
  points : option (list point);
  params : option parameters;
  validation : option validation_report;
  error_message : option error
}.

Definition failure (e : error) : solve_result :=
  {| success := false; secret := None; points := None; params := None;
     validation := None; error_message := Some e |}.

Definition solve (fuel : nat) (testCase : test_case)
  : option (completion solve_result) :=
  match parseTestCase fuel testCase with
  | None => None
  | Some parsed =>
      Some (try_catch
        (bind parsed (fun '{| p_points := points; p_n := n; p_k := k |} =>
         bind (lagrangeInterpolation points k) (fun secret =>
         let validation := validateSolution points secret k in
         Normal {| success := true;
                   secret := Some secret;
                   points := Some points;
                   params := Some {| par_n := n; par_k := k;
                                     par_degree := Num.sub k Num.one |};
                   validation := Some validation;
                   error_message := None |})))
        (fun e => Normal (failure e)))
  end.

(** [testCases.map((testCase, index) => ...)], from the index [index] on:
    the results in order, each with its [testCaseIndex]. *)
Fixpoint solveMultiple_from (fuel : nat) (index : nat) (testCases : list test_case)
  : option (completion (list (nat * solve_result))) :=
  match testCases with
  | [] => Some (Normal [])
  | testCase :: rest =>
      match solve fuel testCase with
      | None => None
      | Some (Throw e) => Some (Throw e)
      | Some (Normal result) =>
          match solveMultiple_from fuel (S index) rest with
          | None => None
          | Some (Throw e) => Some (Throw e)
          | Some (Normal tail) => Some (Normal ((index, result) :: tail))
          end
      end
  end.

Definition solveMultiple (fuel : nat) (testCases : list test_case)
  : option (completion (list (nat * solve_result))) :=
  solveMultiple_from fuel 0 testCases.

(** *** The example test cases of the source file *)

Definition exampleTestCase1 : test_case :=
  {| tc_keys := Some {| keys_n := Some (Num.of_Z 4); keys_k := Some (Num.of_Z 3) |};
     tc_shares :=
       <["1" := {| share_base := "10"; share_value := "4" |}]>
       (<["2" := {| share_base := "2"; share_value := "111" |}]>
       (<["3" := {| share_base := "10"; share_value := "12" |}]>
       (<["6" := {| share_base := "4"; share_value := "213" |}]> ∅))) |}.

(** ** Notions used to state the properties *)

(** Digits of the radix [R]. *)
Definition in_radix (R : Z) (ds : list Z) : Prop := Forall (fun d => 0 <= d < R) ds.

(** The numbers the accumulation of [parseInt] goes through: [+∞], the
    integers from 0 to 2^53, and the numbers above 2^53, which have a
    53-bit mantissa at a positive exponent. *)
Definition accumulated (x : number) : Prop :=
  x = S754_infinity false \/
  (exists n, 0 <= n <= Num.two53 /\ x = Num.of_Z n) \/
  (exists m e, x = S754_finite false m e /\ Zpos (digits2_pos m) = 53 /\
               1 <= e <= Num.emax - Num.prec).

(** A point that the scanning loop decodes from the entry of index [w],
    for some index [w] from [lo] on. *)
Definition decoded_at (shares : gmap string share) (n : number) (lo : Z)
    (p : point) : Prop :=
  exists w entry,
    lo <= w <= Num.two53 /\ p.1 = Num.of_Z w /\ Num.le (Num.of_Z w) n = true /\
    shares !! pretty w = Some entry /\
    baseToDecimal (share_value entry) (parseInt1 (share_base entry)) = Normal p.2.

(** The integer a digit string denotes in base [b], by the weight of each
    position: the digit of a string of length [l + 1] counts [b ^ l] times. *)
Fixpoint positional_value (b : Z) (s : string) : Z :=
  match s with
  | EmptyString => 0
  | String c s' =>
      match ParseInt.digit_value c with Some d => d | None => 0 end
        * b ^ Z.of_nat (String.length s')
      + positional_value b s'
  end.

(** A non-empty string of digits that are all valid in base [b]. *)
Fixpoint all_digits (b : Z) (s : string) : bool :=
  match s with
  | EmptyString => true
  | String c s' =>
      match ParseInt.digit_value c with
      | Some d => d <? b
      | None => false
      end && all_digits b s'
  end.

Definition valid_digit_string (b : Z) (s : string) : bool :=
  match s with
  | EmptyString => false
  | _ => all_digits b s
  end.

(** The bases that pass the guard of [baseToDecimal] and are their own
    [ToInt32]. *)
Definition base_passes (b : Z) : bool :=
  negb (Num.lt (Num.of_Z b) two || Num.gt (Num.of_Z b) thirty_six)
  && (Num.ToInt32 (Num.of_Z b) =? b).

(** A record whose scanning loop is bounded: its keys are rejected by the
    guard, or its [n] is below 2^53, where the counter still advances. *)
Definition scan_bounded (testCase : test_case) : bool :=
  missing_keys testCase
  || match declared_n testCase with
     | Some n => negb (Num.le (Num.of_Z Num.two53) n)
     | None => true
     end.

(** Fuel that suffices for every bounded scan. *)
Definition enough_fuel : nat := S (Z.to_nat (Num.two53 - 1)).

(** The shape of a successful result: every field but [error] is set. *)
Definition success_shape (r : solve_result) : Prop :=
  success r = true /\ is_Some (secret r) /\ is_Some (points r) /\
  is_Some (params r) /\ is_Some (validation r) /\ error_message r = None.

(** The record [testCase] with the entry [entry] under the key [key]. *)
Definition with_share (testCase : test_case) (key : string) (entry : share)
  : test_case :=
  {| tc_keys := tc_keys testCase;
     tc_shares := <[key := entry]> (tc_shares testCase) |}.

(** *** Inputs used as examples *)

(** The decoded points of the example test case that [solve] reports. *)
Definition example1_points : list point :=
  [(Num.of_Z 1, Num.of_Z 4); (Num.of_Z 2, Num.of_Z 7); (Num.of_Z 3, Num.of_Z 12)].

(** A record with [n = 2^53] and no share. *)
Definition endlessTestCase : test_case :=
  {| tc_keys := Some {| keys_n := Some (Num.of_Z Num.two53);
                        keys_k := Some Num.one |};
     tc_shares := ∅ |}.

(** A record without [keys]. *)
Definition malformedTestCase : test_case :=
  {| tc_keys := None;
     tc_shares := <["1" := {| share_base := "10"; share_value := "4" |}]> ∅ |}.

(** A record with the threshold [k = -1]. *)
Definition negativeThreshold : test_case :=
  {| tc_keys := Some {| keys_n := Some Num.one; keys_k := Some (Num.of_Z (-1)) |};
     tc_shares := <["1" := {| share_base := "10"; share_value := "5" |}]> ∅ |}.

(** ** Notions used to state further properties of the code *)

(** The decoding of a share entry, as in the body of the scanning loop. *)
Definition decode_entry (entry : share) : completion number :=
  baseToDecimal (share_value entry) (parseInt1 (share_base entry)).

(** The point of the index [w]: present when the record has an entry under
    the key of [w] and the entry decodes. *)
Definition point_at (shares : gmap string share) (w : Z) : option point :=
  match shares !! pretty w with
  | Some entry =>
      match decode_entry entry with
      | Normal y => Some (Num.of_Z w, y)
      | Throw _ => None
      end
  | None => None
  end.

(** The entry of the index [w], if any, decodes. *)
Definition decodable (shares : gmap string share) (w : Z) : Prop :=
  forall entry, shares !! pretty w = Some entry ->
    exists y, decode_entry entry = Normal y.

(** The errors [baseToDecimal] throws. *)
Definition decode_error (e : error) : bool :=
  match e with
  | InvalidBase _ | InvalidValue _ _ => true
  | _ => false
  end.

(** A string with its letters a-z in upper case. *)
Definition upper_char (c : ascii) : ascii :=
  let n := N_of_ascii c in
  if (N.leb 97 n && N.leb n 122)%bool then ascii_of_N (n - 32) else c.

Fixpoint upper (s : string) : string :=
  match s with
  | EmptyString => EmptyString
  | String c s' => String (upper_char c) (upper s')
  end.

(** A string that does not start with a digit of radix [b], nor with
    white space or a sign. *)
Definition no_leading_digit (b : Z) (s : string) : bool :=
  match s with
  | EmptyString => true
  | String c _ =>
      negb (ParseInt.is_white_space c)
      && negb (Ascii.eqb c "+") && negb (Ascii.eqb c "-")
      && match ParseInt.radix_digit b c with Some _ => false | None => true end
  end.

(** A batch result with its index moved by [d]. *)
Definition shift_index (d : nat) (p : nat * solve_result) : nat * solve_result :=
  ((d + p.1)%nat, p.2).

(** A record whose second share does not decode. *)
Definition brokenTestCase : test_case :=
  {| tc_keys := Some {| keys_n := Some (Num.of_Z 3); keys_k := Some (Num.of_Z 2) |};
     tc_shares :=
       <["1" := {| share_base := "10"; share_value := "4" |}]>
       (<["2" := {| share_base := "10"; share_value := "zz" |}]>
       (<["3" := {| share_base := "1"; share_value := "0" |}]> ∅)) |}.


(** * Facts about numbers

    The exact cases of the rounding of [SpecFloat]: a value that has a
    canonical representation is rounded to that representation. *)

Module NumFacts.
Import Num.

Lemma digits2_size p : digits2_pos p = Pos.size p.
Proof. induction p; simpl; congruence. Qed.

Lemma digits2_upper p : Zpos p < 2 ^ Zpos (digits2_pos p).
Proof.
  rewrite digits2_size. pose proof (Pos.size_gt p) as H.
  rewrite <- Pos2Z.inj_pow. exact H.
Qed.

Lemma digits2_lower p : 2 ^ (Zpos (digits2_pos p) - 1) <= Zpos p.
Proof.
  rewrite digits2_size. pose proof (Pos.size_le p) as H.
  assert (H' : 2 ^ Zpos (Pos.size p) <= Zpos p~0).
  { rewrite <- Pos2Z.inj_pow. exact H. }
  replace (Zpos (Pos.size p)) with (Z.succ (Zpos (Pos.size p) - 1)) in H' by lia.
  rewrite Z.pow_succ_r in H' by lia. lia.
Qed.

Lemma iter_xO_nat p n :
  Zpos (digits2_pos (Nat.iter n xO p)) = Zpos (digits2_pos p) + Z.of_nat n
  /\ Zpos (Nat.iter n xO p) = Zpos p * 2 ^ Z.of_nat n.
Proof.
  induction n as [|n [IH1 IH2]].
  - simpl. lia.
  - rewrite Nat2Z.inj_succ, Z.pow_succ_r by lia.
    change (Nat.iter (S n) xO p) with (xO (Nat.iter n xO p)).
    cbn [digits2_pos].
    rewrite Pos2Z.inj_succ, IH1. rewrite Pos2Z.inj_xO, IH2. lia.
Qed.

Lemma pos_iter_nat {A} (f : A -> A) x p :
  Pos.iter f x p = Nat.iter (Pos.to_nat p) f x.
Proof. apply Pos2Nat.inj_iter. Qed.

Lemma digits2_shiftl p k :
  Zpos (digits2_pos (Pos.shiftl p k)) = Zpos (digits2_pos p) + Z.of_N k.
Proof.
  unfold Pos.shiftl. destruct k as [|d]; [simpl; lia|]. cbn [Z.of_N].
  rewrite pos_iter_nat. rewrite (proj1 (iter_xO_nat p _)).
  now rewrite positive_nat_Z.
Qed.

Lemma shiftl_Z p k : Zpos (Pos.shiftl p k) = Zpos p * 2 ^ Z.of_N k.
Proof.
  unfold Pos.shiftl. destruct k as [|d]; [simpl; lia|]. cbn [Z.of_N].
  rewrite pos_iter_nat. rewrite (proj2 (iter_xO_nat p _)).
  now rewrite positive_nat_Z.
Qed.

Lemma iter_pos_nat {A} (f : A -> A) p x :
  SpecFloat.iter_pos f p x = Nat.iter (Pos.to_nat p) f x.
Proof.
  revert x. induction p as [p IH|p IH|]; intros x; cbn [SpecFloat.iter_pos].
  - rewrite !IH. rewrite Pos2Nat.inj_xI.
    replace (S (2 * Pos.to_nat p))%nat with (Pos.to_nat p + (Pos.to_nat p + 1))%nat by lia.
    rewrite !Nat.iter_add. reflexivity.
  - rewrite !IH. rewrite Pos2Nat.inj_xO.
    replace (2 * Pos.to_nat p)%nat with (Pos.to_nat p + Pos.to_nat p)%nat by lia.
    now rewrite Nat.iter_add.
  - reflexivity.
Qed.

Lemma shr_exact_nat p n :
  Nat.iter n shr_1 (exact_record (Zpos (Nat.iter n xO p))) = exact_record (Zpos p).
Proof.
  induction n as [|n IH]; [reflexivity|].
  rewrite Nat.iter_succ_r. simpl. exact IH.
Qed.

Lemma shr_exact p d :
  SpecFloat.iter_pos shr_1 d (exact_record (Zpos (Pos.iter xO p d))) = exact_record (Zpos p).
Proof. rewrite iter_pos_nat, pos_iter_nat. apply shr_exact_nat. Qed.

(** A canonical mantissa and exponent survive rounding, however many
    zero bits [k] the mantissa is extended with. *)
Lemma round_aux_exact s m e k :
  bounded prec emax m e = true ->
  binary_round_aux prec emax s (Zpos (Pos.shiftl m k)) (e - Z.of_N k) loc_Exact
  = S754_finite s m e.
Proof.
  unfold bounded, canonical_mantissa. intros H.
  apply andb_true_iff in H as [Hc He]. apply Z.eqb_eq in Hc. apply Z.leb_le in He.
  unfold binary_round_aux, shr_fexp. cbn [Zdigits2].
  rewrite digits2_shiftl.
  replace (Zpos (digits2_pos m) + Z.of_N k + (e - Z.of_N k))
    with (Zpos (digits2_pos m) + e) by lia.
  rewrite Hc. replace (e - (e - Z.of_N k)) with (Z.of_N k) by lia.
  cbn [shr_record_of_loc].
  assert (Hshr : shr {| shr_m := Zpos (Pos.shiftl m k); shr_r := false; shr_s := false |}
                   (e - Z.of_N k) (Z.of_N k)
                 = (exact_record (Zpos m), e)).
  { destruct k as [|d]; cbn [Z.of_N shr Pos.shiftl].
    - unfold Pos.shiftl. f_equal. lia.
    - unfold Pos.shiftl. fold (exact_record (Zpos (Pos.iter xO m d))).
      rewrite shr_exact. f_equal. lia. }
  rewrite Hshr. cbn [exact_record shr_m loc_of_shr_record round_nearest_even Zdigits2].
  rewrite Hc, Z.sub_diag. cbn [shr_record_of_loc shr shr_m].
  apply Z.leb_le in He. now rewrite He.
Qed.

(** [binary_round] of a representation with trailing zero bits. *)
Lemma binary_round_shr s m e k :
  bounded prec emax m e = true ->
  binary_round prec emax s (Pos.shiftl m k) (e - Z.of_N k) = S754_finite s m e.
Proof.
  intros H. unfold binary_round, shl_align.
  rewrite digits2_shiftl.
  replace (Zpos (digits2_pos m) + Z.of_N k + (e - Z.of_N k))
    with (Zpos (digits2_pos m) + e) by lia.
  pose proof H as H'. unfold bounded, canonical_mantissa in H'.
  apply andb_true_iff in H' as [Hc _]. apply Z.eqb_eq in Hc. rewrite Hc.
  replace (e - (e - Z.of_N k)) with (Z.of_N k) by lia.
  destruct k as [|d]; cbn [Z.of_N]; now apply round_aux_exact.
Qed.

(** [binary_round] of a representation that lacks trailing zero bits. *)
Lemma binary_round_shl s p e k :
  bounded prec emax (Pos.shiftl p k) (e - Z.of_N k) = true ->
  binary_round prec emax s p e = S754_finite s (Pos.shiftl p k) (e - Z.of_N k).
Proof.
  intros H. unfold binary_round, shl_align.
  pose proof H as H'. unfold bounded, canonical_mantissa in H'.
  apply andb_true_iff in H' as [Hc _]. apply Z.eqb_eq in Hc.
  rewrite digits2_shiftl in Hc.
  replace (Zpos (digits2_pos p) + Z.of_N k + (e - Z.of_N k))
    with (Zpos (digits2_pos p) + e) in Hc by lia.
  rewrite Hc. replace (e - Z.of_N k - e) with (- Z.of_N k) by lia.
  pose proof (round_aux_exact s _ _ 0%N H) as R.
  unfold Pos.shiftl at 1 in R. cbn [Z.of_N] in R. rewrite Z.sub_0_r in R.
  destruct k as [|d]; cbn [Z.of_N Z.opp]; unfold Pos.shiftl in *; cbn [Z.of_N] in *.
  - rewrite Z.sub_0_r in *. exact R.
  - exact R.
Qed.

(** The same two lemmas, stated on the values of the representations. *)
Lemma binary_round_down s q e m0 e0 :
  bounded prec emax m0 e0 = true -> e <= e0 ->
  Zpos q = Zpos m0 * 2 ^ (e0 - e) ->
  binary_round prec emax s q e = S754_finite s m0 e0.
Proof.
  intros Hb He Hq.
  assert (Hk : q = Pos.shiftl m0 (Z.to_N (e0 - e))).
  { apply Pos2Z.inj. rewrite shiftl_Z, Z2N.id by lia. exact Hq. }
  replace e with (e0 - Z.of_N (Z.to_N (e0 - e))) by (rewrite Z2N.id; lia).
  rewrite Hk. now apply binary_round_shr.
Qed.

Lemma binary_round_up s q e m0 e0 :
  bounded prec emax m0 e0 = true -> e0 <= e ->
  Zpos m0 = Zpos q * 2 ^ (e - e0) ->
  binary_round prec emax s q e = S754_finite s m0 e0.
Proof.
  intros Hb He Hq.
  pose (k := Z.to_N (e - e0)).
  assert (Ek : e0 = e - Z.of_N k) by (unfold k; rewrite Z2N.id; lia).
  assert (Hk : m0 = Pos.shiftl q k).
  { apply Pos2Z.inj. rewrite shiftl_Z. unfold k. rewrite Z2N.id by lia. exact Hq. }
  clearbody k. clear Hq. subst m0 e0.
  now apply binary_round_shl.
Qed.

(** *** Integers up to 2^53 are numbers *)

Lemma pad_bounded p :
  Zpos (digits2_pos p) <= 53 ->
  bounded prec emax (Pos.shiftl p (pad p)) (- Z.of_N (pad p)) = true.
Proof.
  intros Hd. unfold bounded, canonical_mantissa, fexp, emin, prec, emax, pad.
  rewrite digits2_shiftl. rewrite Z2N.id by lia.
  pose proof (Pos2Z.is_pos (digits2_pos p)).
  apply andb_true_iff. split; [apply Z.eqb_eq | apply Z.leb_le]; lia.
Qed.

Lemma of_Z_pos_form s p :
  Zpos (digits2_pos p) <= 53 ->
  binary_round prec emax s p 0
  = S754_finite s (Pos.shiftl p (pad p)) (- Z.of_N (pad p)).
Proof.
  intros Hd. apply binary_round_up.
  - now apply pad_bounded.
  - lia.
  - rewrite shiftl_Z. f_equal. f_equal. lia.
Qed.

Lemma digits2_le_53 p : Zpos p < 2 ^ 53 -> Zpos (digits2_pos p) <= 53.
Proof.
  intros H. pose proof (digits2_lower p) as L.
  destruct (Z_le_gt_dec (Zpos (digits2_pos p)) 53) as [|G]; [assumption|].
  exfalso. assert (2 ^ 53 <= 2 ^ (Zpos (digits2_pos p) - 1)).
  { apply Z.pow_le_mono_r; lia. }
  lia.
Qed.

Lemma truncate_form s p k :
  truncate (S754_finite s (Pos.shiftl p k) (- Z.of_N k))
  = if s then Zneg p else Zpos p.
Proof.
  unfold truncate.
  assert (H : match - Z.of_N k with
              | Zneg d => Z.shiftr (Zpos (Pos.shiftl p k)) (Zpos d)
              | _ => Z.shiftl (Zpos (Pos.shiftl p k)) (- Z.of_N k)
              end = Zpos p).
  { destruct k as [|d].
    - reflexivity.
    - change (- Z.of_N (Npos d)) with (Zneg d). cbv iota.
      rewrite shiftl_Z. cbn [Z.of_N]. rewrite Z.shiftr_div_pow2 by lia.
      apply Z.div_mul. apply Z.pow_nonzero; lia. }
  rewrite H. now destruct s.
Qed.

Lemma integral_form s p k :
  integral (S754_finite s (Pos.shiftl p k) (- Z.of_N k)) = true.
Proof.
  unfold integral. destruct k as [|d]; [reflexivity|].
  change (- Z.of_N (Npos d)) with (Zneg d). cbv iota.
  apply Z.eqb_eq. rewrite Z.land_ones by lia. rewrite shiftl_Z. cbn [Z.of_N].
  apply Z.mod_mul. apply Z.pow_nonzero; lia.
Qed.

Lemma of_Z_two53 : of_Z two53 = S754_finite false 4503599627370496 1.
Proof. reflexivity. Qed.

(** An integer of magnitude at most 2^53 is converted exactly. *)
Lemma truncate_of_Z z : - two53 <= z <= two53 -> truncate (of_Z z) = z.
Proof.
  intros Hz. unfold two53 in Hz.
  destruct (Z.eq_dec z (2 ^ 53)) as [->|N1]; [reflexivity|].
  destruct (Z.eq_dec z (- 2 ^ 53)) as [->|N2]; [reflexivity|].
  destruct z as [|p|p]; [reflexivity| |];
    unfold of_Z, binary_normalize;
    (rewrite of_Z_pos_form by (apply digits2_le_53; lia));
    now rewrite truncate_form.
Qed.

Lemma integral_of_Z_small z : - two53 <= z <= two53 -> integral (of_Z z) = true.
Proof.
  intros Hz. unfold two53 in Hz.
  destruct (Z.eq_dec z (2 ^ 53)) as [->|N1]; [reflexivity|].
  destruct (Z.eq_dec z (- 2 ^ 53)) as [->|N2]; [reflexivity|].
  destruct z as [|p|p]; [reflexivity| |];
    unfold of_Z, binary_normalize;
    (rewrite of_Z_pos_form by (apply digits2_le_53; lia));
    apply integral_form.
Qed.

(** *** Counting by one *)

Lemma one_eq : one = S754_finite false 4503599627370496 (-52).
Proof. reflexivity. Qed.

Lemma shl_align_value m e e' :
  e' <= e -> Zpos (fst (shl_align m e e')) = Zpos m * 2 ^ (e - e').
Proof.
  intros H. unfold shl_align. destruct (e' - e) as [|d|d] eqn:E.
  - replace (e - e') with 0 by lia. cbn [fst]. lia.
  - lia.
  - cbn [fst]. change (Pos.iter xO m d) with (Pos.shiftl m (Npos d)).
    rewrite shiftl_Z. f_equal. f_equal. cbn [Z.of_N]. lia.
Qed.

Lemma pad_le_52 p : (Z.of_N (pad p) <= 52).
Proof. unfold pad. pose proof (Pos2Z.is_pos (digits2_pos p)). lia. Qed.

(** [i++] on an integral counter below 2^53 is exact. *)
Lemma add_one z : 1 <= z < two53 -> add (of_Z z) one = of_Z (z + 1).
Proof.
  unfold two53. intros Hz.
  destruct (Z.eq_dec (z + 1) (2 ^ 53)) as [E|N1].
  { replace z with (2 ^ 53 - 1) by lia. reflexivity. }
  destruct z as [|p|p]; try lia.
  replace (Zpos p + 1) with (Zpos (p + 1)) by lia.
  unfold of_Z, binary_normalize.
  rewrite !of_Z_pos_form by (apply digits2_le_53; lia).
  rewrite one_eq. unfold add, SFadd.
  pose proof (pad_le_52 p) as Kp. pose proof (pad_le_52 (p + 1)) as Kq.
  rewrite (Z.min_r (- Z.of_N (pad p)) (-52)) by lia.
  pose proof (shl_align_value (Pos.shiftl p (pad p)) (- Z.of_N (pad p)) (-52)
                ltac:(lia)) as A.
  pose proof (shl_align_value 4503599627370496 (-52) (-52) ltac:(lia)) as B.
  destruct (shl_align (Pos.shiftl p (pad p)) (- Z.of_N (pad p)) (-52)) as [a ea].
  destruct (shl_align 4503599627370496 (-52) (-52)) as [b eb].
  cbn [fst cond_Zopp] in *. cbn [Z.add binary_normalize].
  apply binary_round_down.
  - apply pad_bounded. apply digits2_le_53. lia.
  - lia.
  - rewrite Pos2Z.inj_add, A, B, !shiftl_Z.
    replace (- Z.of_N (pad p) - -52) with (52 - Z.of_N (pad p)) by lia.
    replace (- Z.of_N (pad (p + 1)) - -52) with (52 - Z.of_N (pad (p + 1))) by lia.
    rewrite <- !Z.mul_assoc, <- !Z.pow_add_r by lia.
    replace (Z.of_N (pad p) + (52 - Z.of_N (pad p))) with 52 by lia.
    replace (Z.of_N (pad (p + 1)) + (52 - Z.of_N (pad (p + 1)))) with 52 by lia.
    rewrite Pos2Z.inj_add. change (-52 - -52) with 0. lia.
Qed.

(** At 2^53 the counter no longer advances: 2^53 + 1 is not a number and
    is rounded back to 2^53. *)
Lemma add_one_two53 : add (of_Z two53) one = of_Z two53.
Proof. reflexivity. Qed.

(** *** Multiplying by one, adding to zero *)

Lemma mul_one y : valid_binary prec emax y = true -> mul y one = y.
Proof.
  intros Hv. rewrite one_eq. destruct y as [s|s| |s m e]; cbn [mul SFmul].
  - now rewrite xorb_false_r.
  - now rewrite xorb_false_r.
  - reflexivity.
  - unfold mul, SFmul. rewrite xorb_false_r.
    replace (m * 4503599627370496)%positive with (Pos.shiftl m 52).
    + change (e + -52) with (e - Z.of_N 52). now apply round_aux_exact.
    + apply Pos2Z.inj. rewrite shiftl_Z, Pos2Z.inj_mul. reflexivity.
Qed.

Lemma add_zero_l y : y <> S754_zero true -> add zero y = y.
Proof. intros H. destruct y as [[]|[]| |s m e]; try reflexivity. congruence. Qed.

(** *** [Math.round] and integral numbers *)

Lemma half_up_floor q d :
  0 < d -> Z.shiftr (2 * (q * 2 ^ d) + 2 ^ d) (d + 1) = q.
Proof.
  intros Hd. rewrite Z.shiftr_div_pow2 by lia.
  rewrite Z.pow_add_r by lia. change (2 ^ 1) with 2.
  replace (2 * (q * 2 ^ d) + 2 ^ d) with ((q * 2 + 1) * 2 ^ d) by ring.
  rewrite (Z.mul_comm (2 ^ d) 2).
  rewrite Z.div_mul_cancel_r by (try apply Z.pow_nonzero; lia).
  rewrite Z.div_add_l by lia. change (1 / 2) with 0. lia.
Qed.

(** [Math.round] leaves an integral number as it is. *)
Lemma round_integral y :
  valid_binary prec emax y = true -> integral y = true -> round y = y.
Proof.
  intros Hv Hi. destruct y as [s|s| |s m [|e|d]]; try reflexivity.
  cbn [valid_binary] in Hv. cbn [integral] in Hi. apply Z.eqb_eq in Hi.
  rewrite Z.land_ones in Hi by lia.
  apply Z.mod_divide in Hi; [|apply Z.pow_nonzero; lia].
  destruct Hi as [q Hq].
  assert (Hq0 : 0 < q).
  { assert (0 < 2 ^ Zpos d) by (apply Z.pow_pos_nonneg; lia). nia. }
  unfold round.
  assert (Hr : Z.shiftr (2 * (if s then Zneg m else Zpos m) + 2 ^ Zpos d) (Zpos d + 1)
               = if s then - q else q).
  { destruct s.
    - change (Zneg m) with (- Zpos m). rewrite Hq.
      replace (- (q * 2 ^ Zpos d)) with ((- q) * 2 ^ Zpos d) by ring.
      apply half_up_floor; lia.
    - rewrite Hq. apply half_up_floor; lia. }
  rewrite Hr. destruct q as [|q|q]; try lia.
  destruct s; cbn [Z.opp]; unfold of_Z, binary_normalize;
    (apply binary_round_up; [exact Hv | lia | rewrite Hq; reflexivity]).
Qed.

Lemma shr_1_nonneg r : 0 <= shr_m r -> 0 <= shr_m (shr_1 r).
Proof. destruct r as [[|[p|p|]|p] b c]; cbn; lia. Qed.

Lemma shr_nonneg r e n :
  0 <= shr_m r -> 0 <= shr_m (fst (shr r e n)) /\ e <= snd (shr r e n).
Proof.
  intros H. destruct n as [|p|p]; cbn [shr fst snd]; try (split; [assumption|lia]).
  split; [|lia]. rewrite iter_pos_nat.
  induction (Pos.to_nat p) as [|k IH]; [assumption|].
  cbn [Nat.iter nat_rect]. now apply shr_1_nonneg.
Qed.

Lemma round_nearest_even_nonneg m l : 0 <= m -> 0 <= round_nearest_even m l.
Proof. destruct l as [|[]]; cbn; try lia. destruct (Z.even m); lia. Qed.

Lemma shr_record_of_loc_m m l : shr_m (shr_record_of_loc m l) = m.
Proof. now destruct l as [|[]]. Qed.

(** Rounding a non-negative mantissa at a non-negative exponent gives an
    integral number or overflows to an infinity. *)
Lemma binary_round_aux_class s m e l :
  0 <= m -> 0 <= e ->
  integral (binary_round_aux prec emax s m e l) = true
  \/ binary_round_aux prec emax s m e l = S754_infinity s.
Proof.
  intros Hm He. unfold binary_round_aux, shr_fexp.
  match goal with |- context [shr ?r ?e ?n] =>
    pose proof (shr_nonneg r e n) as H1; destruct (shr r e n) as [r1 e1] end.
  rewrite shr_record_of_loc_m in H1. destruct (H1 Hm) as [M1 E1]. cbn [fst snd] in *.
  match goal with |- context [shr ?r ?e ?n] =>
    pose proof (shr_nonneg r e n) as H2; destruct (shr r e n) as [r2 e2] end.
  rewrite shr_record_of_loc_m in H2.
  destruct (H2 (round_nearest_even_nonneg _ _ M1)) as [M2 E2]. cbn [fst snd] in *.
  destruct (shr_m r2) as [|p|p]; [now left| |lia].
  destruct (e2 <=? emax - prec); [left|now right].
  destruct e2; try reflexivity. lia.
Qed.

Lemma of_Z_class z :
  integral (of_Z z) = true \/ exists s, of_Z z = S754_infinity s.
Proof.
  assert (P : forall s p, integral (binary_round prec emax s p 0) = true
                          \/ binary_round prec emax s p 0 = S754_infinity s).
  { intros s p. destruct (Z_le_gt_dec (Zpos (digits2_pos p)) 53) as [L|G].
    - left. rewrite of_Z_pos_form by assumption. apply integral_form.
    - unfold binary_round, shl_align.
      assert (F : fexp prec emax (Zpos (digits2_pos p) + 0) - 0
                  = Zpos (digits2_pos p) - 53).
      { unfold fexp, emin, prec, emax. lia. }
      rewrite F. destruct (Zpos (digits2_pos p) - 53) eqn:E; try lia.
      apply binary_round_aux_class; lia. }
  destruct z as [|p|p]; [now left| |]; unfold of_Z, binary_normalize;
    destruct (P false p), (P true p); eauto.
Qed.

Lemma of_Z_not_NaN z : isNaN (of_Z z) = false.
Proof.
  destruct (of_Z_class z) as [H|[s H]].
  - now destruct (of_Z z).
  - now rewrite H.
Qed.

(** Whatever [Math.round] returns is integral, an infinity or NaN. *)
Lemma round_class x : is_finite (round x) = true -> integral (round x) = true.
Proof.
  destruct x as [s|s| |s m [|e|d]]; try (now cbn). unfold round.
  match goal with |- context [match ?r with Z0 => _ | _ => _ end] =>
    set (v := r) end.
  assert (A : is_finite (of_Z v) = true -> integral (of_Z v) = true).
  { destruct (of_Z_class v) as [H|[s' H]]; [auto | now rewrite H]. }
  destruct v; auto.
Qed.

(** *** Infinities and NaN are absorbing *)

Lemma mul_non_finite_l a b : is_finite a = false -> is_finite (mul a b) = false.
Proof. destruct a as [|sa| |]; try discriminate; now destruct b. Qed.

Lemma mul_non_finite_r a b : is_finite b = false -> is_finite (mul a b) = false.
Proof. destruct b as [|sb| |]; try discriminate; now destruct a. Qed.

Lemma add_non_finite_l a b : is_finite a = false -> is_finite (add a b) = false.
Proof.
  destruct a as [|sa| |]; try discriminate; destruct b as [|sb| |];
    try reflexivity; now destruct sa, sb.
Qed.

Lemma add_non_finite_r a b : is_finite b = false -> is_finite (add a b) = false.
Proof.
  destruct b as [|sb| |]; try discriminate; destruct a as [|sa| |];
    try reflexivity; now destruct sa, sb.
Qed.

Lemma round_non_finite x : is_finite x = false -> round x = x.
Proof. now destruct x. Qed.

(** [x - x] is a zero, or NaN when [x] is not finite. *)
Lemma sub_diag x :
  match sub x x with S754_zero _ | S754_nan => True | _ => False end.
Proof.
  destruct x as [[]|[]| |s m e]; cbn; try exact I.
  unfold sub, SFsub. now rewrite Z.sub_diag.
Qed.

(** A quotient by a zero or by NaN is an infinity or NaN. *)
Lemma div_by_zero a b :
  match b with S754_zero _ | S754_nan => True | _ => False end ->
  is_finite (div a b) = false.
Proof. destruct b; try contradiction; now destruct a. Qed.

(** [a - b] is a zero or NaN when [a == b]. *)
Lemma sub_eqb a b :
  SFeqb a b = true ->
  match sub a b with S754_zero _ | S754_nan => True | _ => False end.
Proof.
  destruct a as [sa|sa| |sa ma ea], b as [sb|sb| |sb mb eb]; try discriminate;
    try (now destruct sa, sb).
  unfold SFeqb, SFcompare.
  change (Pos.compare_cont Eq ma mb) with (Pos.compare ma mb).
  intros H.
  assert (E : sa = sb /\ ea = eb /\ ma = mb).
  { destruct sa, sb; try discriminate;
      destruct (Z.compare_spec ea eb); try discriminate;
      destruct (Pos.compare_spec ma mb); try discriminate; auto. }
  destruct E as (-> & -> & ->). apply sub_diag.
Qed.

Lemma div_sub_eqb c a b : SFeqb a b = true -> is_finite (div c (sub a b)) = false.
Proof. intros H. now apply div_by_zero, sub_eqb. Qed.

(** *** The order of numbers *)

Lemma compare_rank x y :
  isNaN x = false -> isNaN y = false ->
  exists c, SFcompare x y = Some c /\
    match c with
    | Lt => lex_lt (rank x) (rank y)
    | Eq => rank x = rank y
    | Gt => lex_lt (rank y) (rank x)
    end.
Proof.
  intros Hx Hy.
  destruct x as [sx|sx| |sx mx ex]; try discriminate;
  destruct y as [sy|sy| |sy my ey]; try discriminate;
  try (destruct sx); try (destruct sy); cbn [SFcompare rank lex_lt];
  try (eexists; split; [reflexivity|]; cbn; (reflexivity || lia)).
  - change (Pos.compare_cont Eq mx my) with (Pos.compare mx my).
    eexists; split; [reflexivity|].
    destruct (Z.compare_spec ex ey); [|lia..].
    destruct (Pos.compare_spec mx my); cbn; [congruence| lia..].
  - change (Pos.compare_cont Eq mx my) with (Pos.compare mx my).
    eexists; split; [reflexivity|].
    destruct (Z.compare_spec ex ey); [|lia..].
    destruct (Pos.compare_spec mx my); cbn; [congruence| lia..].
Qed.

Lemma lt_rank x y :
  lt x y = true <->
  isNaN x = false /\ isNaN y = false /\ lex_lt (rank x) (rank y).
Proof.
  unfold lt, SFltb. split.
  - intros H. assert (Hx : isNaN x = false) by (now destruct x).
    assert (Hy : isNaN y = false) by (now destruct x, y).
    destruct (compare_rank x y Hx Hy) as (c & E & R). rewrite E in H.
    destruct c; try discriminate. auto.
  - intros (Hx & Hy & L).
    destruct (compare_rank x y Hx Hy) as (c & E & R). rewrite E.
    destruct c; [| reflexivity |]; exfalso;
      destruct (rank x) as [[? ?] ?], (rank y) as [[? ?] ?]; cbn in *;
      [injection R as -> -> -> |]; lia.
Qed.

Lemma le_rank x y :
  le x y = true <->
  isNaN x = false /\ isNaN y = false /\
  (lex_lt (rank x) (rank y) \/ rank x = rank y).
Proof.
  unfold le, SFleb. split.
  - intros H. assert (Hx : isNaN x = false) by (now destruct x).
    assert (Hy : isNaN y = false) by (now destruct x, y).
    destruct (compare_rank x y Hx Hy) as (c & E & R). rewrite E in H.
    destruct c; try discriminate; auto.
  - intros (Hx & Hy & L).
    destruct (compare_rank x y Hx Hy) as (c & E & R). rewrite E.
    destruct c; try reflexivity. exfalso.
    destruct (rank x) as [[? ?] ?], (rank y) as [[? ?] ?]; cbn in *.
    destruct L as [L|L]; [lia | injection L as -> -> ->; lia].
Qed.

Lemma le_lt_trans a n b : le a n = true -> lt n b = true -> lt a b = true.
Proof.
  rewrite le_rank, !lt_rank. intros (Ha & Hn & L1) (_ & Hb & L2).
  repeat split; try assumption.
  destruct (rank a) as [[? ?] ?], (rank n) as [[? ?] ?], (rank b) as [[? ?] ?].
  cbn in *. destruct L1 as [L1|L1]; [lia | injection L1 as -> -> ->; lia].
Qed.

Lemma le_trans a n b : le a n = true -> le n b = true -> le a b = true.
Proof.
  rewrite !le_rank. intros (Ha & Hn & L1) (_ & Hb & L2).
  repeat split; try assumption.
  destruct (rank a) as [[? ?] ?], (rank n) as [[? ?] ?], (rank b) as [[? ?] ?].
  cbn in *.
  destruct L1 as [L1|L1]; [|injection L1 as -> -> ->; destruct L2; auto].
  destruct L2 as [L2|L2]; [left; lia | injection L2 as <- <- <-; left; lia].
Qed.

Lemma lt_irrefl a : lt a a = false.
Proof.
  destruct (lt a a) eqn:E; [|reflexivity]. apply lt_rank in E as (_ & _ & L).
  destruct (rank a) as [[? ?] ?]. cbn in L. lia.
Qed.

(** Every counter value is at most 2^53. *)
Lemma le_of_Z_two53 z : 1 <= z <= two53 -> le (of_Z z) (of_Z two53) = true.
Proof.
  intros Hz. unfold two53 in Hz.
  destruct (Z.eq_dec z (2 ^ 53)) as [->|N1]; [reflexivity|].
  destruct z as [|p|p]; try lia.
  unfold of_Z at 1. unfold binary_normalize.
  rewrite of_Z_pos_form by (apply digits2_le_53; lia).
  rewrite of_Z_two53. unfold le, SFleb, SFcompare.
  destruct (Z.compare_spec (- Z.of_N (pad p)) 1); try reflexivity; lia.
Qed.

Lemma shr_1_div2 r : 0 <= shr_m r -> shr_m (shr_1 r) = Z.div2 (shr_m r).
Proof. destruct r as [[|[p|p|]|p] b c]; cbn; intros H; try reflexivity; lia. Qed.

Lemma shr_m_iter k r :
  0 <= shr_m r -> shr_m (Nat.iter k shr_1 r) = Z.shiftr (shr_m r) (Z.of_nat k).
Proof.
  intros H. induction k as [|k IH]; [now rewrite Z.shiftr_0_r|].
  cbn [Nat.iter nat_rect]. rewrite shr_1_div2.
  - fold (Nat.iter k shr_1 r). rewrite IH, Z.div2_spec, Z.shiftr_shiftr by lia.
    f_equal. lia.
  - fold (Nat.iter k shr_1 r). rewrite IH. apply Z.shiftr_nonneg. exact H.
Qed.

Lemma shr_fexp_pos m e l :
  0 < m -> 0 <= e ->
  0 < shr_m (fst (shr_fexp prec emax m e l))
  /\ e <= snd (shr_fexp prec emax m e l).
Proof.
  intros Hm He. unfold shr_fexp.
  destruct m as [|p|p]; try lia. cbn [Zdigits2].
  pose proof (digits2_lower p) as Lo. pose proof (Pos2Z.is_pos (digits2_pos p)) as Dp.
  set (d := Zpos (digits2_pos p)) in *.
  assert (N : fexp prec emax (d + e) - e <= d - 53 \/ fexp prec emax (d + e) - e <= 0).
  { unfold fexp, emin, prec, emax. lia. }
  destruct (fexp prec emax (d + e) - e) as [|k|k] eqn:E; cbn [shr fst snd];
    rewrite ?shr_record_of_loc_m; try (split; lia).
  split; [|lia]. rewrite iter_pos_nat, shr_m_iter, shr_record_of_loc_m, positive_nat_Z
    by (rewrite shr_record_of_loc_m; lia).
  rewrite Z.shiftr_div_pow2 by lia.
  assert (2 ^ Zpos k <= 2 ^ (d - 1)) by (apply Z.pow_le_mono_r; lia).
  assert (0 < 2 ^ Zpos k) by (apply Z.pow_pos_nonneg; lia).
  apply Z.div_str_pos. lia.
Qed.

Lemma round_nearest_even_ge m l : m <= round_nearest_even m l.
Proof. destruct l as [|[]]; cbn; try lia. destruct (Z.even m); lia. Qed.

(** Rounding a positive mantissa at a non-negative exponent gives a
    number with a non-negative exponent, or overflows. *)
Lemma binary_round_aux_pos s m e l :
  0 < m -> 0 <= e ->
  (exists m' e', binary_round_aux prec emax s m e l = S754_finite s m' e' /\ e <= e')
  \/ binary_round_aux prec emax s m e l = S754_infinity s.
Proof.
  intros Hm He. unfold binary_round_aux.
  pose proof (shr_fexp_pos m e l Hm He) as H1.
  destruct (shr_fexp prec emax m e l) as [r1 e1]. cbn [fst snd] in H1.
  destruct H1 as [M1 E1].
  pose proof (round_nearest_even_ge (shr_m r1) (loc_of_shr_record r1)) as G.
  match goal with |- context [shr_fexp _ _ ?m' ?e' ?l'] =>
    pose proof (shr_fexp_pos m' e' l' ltac:(lia) ltac:(lia)) as H2;
    destruct (shr_fexp prec emax m' e' l') as [r2 e2] end.
  cbn [fst snd] in H2. destruct H2 as [M2 E2].
  destruct (shr_m r2) as [|p|p]; try lia.
  destruct (e2 <=? emax - prec); [left|now right].
  exists p, e2. split; [reflexivity|lia].
Qed.

Lemma le_not_lt a b : le a b = true -> lt b a = false.
Proof.
  intros H. destruct (lt b a) eqn:E; [|reflexivity]. exfalso.
  apply le_rank in H as (_ & _ & H). apply lt_rank in E as (_ & _ & E).
  destruct (rank a) as [[? ?] ?], (rank b) as [[? ?] ?]. cbn in *.
  destruct H as [H|H]; [lia | injection H as -> -> ->; lia].
Qed.


Lemma le_one_of_Z z : 1 <= z <= two53 -> le one (of_Z z) = true.
Proof.
  intros Hz. unfold two53 in Hz.
  destruct (Z.eq_dec z (2 ^ 53)) as [->|N1]; [reflexivity|].
  destruct z as [|p|p]; try lia.
  unfold of_Z, binary_normalize.
  rewrite of_Z_pos_form by (apply digits2_le_53; lia).
  rewrite one_eq. unfold le, SFleb, SFcompare.
  pose proof (pad_le_52 p) as K.
  destruct (Z.compare_spec (-52) (- Z.of_N (pad p))) as [E|L|G]; try reflexivity; try lia.
  assert (D : digits2_pos p = 1%positive).
  { unfold pad in E. pose proof (Pos2Z.is_pos (digits2_pos p)).
    rewrite Z2N.id in E by lia. lia. }
  destruct p; cbn in D; try (destruct (digits2_pos p); discriminate).
  replace (pad 1) with 52%N by reflexivity. reflexivity.
Qed.

(** A positive integer, however large, is converted to a number that is
    at least one. *)
Lemma of_Z_ge_one z : 1 <= z -> lt (of_Z z) one = false.
Proof.
  intros Hz. destruct (Z_le_gt_dec z two53) as [S|B].
  - apply le_not_lt, le_one_of_Z. lia.
  - destruct z as [|p|p]; try lia. unfold of_Z, binary_normalize, binary_round.
    assert (D : 53 < Zpos (digits2_pos p)).
    { pose proof (digits2_upper p) as U. unfold two53 in B.
      destruct (Z_le_gt_dec (Zpos (digits2_pos p)) 53) as [L|G]; [|lia].
      exfalso. assert (2 ^ Zpos (digits2_pos p) <= 2 ^ 53).
      { apply Z.pow_le_mono_r; lia. }
      lia. }
    unfold shl_align.
    assert (F : fexp prec emax (Zpos (digits2_pos p) + 0) - 0
                = Zpos (digits2_pos p) - 53).
    { unfold fexp, emin, prec, emax. lia. }
    rewrite F. destruct (Zpos (digits2_pos p) - 53) eqn:E; try lia.
    destruct (binary_round_aux_pos false (Zpos p) 0 loc_Exact) as [(m & e & R & He)|R];
      try lia; rewrite R; [|reflexivity].
    rewrite one_eq. unfold lt, SFltb, SFcompare.
    destruct (Z.compare_spec e (-52)); try reflexivity; lia.
Qed.

(** *** Every converted integer is a valid number *)

Lemma Zdigits2_of_bounds m k :
  0 < k -> 2 ^ (k - 1) <= m < 2 ^ k -> Zdigits2 m = k.
Proof.
  intros Hk [Lo Hi].
  assert (0 < 2 ^ (k - 1)) by (apply Z.pow_pos_nonneg; lia).
  destruct m as [|p|p]; try lia. cbn [Zdigits2].
  pose proof (digits2_lower p) as L. pose proof (digits2_upper p) as U.
  pose proof (Pos2Z.is_pos (digits2_pos p)) as D.
  set (d := Zpos (digits2_pos p)) in *.
  destruct (Z.lt_trichotomy d k) as [C|[C|C]]; [exfalso|exact C|exfalso].
  - assert (2 ^ d <= 2 ^ (k - 1)) by (apply Z.pow_le_mono_r; lia). lia.
  - assert (2 ^ k <= 2 ^ (d - 1)) by (apply Z.pow_le_mono_r; lia). lia.
Qed.

Lemma round_nearest_even_le m l : round_nearest_even m l <= m + 1.
Proof. destruct l as [|[]]; cbn; try lia. destruct (Z.even m); lia. Qed.

(** A number with a 53-bit mantissa at a positive exponent is valid when it
    does not overflow. *)
Lemma finite_valid s m e :
  0 <= e -> Zpos (digits2_pos m) = 53 ->
  valid_binary prec emax
    (if e <=? emax - prec then S754_finite s m e else S754_infinity s) = true.
Proof.
  intros He Hd. destruct (e <=? emax - prec) eqn:E; [|reflexivity].
  cbn [valid_binary]. unfold bounded, canonical_mantissa. rewrite E, Hd.
  rewrite andb_true_r. apply Z.eqb_eq. unfold fexp, emin, prec, emax. lia.
Qed.

(** Rounding an integer of more than 53 bits gives a valid number. *)
Lemma binary_round_aux_valid s p :
  53 < Zpos (digits2_pos p) ->
  valid_binary prec emax (binary_round_aux prec emax s (Zpos p) 0 loc_Exact) = true.
Proof.
  intros Hd. unfold binary_round_aux, shr_fexp. cbn [Zdigits2].
  pose proof (digits2_lower p) as Lo. pose proof (digits2_upper p) as Up.
  set (d := Zpos (digits2_pos p)) in *.
  assert (F : fexp prec emax (d + 0) - 0 = d - 53).
  { unfold fexp, emin, prec, emax. lia. }
  rewrite F. destruct (d - 53) as [|k|k] eqn:K; try lia.
  cbn [shr shr_record_of_loc]. rewrite Z.add_0_l.
  set (r1 := SpecFloat.iter_pos shr_1 k _).
  assert (M1 : shr_m r1 = Zpos p / 2 ^ Zpos k).
  { unfold r1. rewrite iter_pos_nat, shr_m_iter by (cbn; lia).
    cbn [shr_m]. rewrite positive_nat_Z. apply Z.shiftr_div_pow2. lia. }
  assert (P : 0 < 2 ^ Zpos k) by (apply Z.pow_pos_nonneg; lia).
  assert (B1 : 2 ^ 52 <= shr_m r1 < 2 ^ 53).
  { rewrite M1. replace d with (53 + Zpos k) in * by lia.
    replace (53 + Zpos k - 1) with (52 + Zpos k) in Lo by lia.
    rewrite Z.pow_add_r in Lo, Up by lia. split.
    - apply Z.div_le_lower_bound; lia.
    - apply Z.div_lt_upper_bound; lia. }
  pose proof (round_nearest_even_ge (shr_m r1) (loc_of_shr_record r1)) as G.
  pose proof (round_nearest_even_le (shr_m r1) (loc_of_shr_record r1)) as L.
  set (m1 := round_nearest_even (shr_m r1) (loc_of_shr_record r1)) in *.
  destruct (Z.eq_dec m1 (2 ^ 53)) as [E|N].
  - rewrite E. change (Zdigits2 (2 ^ 53)) with 54.
    replace (fexp prec emax (54 + Zpos k) - Zpos k) with 1
      by (unfold fexp, emin, prec, emax; lia).
    change (2 ^ 53) with 9007199254740992.
    cbn [shr SpecFloat.iter_pos shr_1 shr_m orb fst snd].
    apply (finite_valid s 4503599627370496 (Zpos k + 1)); [lia|reflexivity].
  - assert (D1 : Zdigits2 m1 = 53) by (apply Zdigits2_of_bounds; lia).
    rewrite D1.
    replace (fexp prec emax (53 + Zpos k) - Zpos k) with 0
      by (unfold fexp, emin, prec, emax; lia).
    cbn [shr shr_m]. destruct m1 as [|q|q]; try lia.
    apply (finite_valid s q (Zpos k)); [lia|exact D1].
Qed.

(** Every integer is converted to a valid number. *)
Lemma valid_of_Z z : valid_binary prec emax (of_Z z) = true.
Proof.
  assert (P : forall s p, valid_binary prec emax (binary_round prec emax s p 0) = true).
  { intros s p. destruct (Z_le_gt_dec (Zpos (digits2_pos p)) 53) as [L|G].
    - rewrite of_Z_pos_form by assumption. cbn [valid_binary]. now apply pad_bounded.
    - unfold binary_round, shl_align.
      assert (F : fexp prec emax (Zpos (digits2_pos p) + 0) - 0
                  = Zpos (digits2_pos p) - 53).
      { unfold fexp, emin, prec, emax. lia. }
      rewrite F. destruct (Zpos (digits2_pos p) - 53) eqn:E; try lia.
      apply binary_round_aux_valid. lia. }
  destruct z as [|p|p]; [reflexivity| |]; apply P.
Qed.

End NumFacts.

(** * The scanning loop of [parseTestCase] *)

Module ScanFacts.
Import Num NumFacts.

Lemma of_Z_small_form z :
  1 <= z <= two53 -> exists m e, of_Z z = S754_finite false m e.
Proof.
  intros Hz. unfold two53 in Hz.
  destruct (Z.eq_dec z (2 ^ 53)) as [->|N1]; [do 2 eexists; reflexivity|].
  destruct z as [|p|p]; try lia.
  unfold of_Z, binary_normalize.
  rewrite of_Z_pos_form by (apply digits2_le_53; lia). eauto.
Qed.

(** The property key of a counter value. *)
Lemma toString_of_Z z : 1 <= z <= two53 -> toString (of_Z z) = pretty z.
Proof.
  intros Hz. pose proof (truncate_of_Z z ltac:(unfold two53 in *; lia)) as T.
  destruct (of_Z_small_form z Hz) as (m & e & E).
  rewrite E in *. unfold toString. now rewrite T.
Qed.

Lemma of_Z_inj a b :
  - two53 <= a <= two53 -> - two53 <= b <= two53 -> of_Z a = of_Z b -> a = b.
Proof.
  intros Ha Hb E. rewrite <- (truncate_of_Z a Ha), <- (truncate_of_Z b Hb).
  now rewrite E.
Qed.

(** [i++]: the counter advances by one, and stays at 2^53 once there. *)
Lemma counter_step z :
  1 <= z <= two53 -> add (of_Z z) one = of_Z (Z.min (z + 1) two53).
Proof.
  intros Hz. destruct (Z.eq_dec z two53) as [->|N1].
  - rewrite Z.min_r by (unfold two53; lia). apply add_one_two53.
  - rewrite Z.min_l by lia. apply add_one. lia.
Qed.

(** More fuel does not change a result. *)
Lemma scan_fuel_mono fuel fuel' shares n i points r :
  (fuel <= fuel')%nat ->
  scan fuel shares n i points = Some r ->
  scan fuel' shares n i points = Some r.
Proof.
  revert fuel' i points. induction fuel as [|fuel IH]; intros fuel' i points Hle H.
  - discriminate.
  - destruct fuel' as [|fuel']; [lia|]. cbn [scan] in *.
    destruct (le i n); [|exact H].
    destruct (shares !! toString i) as [entry|].
    + destruct (baseToDecimal _ _); [|exact H]. apply IH; [lia|exact H].
    + apply IH; [lia|exact H].
Qed.

(** The loop ends when [n] is below 2^53. *)
Lemma scan_terminates shares n :
  le (of_Z two53) n = false ->
  forall (d : nat) z points, 1 <= z <= two53 -> two53 - z <= Z.of_nat d ->
  exists r, scan (S d) shares n (of_Z z) points = Some r.
Proof.
  intros Hn. induction d as [|d IH]; intros z points Hz Hd.
  - assert (z = two53) as -> by lia. cbn [scan]. rewrite Hn. eauto.
  - cbn [scan]. destruct (le (of_Z z) n) eqn:L; [|eauto].
    assert (Hz' : z < two53).
    { destruct (Z.eq_dec z two53) as [->|]; [congruence|lia]. }
    rewrite counter_step, Z.min_l by lia.
    destruct (shares !! toString (of_Z z)) as [entry|].
    + destruct (baseToDecimal _ _); [|eauto]. apply IH; lia.
    + apply IH; lia.
Qed.

(** The loop does not end normally when [n] is at least 2^53: the
    counter reaches 2^53 and stays there. *)
Lemma scan_stuck shares n fuel points res :
  le (of_Z two53) n = true ->
  scan fuel shares n (of_Z two53) points <> Some (Normal res).
Proof.
  intros Hn. revert points. induction fuel as [|fuel IH]; intros points.
  - discriminate.
  - cbn [scan]. rewrite Hn, add_one_two53.
    destruct (shares !! toString (of_Z two53)) as [entry|]; [|apply IH].
    destruct (baseToDecimal _ _); [apply IH|discriminate].
Qed.

Lemma scan_no_normal shares n fuel z points res :
  le (of_Z two53) n = true -> 1 <= z <= two53 ->
  scan fuel shares n (of_Z z) points <> Some (Normal res).
Proof.
  intros Hn. revert z points. induction fuel as [|fuel IH]; intros z points Hz.
  - discriminate.
  - cbn [scan].
    assert (L : le (of_Z z) n = true).
    { eapply le_trans; [apply le_of_Z_two53; lia | exact Hn]. }
    rewrite L, counter_step by lia.
    destruct (shares !! toString (of_Z z)) as [entry|].
    + destruct (baseToDecimal _ _); [apply IH|discriminate].
      unfold two53 in *; lia.
    + apply IH. unfold two53 in *; lia.
Qed.

(** With no share to decode the loop never ends at all. *)
Lemma scan_diverges n fuel z points :
  le (of_Z two53) n = true -> 1 <= z <= two53 ->
  scan fuel ∅ n (of_Z z) points = None.
Proof.
  intros Hn. revert z points. induction fuel as [|fuel IH]; intros z points Hz.
  - reflexivity.
  - cbn [scan].
    assert (L : le (of_Z z) n = true).
    { eapply le_trans; [apply le_of_Z_two53; lia | exact Hn]. }
    rewrite L, counter_step, lookup_empty by lia.
    apply IH. unfold two53 in *; lia.
Qed.



(** The points the loop adds: each comes from an entry whose index lies
    between the counter and [n], and no two have the same [x]. *)
Lemma scan_points fuel shares n z points res :
  1 <= z <= two53 ->
  scan fuel shares n (of_Z z) points = Some (Normal res) ->
  exists new, res = points ++ new /\ Forall (decoded_at shares n z) new
              /\ NoDup (map fst new).
Proof.
  revert z points. induction fuel as [|fuel IH]; intros z points Hz H.
  - discriminate.
  - cbn [scan] in H. destruct (le (of_Z z) n) eqn:L.
    2:{ injection H as <-. exists []. rewrite app_nil_r.
        repeat split; constructor. }
    assert (Hz' : z < two53).
    { destruct (Z.eq_dec z two53) as [->|]; [|lia].
      exfalso. eapply (scan_stuck shares n (S fuel) points res L).
      cbn [scan]. rewrite L. exact H. }
    rewrite counter_step, Z.min_l in H by lia.
    rewrite toString_of_Z in H by lia.
    assert (W : forall new, Forall (decoded_at shares n (z + 1)) new ->
                Forall (decoded_at shares n z) new).
    { intros new F. eapply Forall_impl; [exact F|].
      intros p (w & entry & Hw & R). exists w, entry. split; [lia|exact R]. }
    destruct (shares !! pretty z) as [entry|] eqn:E.
    + destruct (baseToDecimal _ _) as [y|] eqn:D; [|discriminate].
      apply IH in H as (new & -> & F & N); [|lia].
      exists ((of_Z z, y) :: new). rewrite <- app_assoc. split; [reflexivity|].
      split; [constructor; [|now apply W]|].
      * exists z, entry. repeat split; (assumption || lia).
      * cbn [map fst]. constructor; [|exact N].
        intros Hin. apply list_elem_of_In, in_map_iff in Hin as (p & Ep & Hp).
        rewrite Forall_forall in F.
        apply list_elem_of_In, F in Hp as (w & _ & Hw & Ew & _).
        rewrite Ew in Ep. apply of_Z_inj in Ep; unfold two53 in *; lia.
    + apply IH in H as (new & -> & F & N); [|lia].
      exists new. auto.
Qed.

(** The loop looks up the keys of the indices between the counter and
    [n], and no other. *)
Lemma scan_ext fuel (shares1 shares2 : gmap string share) n z points :
  1 <= z <= two53 ->
  (forall w, z <= w <= two53 -> le (of_Z w) n = true ->
             shares1 !! pretty w = shares2 !! pretty w) ->
  scan fuel shares1 n (of_Z z) points = scan fuel shares2 n (of_Z z) points.
Proof.
  revert z points. induction fuel as [|fuel IH]; intros z points Hz A.
  - reflexivity.
  - cbn [scan]. destruct (le (of_Z z) n) eqn:L; [|reflexivity].
    rewrite counter_step, toString_of_Z by lia.
    rewrite (A z) by (assumption || lia).
    assert (A' : forall w, Z.min (z + 1) two53 <= w <= two53 ->
                   le (of_Z w) n = true ->
                   shares1 !! pretty w = shares2 !! pretty w).
    { intros w Hw. apply A. unfold two53 in *. lia. }
    assert (Hm : 1 <= Z.min (z + 1) two53 <= two53) by (unfold two53 in *; lia).
    destruct (shares2 !! pretty z) as [entry|].
    + destruct (baseToDecimal _ _); [|reflexivity]. now apply IH.
    + now apply IH.
Qed.

End ScanFacts.

(** * Exact operations on integers, and numbers above 2^53 *)

Module ExactFacts.
Import Num NumFacts ScanFacts.

(** An integer of magnitude at most 2^53, written with any number of
    fraction bits, is normalized to its number. *)
Lemma normalize_exact M e c :
  e <= 0 -> M = c * 2 ^ (- e) -> - two53 <= c <= two53 ->
  binary_normalize prec emax M e false = of_Z c.
Proof.
  unfold two53. intros He HM Hc.
  assert (P2 : 0 < 2 ^ (- e)) by (apply Z.pow_pos_nonneg; lia).
  assert (G : forall s p q,
    Zpos q = Zpos p * 2 ^ (- e) -> Zpos p <= 2 ^ 53 ->
    binary_round prec emax s q e = binary_round prec emax s p 0).
  { intros s p q Hq Hp.
    destruct (Z.eq_dec (Zpos p) (2 ^ 53)) as [E|N].
    - assert (p = 9007199254740992%positive) as -> by lia.
      change (binary_round prec emax s 9007199254740992 0)
        with (S754_finite s 4503599627370496 1).
      apply binary_round_down; [reflexivity|lia|].
      rewrite Hq. replace (1 - e) with (1 + - e) by lia.
      rewrite Z.pow_add_r by lia. change (2 ^ 1) with 2. lia.
    - assert (D : Zpos (digits2_pos p) <= 53) by (apply digits2_le_53; lia).
      rewrite (of_Z_pos_form s p D).
      pose proof (pad_bounded p D) as B.
      destruct (Z_le_gt_dec e (- Z.of_N (pad p))) as [L|L].
      + apply binary_round_down; [exact B|exact L|].
        rewrite Hq, shiftl_Z, <- Z.mul_assoc, <- Z.pow_add_r by lia.
        f_equal. f_equal. lia.
      + apply binary_round_up; [exact B|lia|].
        rewrite Hq, shiftl_Z, <- Z.mul_assoc, <- Z.pow_add_r by lia.
        f_equal. f_equal. lia. }
  unfold of_Z, binary_normalize.
  destruct c as [|p|p].
  - now subst M.
  - destruct M as [|q|q]; try lia. apply G; lia.
  - destruct M as [|q|q]; try lia. apply G; lia.
Qed.

(** The representation of a non-zero integer below 2^53 in magnitude. *)
Lemma of_Z_form c :
  c <> 0 -> - two53 < c < two53 ->
  exists m e, of_Z c = S754_finite (c <? 0) m e /\ e <= 0 /\
              cond_Zopp (c <? 0) (Zpos m) = c * 2 ^ (- e).
Proof.
  unfold two53. intros N Hc. unfold of_Z, binary_normalize.
  destruct c as [|p|p]; [congruence| |].
  - rewrite of_Z_pos_form by (apply digits2_le_53; lia).
    eexists _, _. split; [reflexivity|]. split; [lia|].
    cbn [cond_Zopp Z.ltb Z.compare]. rewrite shiftl_Z, Z.opp_involutive. reflexivity.
  - rewrite of_Z_pos_form by (apply digits2_le_53; lia).
    eexists _, _. split; [reflexivity|]. split; [lia|].
    cbn [cond_Zopp Z.ltb Z.compare]. rewrite shiftl_Z, Z.opp_involutive.
    rewrite <- Pos2Z.opp_pos. ring.
Qed.

Lemma of_Z_opp c : - two53 < c < two53 -> c <> 0 ->
  exists s m e, of_Z c = S754_finite s m e /\ of_Z (- c) = S754_finite (negb s) m e.
Proof.
  unfold two53. intros Hc N. unfold of_Z, binary_normalize.
  destruct c as [|p|p]; [congruence| |];
    rewrite ?Pos2Z.opp_pos, ?Pos2Z.opp_neg;
    rewrite !of_Z_pos_form by (apply digits2_le_53; lia);
    eexists _, _, _; split; reflexivity.
Qed.

(** Rounding a mantissa of more than 53 bits whose value is at least 2^53
    gives a number above 2^53 or overflows. *)
Lemma binary_round_aux_big s p e :
  53 < Zpos (digits2_pos p) -> 54 <= Zpos (digits2_pos p) + e ->
  binary_round_aux prec emax s (Zpos p) e loc_Exact = S754_infinity s \/
  exists m' e',
    binary_round_aux prec emax s (Zpos p) e loc_Exact = S754_finite s m' e' /\
    Zpos (digits2_pos m') = 53 /\ 1 <= e' <= emax - prec.
Proof.
  intros Hd He. unfold binary_round_aux, shr_fexp. cbn [Zdigits2].
  pose proof (digits2_lower p) as Lo. pose proof (digits2_upper p) as Up.
  set (d := Zpos (digits2_pos p)) in *.
  assert (F : fexp prec emax (d + e) - e = d - 53).
  { unfold fexp, emin, prec, emax. lia. }
  rewrite F. destruct (d - 53) as [|k|k] eqn:K; try lia.
  cbn [shr shr_record_of_loc].
  set (r1 := SpecFloat.iter_pos shr_1 k _).
  assert (M1 : shr_m r1 = Zpos p / 2 ^ Zpos k).
  { unfold r1. rewrite iter_pos_nat, shr_m_iter by (cbn; lia).
    cbn [shr_m]. rewrite positive_nat_Z. apply Z.shiftr_div_pow2. lia. }
  assert (P : 0 < 2 ^ Zpos k) by (apply Z.pow_pos_nonneg; lia).
  assert (B1 : 2 ^ 52 <= shr_m r1 < 2 ^ 53).
  { rewrite M1. replace d with (53 + Zpos k) in * by lia.
    replace (53 + Zpos k - 1) with (52 + Zpos k) in Lo by lia.
    rewrite Z.pow_add_r in Lo, Up by lia. split.
    - apply Z.div_le_lower_bound; lia.
    - apply Z.div_lt_upper_bound; lia. }
  pose proof (round_nearest_even_ge (shr_m r1) (loc_of_shr_record r1)) as G.
  pose proof (round_nearest_even_le (shr_m r1) (loc_of_shr_record r1)) as L.
  set (m1 := round_nearest_even (shr_m r1) (loc_of_shr_record r1)) in *.
  destruct (Z.eq_dec m1 (2 ^ 53)) as [E|N].
  - rewrite E. change (Zdigits2 (2 ^ 53)) with 54.
    replace (fexp prec emax (54 + (e + Zpos k)) - (e + Zpos k)) with 1
      by (unfold fexp, emin, prec, emax; lia).
    change (2 ^ 53) with 9007199254740992.
    cbn [shr SpecFloat.iter_pos shr_1 shr_m orb fst snd].
    destruct (e + Zpos k + 1 <=? emax - prec) eqn:O; [right|now left].
    apply Z.leb_le in O. eexists _, _. split; [reflexivity|].
    split; [reflexivity|lia].
  - assert (D1 : Zdigits2 m1 = 53) by (apply Zdigits2_of_bounds; lia).
    rewrite D1.
    replace (fexp prec emax (53 + (e + Zpos k)) - (e + Zpos k)) with 0
      by (unfold fexp, emin, prec, emax; lia).
    cbn [shr shr_m]. destruct m1 as [|q|q]; try lia.
    destruct (e + Zpos k <=? emax - prec) eqn:O; [right|now left].
    apply Z.leb_le in O. eexists _, _. split; [reflexivity|].
    split; [exact D1|lia].
Qed.

(** The value form of [round_aux_exact]. *)
Lemma round_aux_exact_value s q e m0 e0 :
  bounded prec emax m0 e0 = true -> e <= e0 ->
  Zpos q = Zpos m0 * 2 ^ (e0 - e) ->
  binary_round_aux prec emax s (Zpos q) e loc_Exact = S754_finite s m0 e0.
Proof.
  intros Hb He Hq.
  assert (Hk : q = Pos.shiftl m0 (Z.to_N (e0 - e))).
  { apply Pos2Z.inj. rewrite shiftl_Z, Z2N.id by lia. exact Hq. }
  replace e with (e0 - Z.of_N (Z.to_N (e0 - e))) by (rewrite Z2N.id; lia).
  rewrite Hk. now apply round_aux_exact.
Qed.

Lemma digits2_ge p k : 2 ^ (k - 1) <= Zpos p -> k <= Zpos (digits2_pos p).
Proof.
  intros H. pose proof (digits2_upper p) as U.
  pose proof (Pos2Z.is_pos (digits2_pos p)) as D.
  destruct (Z_le_gt_dec k (Zpos (digits2_pos p))) as [L|G]; [exact L|exfalso].
  assert (2 ^ Zpos (digits2_pos p) <= 2 ^ (k - 1)) by (apply Z.pow_le_mono_r; lia).
  lia.
Qed.

(** The representation of an integer from 1 to 2^53: a 53-bit mantissa
    [m] at an exponent [e] with [m * 2^e] the integer. *)
Lemma of_Z_value_form v :
  1 <= v <= two53 ->
  exists m e, of_Z v = S754_finite false m e /\ bounded prec emax m e = true /\
    - 52 <= e <= 1 /\ Zpos m * 2 ^ (e + 52) = v * 2 ^ 52 /\
    Zpos (digits2_pos m) = 53.
Proof.
  unfold two53. intros Hv.
  destruct (Z.eq_dec v (2 ^ 53)) as [->|N].
  { exists 4503599627370496%positive, 1. repeat split; try reflexivity; lia. }
  destruct v as [|p|p]; try lia.
  assert (D : Zpos (digits2_pos p) <= 53) by (apply digits2_le_53; lia).
  unfold of_Z, binary_normalize. rewrite (of_Z_pos_form false p D).
  pose proof (pad_le_52 p) as K.
  exists (Pos.shiftl p (pad p)), (- Z.of_N (pad p)).
  split; [reflexivity|]. split; [now apply pad_bounded|].
  split; [lia|]. split.
  - rewrite shiftl_Z, <- Z.mul_assoc, <- Z.pow_add_r by lia.
    f_equal. f_equal. lia.
  - rewrite digits2_shiftl. unfold pad.
    pose proof (Pos2Z.is_pos (digits2_pos p)). rewrite Z2N.id by lia. lia.
Qed.

Lemma mantissa_lower m : Zpos (digits2_pos m) = 53 -> 2 ^ 52 <= Zpos m < 2 ^ 53.
Proof.
  intros D. pose proof (digits2_lower m) as L. pose proof (digits2_upper m) as U.
  rewrite D in L, U. change (53 - 1) with 52 in L. lia.
Qed.

(** Multiplication of integers is exact when the product is at most 2^53. *)
Lemma mul_of_Z n c :
  0 <= n <= two53 -> 1 <= c < two53 -> n * c <= two53 ->
  mul (of_Z n) (of_Z c) = of_Z (n * c).
Proof.
  intros Hn Hc Hp.
  destruct (of_Z_value_form c ltac:(lia)) as (mc & ec & Ec & Bc & Rc & Vc & Dc).
  destruct (Z.eq_dec n 0) as [->|N0]; [now rewrite Ec|].
  destruct (of_Z_value_form n ltac:(lia)) as (mn & en & En & Bn & Rn & Vn & Dn).
  destruct (of_Z_value_form (n * c) ltac:(nia)) as (m0 & e0 & E0 & B0 & R0 & V0 & D0).
  rewrite En, Ec, E0. unfold mul, SFmul. cbn [xorb].
  pose proof (mantissa_lower mn Dn) as Ln. pose proof (mantissa_lower mc Dc) as Lc.
  pose proof (mantissa_lower m0 D0) as L0.
  assert (X : Zpos mn * Zpos mc * 2 ^ (en + ec + 104) = Zpos m0 * 2 ^ (e0 + 104)).
  { replace (en + ec + 104) with ((en + 52) + (ec + 52)) by lia.
    replace (e0 + 104) with ((e0 + 52) + 52) by lia.
    rewrite (Z.pow_add_r 2 (en + 52) (ec + 52)), (Z.pow_add_r 2 (e0 + 52) 52) by lia.
    transitivity ((Zpos mn * 2 ^ (en + 52)) * (Zpos mc * 2 ^ (ec + 52))); [ring|].
    rewrite Vn, Vc.
    replace (Zpos m0 * (2 ^ (e0 + 52) * 2 ^ 52))
      with ((Zpos m0 * 2 ^ (e0 + 52)) * 2 ^ 52) by ring.
    rewrite V0. ring. }
  assert (Le : en + ec <= e0).
  { destruct (Z_le_gt_dec (en + ec) e0) as [L|G]; [exact L|exfalso].
    assert (P1 : 0 < 2 ^ (e0 + 104)) by (apply Z.pow_pos_nonneg; lia).
    assert (P2 : 2 * 2 ^ (e0 + 104) <= 2 ^ (en + ec + 104)).
    { replace (2 * 2 ^ (e0 + 104)) with (2 ^ (e0 + 104 + 1))
        by (rewrite Z.pow_add_r by lia; lia).
      apply Z.pow_le_mono_r; lia. }
    assert (2 ^ 52 * 2 ^ 52 <= Zpos mn * Zpos mc) by nia.
    change (2 ^ 52 * 2 ^ 52) with (2 ^ 104) in *.
    assert (2 ^ 104 * (2 * 2 ^ (e0 + 104)) <= Zpos mn * Zpos mc * 2 ^ (en + ec + 104)).
    { apply Z.mul_le_mono_nonneg; lia. }
    nia. }
  apply round_aux_exact_value; [exact B0|exact Le|].
  assert (P : 0 < 2 ^ (en + ec + 104)) by (apply Z.pow_pos_nonneg; lia).
  apply (Z.mul_reg_r _ _ (2 ^ (en + ec + 104))); [lia|].
  rewrite Pos2Z.inj_mul, X, <- Z.mul_assoc, <- Z.pow_add_r by lia.
  f_equal. f_equal. lia.
Qed.

(** Addition of integers is exact when the sum is at most 2^53. *)
Lemma add_of_Z n c :
  0 <= n <= two53 -> 0 <= c < two53 -> n + c <= two53 ->
  add (of_Z n) (of_Z c) = of_Z (n + c).
Proof.
  intros Hn Hc Hs.
  destruct (Z.eq_dec c 0) as [->|Nc].
  { rewrite Z.add_0_r. change (of_Z 0) with (S754_zero false).
    unfold add. destruct (Z.eq_dec n 0) as [->|N0]; [reflexivity|].
    destruct (of_Z_small_form n ltac:(lia)) as (m & e & ->). reflexivity. }
  destruct (Z.eq_dec n 0) as [->|Nn].
  { destruct (of_Z_small_form c ltac:(lia)) as (m & e & E). now rewrite E. }
  assert (Hn' : - two53 < n < two53) by lia.
  assert (Hc' : - two53 < c < two53) by lia.
  destruct (of_Z_form n Nn Hn') as (ma & ea & Ea & La & Va).
  destruct (of_Z_form c Nc Hc') as (mb & eb & Eb & Lb & Vb).
  rewrite Ea, Eb. unfold add, SFadd.
  set (ez := Z.min ea eb).
  assert (Lz : ez <= 0) by (unfold ez; lia).
  pose proof (shl_align_value ma ea ez ltac:(unfold ez; lia)) as A.
  pose proof (shl_align_value mb eb ez ltac:(unfold ez; lia)) as B.
  destruct (shl_align ma ea ez) as [a' ea'], (shl_align mb eb ez) as [b' eb'].
  cbn [fst] in *.
  apply normalize_exact; [exact Lz| |unfold two53 in *; lia].
  assert (SA : cond_Zopp (n <? 0) (Zpos a') = n * 2 ^ (- ez)).
  { replace (- ez) with (- ea + (ea - ez)) by lia.
    rewrite Z.pow_add_r, Z.mul_assoc, <- Va by (unfold ez; lia).
    destruct (n <? 0); cbn [cond_Zopp] in *; rewrite A; ring. }
  assert (SB : cond_Zopp (c <? 0) (Zpos b') = c * 2 ^ (- ez)).
  { replace (- ez) with (- eb + (eb - ez)) by lia.
    rewrite Z.pow_add_r, Z.mul_assoc, <- Vb by (unfold ez; lia).
    destruct (c <? 0); cbn [cond_Zopp] in *; rewrite B; ring. }
  rewrite SA, SB. ring.
Qed.

Lemma big_is_accumulated r s :
  s = false ->
  (r = S754_infinity s \/
   exists m' e', r = S754_finite s m' e' /\
     Zpos (digits2_pos m') = 53 /\ 1 <= e' <= emax - prec) ->
  accumulated r.
Proof.
  intros -> [->|(m & e & -> & D & E)]; [now left|].
  right. right. eauto.
Qed.

(** A chunk weight multiplies an accumulated number into one. *)
Lemma mul_accumulated x c :
  accumulated x -> 1 <= c < two53 -> accumulated (mul x (of_Z c)).
Proof.
  intros Hx Hc.
  destruct (of_Z_value_form c ltac:(lia)) as (mc & ec & Ec & Bc & Rc & Vc & Dc).
  assert (Rc' : ec <= 0).
  { destruct (Z.eq_dec ec 1) as [->|]; [|lia]. exfalso.
    pose proof (mantissa_lower mc Dc). change (1 + 52) with 53 in Vc.
    unfold two53 in Hc. change (2 ^ 53) with (2 * 2 ^ 52) in Vc. lia. }
  pose proof (mantissa_lower mc Dc) as Lc.
  destruct Hx as [->|[(n & Hn & ->)|(m & e & -> & D & E)]].
  - rewrite Ec. now left.
  - destruct (Z_le_gt_dec (n * c) two53) as [L|G].
    { right. left. exists (n * c). split; [nia|]. now apply mul_of_Z. }
    assert (N1 : 1 <= n) by nia.
    destruct (of_Z_value_form n ltac:(lia)) as (mn & en & En & Bn & Rn & Vn & Dn).
    pose proof (mantissa_lower mn Dn) as Ln.
    rewrite En, Ec. unfold mul, SFmul. cbn [xorb].
    apply (big_is_accumulated _ false eq_refl).
    assert (Lp : 2 ^ 104 <= Zpos (mn * mc)).
    { rewrite Pos2Z.inj_mul. change (2 ^ 104) with (2 ^ 52 * 2 ^ 52). nia. }
    pose proof (digits2_ge (mn * mc) 105 Lp) as Dp.
    apply binary_round_aux_big; [lia|].
    pose proof (digits2_upper (mn * mc)) as U.
    set (d := Zpos (digits2_pos (mn * mc))) in *.
    destruct (Z_le_gt_dec 54 (d + (en + ec))) as [K|K]; [exact K|exfalso].
    assert (X : Zpos (mn * mc) * 2 ^ (en + ec + 104) = n * c * 2 ^ 104).
    { replace (en + ec + 104) with ((en + 52) + (ec + 52)) by lia.
      rewrite (Z.pow_add_r 2 (en + 52) (ec + 52)), Pos2Z.inj_mul by lia.
      transitivity ((Zpos mn * 2 ^ (en + 52)) * (Zpos mc * 2 ^ (ec + 52))); [ring|].
      rewrite Vn, Vc. change (2 ^ 104) with (2 ^ 52 * 2 ^ 52). ring. }
    assert (P : 0 < 2 ^ (en + ec + 104)) by (apply Z.pow_pos_nonneg; lia).
    assert (Y : Zpos (mn * mc) * 2 ^ (en + ec + 104) < 2 ^ d * 2 ^ (en + ec + 104))
      by (apply Z.mul_lt_mono_pos_r; lia).
    rewrite <- Z.pow_add_r in Y by lia.
    assert (Q : 2 ^ (d + (en + ec + 104)) <= 2 ^ 157)
      by (apply Z.pow_le_mono_r; lia).
    unfold two53 in G. change (2 ^ 157) with (2 ^ 53 * 2 ^ 104) in Q.
    assert (2 ^ 53 * 2 ^ 104 < n * c * 2 ^ 104) by (apply Z.mul_lt_mono_pos_r; lia).
    lia.
  - pose proof (mantissa_lower m D) as Lm.
    rewrite Ec. unfold mul, SFmul. cbn [xorb].
    apply (big_is_accumulated _ false eq_refl).
    assert (Lp : 2 ^ 104 <= Zpos (m * mc)).
    { rewrite Pos2Z.inj_mul. change (2 ^ 104) with (2 ^ 52 * 2 ^ 52). nia. }
    pose proof (digits2_ge (m * mc) 105 Lp) as Dp.
    apply binary_round_aux_big; lia.
Qed.

(** Adding a chunk to an accumulated number gives one. *)
Lemma add_accumulated x c :
  accumulated x -> 0 <= c < two53 -> accumulated (add x (of_Z c)).
Proof.
  intros Hx Hc.
  assert (G : forall m e mc ec,
    Zpos (digits2_pos m) = 53 -> Zpos (digits2_pos mc) = 53 ->
    - 52 <= ec <= 0 -> ec <= e <= emax - prec ->
    2 ^ 53 * 2 ^ (- ec) < Zpos m * 2 ^ (e - ec) + Zpos mc ->
    accumulated (add (S754_finite false m e) (S754_finite false mc ec))).
  { intros m e mc ec D Dc Rc Re V. unfold add, SFadd.
    rewrite (Z.min_r e ec) by lia.
    pose proof (shl_align_value m e ec ltac:(lia)) as A.
    pose proof (shl_align_value mc ec ec ltac:(lia)) as B.
    destruct (shl_align m e ec) as [a' ea'], (shl_align mc ec ec) as [b' eb'].
    cbn [fst cond_Zopp] in *. rewrite Z.sub_diag, Z.mul_1_r in B.
    rewrite <- Pos2Z.inj_add. cbn [binary_normalize].
    assert (S : Zpos (a' + b') = Zpos m * 2 ^ (e - ec) + Zpos mc)
      by (rewrite Pos2Z.inj_add; lia).
    pose proof (digits2_upper (a' + b')) as U.
    set (d := Zpos (digits2_pos (a' + b'))) in *.
    assert (Dd : 54 <= d + ec).
    { destruct (Z_le_gt_dec 54 (d + ec)) as [K|K]; [exact K|exfalso].
      assert (2 ^ d <= 2 ^ (53 - ec)) by (apply Z.pow_le_mono_r; lia).
      replace (53 - ec) with (53 + - ec) in * by lia.
      rewrite Z.pow_add_r in * by lia. lia. }
    apply (big_is_accumulated _ false eq_refl).
    unfold binary_round, shl_align. fold d.
    replace (fexp prec emax (d + ec) - ec) with (d - 53)
      by (unfold fexp, emin, prec, emax; lia).
    destruct (d - 53) as [|k|k] eqn:K; try lia.
    apply binary_round_aux_big; fold d; lia. }
  destruct (Z.eq_dec c 0) as [->|Nc].
  { change (of_Z 0) with (S754_zero false).
    destruct Hx as [->|[(n & Hn & ->)|(m & e & -> & D & E)]].
    - now left.
    - right. left. exists n. split; [exact Hn|].
      destruct (Z.eq_dec n 0) as [->|N0]; [reflexivity|].
      destruct (of_Z_small_form n ltac:(lia)) as (m & e & ->). reflexivity.
    - right. right. eauto. }
  destruct (of_Z_value_form c ltac:(lia)) as (mc & ec & Ec & Bc & Rc & Vc & Dc).
  pose proof (mantissa_lower mc Dc) as Lc.
  assert (Rc' : ec <= 0).
  { destruct (Z.eq_dec ec 1) as [->|]; [|lia]. exfalso.
    change (1 + 52) with 53 in Vc.
    unfold two53 in Hc. change (2 ^ 53) with (2 * 2 ^ 52) in Vc. lia. }
  assert (Pc : 0 < 2 ^ (- ec)) by (apply Z.pow_pos_nonneg; lia).
  assert (Vc' : Zpos mc = c * 2 ^ (- ec)).
  { apply (Z.mul_reg_r _ _ (2 ^ (ec + 52))); [apply Z.pow_nonzero; lia|].
    rewrite Vc, <- Z.mul_assoc, <- Z.pow_add_r by lia. f_equal. f_equal. lia. }
  destruct Hx as [->|[(n & Hn & ->)|(m & e & -> & D & E)]].
  - rewrite Ec. now left.
  - destruct (Z_le_gt_dec (n + c) two53) as [L|L].
    { right. left. exists (n + c). split; [lia|]. now apply add_of_Z. }
    destruct (of_Z_value_form n ltac:(lia)) as (mn & en & En & Bn & Rn & Vn & Dn).
    rewrite En, Ec.
    assert (Pn : 0 < 2 ^ (en + 52)) by (apply Z.pow_pos_nonneg; lia).
    destruct (Z_le_gt_dec ec en) as [O|O].
    + apply G; try assumption; try (unfold emax, prec; lia).
      assert (Vn' : Zpos mn * 2 ^ (en - ec) = n * 2 ^ (- ec)).
      { apply (Z.mul_reg_r _ _ (2 ^ (ec + 52))); [apply Z.pow_nonzero; lia|].
        rewrite <- !Z.mul_assoc, <- !Z.pow_add_r by lia.
        replace (en - ec + (ec + 52)) with (en + 52) by lia.
        replace (- ec + (ec + 52)) with 52 by lia. exact Vn. }
      rewrite Vn', Vc'. unfold two53 in L. nia.
    + assert (A : add (S754_finite false mn en) (S754_finite false mc ec)
                  = add (S754_finite false mc ec) (S754_finite false mn en)).
      { unfold add, SFadd. rewrite (Z.min_comm en ec), Z.add_comm. reflexivity. }
      rewrite A.
      assert (Pe : 0 < 2 ^ (- en)) by (apply Z.pow_pos_nonneg; lia).
      assert (Vn' : Zpos mn = n * 2 ^ (- en)).
      { apply (Z.mul_reg_r _ _ (2 ^ (en + 52))); [apply Z.pow_nonzero; lia|].
        rewrite Vn, <- Z.mul_assoc, <- Z.pow_add_r by lia. f_equal. f_equal. lia. }
      apply G; try assumption; try (unfold emax, prec; lia).
      assert (Vc2 : Zpos mc * 2 ^ (ec - en) = c * 2 ^ (- en)).
      { apply (Z.mul_reg_r _ _ (2 ^ (en + 52))); [apply Z.pow_nonzero; lia|].
        rewrite <- !Z.mul_assoc, <- !Z.pow_add_r by lia.
        replace (ec - en + (en + 52)) with (ec + 52) by lia.
        replace (- en + (en + 52)) with 52 by lia. exact Vc. }
      rewrite Vc2, Vn'. unfold two53 in L. nia.
  - pose proof (mantissa_lower m D) as Lm. rewrite Ec.
    apply G; try assumption; try lia.
    assert (2 ^ (53 - ec) <= Zpos m * 2 ^ (e - ec)).
    { replace (53 - ec) with (52 + (1 - ec)) by lia. rewrite Z.pow_add_r by lia.
      assert (2 ^ (1 - ec) <= 2 ^ (e - ec)) by (apply Z.pow_le_mono_r; lia).
      assert (0 < 2 ^ (1 - ec)) by (apply Z.pow_pos_nonneg; lia).
      nia. }
    replace (53 - ec) with (53 + - ec) in * by lia.
    rewrite Z.pow_add_r in * by lia. lia.
Qed.

Lemma accumulated_class x :
  accumulated x ->
  valid_binary prec emax x = true /\
  (integral x = true \/ x = S754_infinity false) /\
  match x with
  | S754_zero false | S754_finite false _ _ | S754_infinity false => True
  | _ => False
  end.
Proof.
  intros [->|[(n & Hn & ->)|(m & e & -> & D & E)]].
  - repeat split. now right.
  - split; [apply valid_of_Z|]. split.
    + left. apply integral_of_Z_small. unfold two53 in *. lia.
    + destruct (Z.eq_dec n 0) as [->|N0]; [exact I|].
      destruct (of_Z_small_form n ltac:(lia)) as (m & e & ->). exact I.
  - split; [|split; [left|exact I]].
    + cbn [valid_binary]. unfold bounded, canonical_mantissa. rewrite D.
      apply andb_true_iff. split; [apply Z.eqb_eq|apply Z.leb_le; lia].
      unfold fexp, emin, prec, emax in *. lia.
    + destruct e; try lia; reflexivity.
Qed.

(** Rounding is symmetric. *)
Lemma binary_round_opp p e :
  binary_round prec emax true p e = opp (binary_round prec emax false p e).
Proof.
  unfold binary_round, binary_round_aux.
  destruct (shl_align _ _ _) as [m' e'].
  destruct (shr_fexp _ _ _ _ _) as [r1 e1].
  destruct (shr_fexp _ _ _ _ _) as [r2 e2].
  destruct (shr_m r2); [reflexivity| |reflexivity].
  now destruct (_ <=? _).
Qed.

Lemma opp_of_Z z : 0 < z -> opp (of_Z z) = of_Z (- z).
Proof.
  intros Hz. destruct z as [|p|p]; try lia.
  rewrite Pos2Z.opp_pos. unfold of_Z, binary_normalize.
  now rewrite binary_round_opp.
Qed.

Lemma opp_class x :
  valid_binary prec emax x = true ->
  integral x = true \/ (exists sg, x = S754_infinity sg) ->
  valid_binary prec emax (opp x) = true /\
  (integral (opp x) = true \/ exists sg, opp x = S754_infinity sg).
Proof.
  intros V [I|[sg ->]]; [|split; [reflexivity|right; eauto]].
  destruct x as [s|s| |s m e]; try discriminate; (split; [exact V|left; exact I]).
Qed.

End ExactFacts.

(** * Decoding valid digit strings *)

Module DecodeFacts.
Import Num NumFacts ScanFacts ExactFacts ParseInt.

Lemma digit_not_space c d :
  digit_value c = Some d ->
  is_white_space c = false /\ strip_sign (String c "") = (false, String c "").
Proof.
  destruct c as [[] [] [] [] [] [] [] []]; vm_compute; intros H;
    (discriminate || (split; reflexivity)).
Qed.

Lemma strip_sign_digit c d s :
  digit_value c = Some d -> strip_sign (String c s) = (false, String c s).
Proof.
  intros H. apply digit_not_space in H as [_ H].
  destruct c as [[] [] [] [] [] [] [] []]; try reflexivity; vm_compute in H; discriminate.
Qed.

Lemma hex_prefix_not_digits s s' :
  strip_hex_prefix s = Some s' -> all_digits 16 s = false.
Proof.
  unfold strip_hex_prefix. destruct s as [|c s0]; [discriminate|].
  destruct c as [[] [] [] [] [] [] [] []]; cbn; try discriminate.
  destruct s0 as [|c' s'']; [discriminate|].
  destruct c' as [[] [] [] [] [] [] [] []]; cbn; try discriminate;
    intros _; reflexivity.
Qed.

Lemma digits_value_app b ds acc :
  fold_left (fun a d => a * b + d) ds acc
  = acc * b ^ Z.of_nat (length ds) + digits_value b ds.
Proof.
  unfold digits_value. revert acc. induction ds as [|d ds IH]; intros acc.
  - cbn. lia.
  - cbn [fold_left length]. rewrite IH, (IH (0 * b + d)).
    rewrite Nat2Z.inj_succ, Z.pow_succ_r by lia. ring.
Qed.

(** On a string of valid digits the scan of [parseInt] takes the whole
    string, and its left-to-right evaluation is the positional value. *)
Lemma digit_prefix_all b s :
  all_digits b s = true ->
  length (digit_prefix b s) = String.length s /\
  digits_value b (digit_prefix b s) = positional_value b s.
Proof.
  induction s as [|c s IH]; intros H; [split; reflexivity|].
  cbn [all_digits] in H. apply andb_true_iff in H as [Hc Hs].
  destruct (IH Hs) as [L V].
  cbn [digit_prefix positional_value]. unfold radix_digit.
  destruct (digit_value c) as [d|]; [|discriminate]. rewrite Hc.
  cbn [length String.length]. split; [now rewrite L|].
  unfold digits_value at 1. cbn [fold_left]. rewrite digits_value_app, L, V. ring.
Qed.

Lemma digit_value_range c d : digit_value c = Some d -> 0 <= d < 36.
Proof.
  destruct c as [[] [] [] [] [] [] [] []]; vm_compute; intros H;
    try discriminate; injection H as <-; split; discriminate || reflexivity.
Qed.


Lemma bases_pass b : 2 <= b <= 36 -> base_passes b = true.
Proof.
  intros Hb.
  assert (A : forallb base_passes (map Z.of_nat (seq 2 35)) = true) by (vm_compute; reflexivity).
  rewrite forallb_forall in A. apply A. apply in_map_iff.
  exists (Z.to_nat b). split; [lia|]. apply in_seq. lia.
Qed.

(** *** The accumulation in the radixes that are not exact *)

Lemma flush_accumulated result part multiplier :
  accumulated result -> 0 <= part < multiplier -> multiplier <= kMaximumMultiplier ->
  accumulated (add (mul result (of_Z multiplier)) (of_Z part)).
Proof.
  unfold kMaximumMultiplier. intros Hr Hp Hm.
  apply add_accumulated; [apply mul_accumulated|]; unfold two53; try assumption;
    change (4294967295 / 36) with 119304647 in Hm; lia.
Qed.

Lemma accumulate_accumulated R ds : forall result part multiplier,
  2 <= R <= 36 -> in_radix R ds ->
  accumulated result -> 0 <= part < multiplier -> multiplier <= kMaximumMultiplier ->
  accumulated (accumulate R ds result part multiplier).
Proof.
  induction ds as [|d ds IH]; intros result part multiplier HR Hds Hr Hp Hm.
  - now apply flush_accumulated.
  - apply Forall_cons in Hds as [Hd Hds]. cbn [accumulate].
    destruct (kMaximumMultiplier <? multiplier * R) eqn:K.
    + apply IH; try assumption.
      * now apply flush_accumulated.
      * unfold kMaximumMultiplier. change (4294967295 / 36) with 119304647. lia.
    + apply Z.ltb_ge in K. apply IH; try assumption; nia.
Qed.

Lemma fold_digits_ge R ds : forall v,
  1 <= R -> in_radix R ds -> 0 <= v ->
  v <= fold_left (fun a d => a * R + d) ds v.
Proof.
  induction ds as [|d ds IH]; intros v HR Hds Hv; [cbn; lia|].
  apply Forall_cons in Hds as [Hd Hds]. cbn [fold_left].
  specialize (IH (v * R + d) HR Hds ltac:(nia)). nia.
Qed.

(** While the integer read stays within 2^53, the accumulation is exact. *)
Lemma accumulate_exact R ds : forall r part multiplier,
  2 <= R <= 36 -> in_radix R ds -> 0 <= r ->
  0 <= part < multiplier -> multiplier <= kMaximumMultiplier ->
  fold_left (fun a d => a * R + d) ds (r * multiplier + part) <= two53 ->
  accumulate R ds (of_Z r) part multiplier
  = of_Z (fold_left (fun a d => a * R + d) ds (r * multiplier + part)).
Proof.
  assert (F : forall r part multiplier,
    0 <= r -> 0 <= part < multiplier -> multiplier <= kMaximumMultiplier ->
    r * multiplier + part <= two53 ->
    add (mul (of_Z r) (of_Z multiplier)) (of_Z part) = of_Z (r * multiplier + part)).
  { unfold kMaximumMultiplier. change (4294967295 / 36) with 119304647.
    intros r part multiplier Hr Hp Hm Hv.
    assert (r * 1 <= r * multiplier) by (apply Z.mul_le_mono_nonneg_l; lia).
    assert (0 <= r * multiplier) by (apply Z.mul_nonneg_nonneg; lia).
    rewrite mul_of_Z, add_of_Z by (unfold two53 in *; lia). reflexivity. }
  induction ds as [|d ds IH]; intros r part multiplier HR Hds Hr Hp Hm Hv.
  - cbn [accumulate fold_left] in *. now apply F.
  - pose proof Hds as Hall. apply Forall_cons in Hds as [Hd Hds].
    cbn [accumulate fold_left] in *.
    assert (Hr' : 0 <= r * multiplier + part) by nia.
    pose proof (fold_digits_ge R ds _ ltac:(lia) Hds
                  ltac:(instantiate (1 := (r * multiplier + part) * R + d); nia)) as G.
    destruct (kMaximumMultiplier <? multiplier * R) eqn:K.
    + rewrite F by (try assumption; nia).
      apply IH; try assumption; try lia.
      unfold kMaximumMultiplier. change (4294967295 / 36) with 119304647. lia.
    + apply Z.ltb_ge in K.
      replace ((r * multiplier + part) * R + d)
        with (r * (multiplier * R) + (part * R + d)) in * by ring.
      apply IH; try assumption; nia.
Qed.

Lemma drop_zeros_value R ds : digits_value R (drop_zeros ds) = digits_value R ds.
Proof.
  unfold digits_value. induction ds as [|d ds IH]; [reflexivity|].
  destruct d as [|p|p]; try reflexivity. cbn [drop_zeros fold_left]. exact IH.
Qed.

Lemma drop_zeros_in_radix R ds : in_radix R ds -> in_radix R (drop_zeros ds).
Proof.
  induction ds as [|d ds IH]; intros H; [exact H|].
  pose proof H as H'. apply Forall_cons in H' as [_ Hds].
  destruct d; cbn [drop_zeros]; auto.
Qed.

Lemma digit_prefix_in_radix R s : in_radix R (digit_prefix R s).
Proof.
  induction s as [|c s IH]; [constructor|]. cbn [digit_prefix]. unfold radix_digit.
  destruct (digit_value c) as [d|] eqn:E; [|constructor].
  destruct (d <? R) eqn:L; [|constructor].
  apply digit_value_range in E. apply Z.ltb_lt in L.
  apply Forall_cons. split; [lia|exact IH].
Qed.

Lemma digits_value_nonneg R ds : 1 <= R -> in_radix R ds -> 0 <= digits_value R ds.
Proof. intros HR H. now apply (fold_digits_ge R ds 0). Qed.

(** The accumulation from the first chunk on. *)
Lemma accumulate_digits R ds :
  2 <= R <= 36 -> in_radix R ds -> digits_value R ds <= two53 ->
  accumulate R (drop_zeros ds) zero 0 1 = of_Z (digits_value R ds).
Proof.
  intros HR Hds Hv. rewrite <- (drop_zeros_value R ds) in *.
  change zero with (of_Z 0).
  rewrite accumulate_exact; try reflexivity; try lia.
  - now apply drop_zeros_in_radix.
  - unfold kMaximumMultiplier. change (4294967295 / 36) with 119304647. lia.
  - exact Hv.
Qed.

Lemma accumulate_digits_class R ds :
  2 <= R <= 36 -> in_radix R ds ->
  accumulated (accumulate R (drop_zeros ds) zero 0 1).
Proof.
  intros HR Hds. apply accumulate_accumulated; try lia.
  - now apply drop_zeros_in_radix.
  - right. left. exists 0. split; [unfold two53; lia|reflexivity].
  - unfold kMaximumMultiplier. change (4294967295 / 36) with 119304647. lia.
Qed.

(** In an exact radix, and in every radix up to 2^53, the number is the
    one nearest to the integer the digits denote. *)
Lemma to_number_exact R negative ds :
  2 <= R <= 36 -> in_radix R ds ->
  exact_radix R = true \/ digits_value R ds <= two53 ->
  to_number R negative ds
  = if digits_value R ds =? 0 then S754_zero negative
    else of_Z (if negative then - digits_value R ds else digits_value R ds).
Proof.
  intros HR Hds H. unfold to_number. cbv zeta.
  destruct (digits_value R ds =? 0) eqn:Z0; [reflexivity|].
  destruct (exact_radix R); [reflexivity|].
  destruct H as [H|H]; [discriminate|].
  rewrite accumulate_digits by assumption.
  destruct negative; [|reflexivity]. apply opp_of_Z.
  apply Z.eqb_neq in Z0. pose proof (digits_value_nonneg R ds ltac:(lia) Hds). lia.
Qed.

(** The number of a negative string is the opposite of the number of the
    digits. *)
Lemma to_number_opp R ds :
  2 <= R <= 36 -> in_radix R ds ->
  to_number R true ds = opp (to_number R false ds).
Proof.
  intros HR Hds. unfold to_number. cbv zeta.
  destruct (digits_value R ds =? 0) eqn:Z0; [reflexivity|].
  destruct (exact_radix R); [|reflexivity].
  symmetry. apply opp_of_Z.
  apply Z.eqb_neq in Z0. pose proof (digits_value_nonneg R ds ltac:(lia) Hds). lia.
Qed.

(** Whatever the radix, the number is valid, and integral or an infinity. *)
Lemma to_number_class R negative ds :
  2 <= R <= 36 -> in_radix R ds ->
  valid_binary prec emax (to_number R negative ds) = true /\
  (integral (to_number R negative ds) = true \/
   exists sg, to_number R negative ds = S754_infinity sg).
Proof.
  intros HR Hds.
  assert (P : valid_binary prec emax (to_number R false ds) = true /\
              (integral (to_number R false ds) = true \/
               exists sg, to_number R false ds = S754_infinity sg)).
  { unfold to_number. cbv zeta.
    destruct (digits_value R ds =? 0); [split; [reflexivity|now left]|].
    destruct (exact_radix R); [split; [apply valid_of_Z | apply of_Z_class]|].
    destruct (accumulated_class _ (accumulate_digits_class R ds HR Hds))
      as (V & [I|I] & _); split; eauto. }
  destruct negative; [|exact P]. rewrite to_number_opp by assumption.
  destruct P as [V C]. now apply opp_class.
Qed.

Lemma to_number_not_NaN R negative ds :
  2 <= R <= 36 -> in_radix R ds -> isNaN (to_number R negative ds) = false.
Proof.
  intros HR Hds. destruct (to_number_class R negative ds HR Hds) as [_ [I|[sg ->]]];
    [|reflexivity].
  now destruct (to_number R negative ds).
Qed.

(** *** Valid digit strings *)

Lemma parse_valid b s :
  2 <= b <= 36 -> valid_digit_string b s = true ->
  exact_radix b = true \/ positional_value b s <= two53 ->
  parse s b = of_Z (positional_value b s).
Proof.
  intros Hb Hv Hx. destruct s as [|c s]; [discriminate|]. cbn [valid_digit_string] in Hv.
  pose proof Hv as Hall. cbn [all_digits] in Hv. apply andb_true_iff in Hv as [Hc Hs].
  destruct (digit_value c) as [d|] eqn:Ed; [|discriminate].
  unfold parse. cbn [trim_start].
  rewrite (proj1 (digit_not_space c d Ed)), (strip_sign_digit c d s Ed).
  replace (b =? 0) with false by (symmetry; apply Z.eqb_neq; lia).
  replace (b <? 2) with false by (symmetry; apply Z.ltb_ge; lia).
  replace (36 <? b) with false by (symmetry; apply Z.ltb_ge; lia).
  cbn [negb andb orb].
  assert (P : (if b =? 16 then strip_hex_prefix (String c s) else None) = None).
  { destruct (b =? 16) eqn:E16; [|reflexivity]. apply Z.eqb_eq in E16. subst b.
    destruct (strip_hex_prefix (String c s)) eqn:X; [|reflexivity].
    apply hex_prefix_not_digits in X. congruence. }
  rewrite P. destruct (digit_prefix_all b _ Hall) as [L V].
  pose proof (digit_prefix_in_radix b (String c s)) as IR.
  destruct (digit_prefix b (String c s)) as [|d0 ds] eqn:DP; [discriminate|].
  rewrite to_number_exact, V by (rewrite ?V; assumption).
  destruct (positional_value b (String c s) =? 0) eqn:Z0.
  - apply Z.eqb_eq in Z0. now rewrite Z0.
  - reflexivity.
Qed.


(** On a valid digit string [baseToDecimal] returns what [parseInt] makes
    of all its digits; there is no error. *)
Lemma parse_valid_digits b s :
  2 <= b <= 36 -> valid_digit_string b s = true ->
  parse s b = to_number b false (digit_prefix b s) /\
  isNaN (parse s b) = false.
Proof.
  intros Hb Hv.
  assert (E : parse s b = to_number b false (digit_prefix b s)).
  { destruct s as [|c s]; [discriminate|]. cbn [valid_digit_string] in Hv.
    pose proof Hv as Hall. cbn [all_digits] in Hv. apply andb_true_iff in Hv as [Hc Hs].
    destruct (digit_value c) as [d|] eqn:Ed; [|discriminate].
    unfold parse. cbn [trim_start].
    rewrite (proj1 (digit_not_space c d Ed)), (strip_sign_digit c d s Ed).
    replace (b =? 0) with false by (symmetry; apply Z.eqb_neq; lia).
    replace (b <? 2) with false by (symmetry; apply Z.ltb_ge; lia).
    replace (36 <? b) with false by (symmetry; apply Z.ltb_ge; lia).
    cbn [negb andb orb].
    assert (P : (if b =? 16 then strip_hex_prefix (String c s) else None) = None).
    { destruct (b =? 16) eqn:E16; [|reflexivity]. apply Z.eqb_eq in E16. subst b.
      destruct (strip_hex_prefix (String c s)) eqn:X; [|reflexivity].
      apply hex_prefix_not_digits in X. congruence. }
    rewrite P. destruct (digit_prefix_all b _ Hall) as [L V].
    now destruct (digit_prefix b (String c s)) as [|d0 ds] eqn:DP. }
  split; [exact E|]. rewrite E.
  apply to_number_not_NaN; [exact Hb|apply digit_prefix_in_radix].
Qed.


(** The radix [parseInt] reads the digits in. *)
Lemma parse_unfold s R :
  parse s R = S754_nan \/
  exists R' negative str,
    2 <= R' <= 36 /\
    parse s R = match digit_prefix R' str with
                | [] => S754_nan
                | ds => to_number R' negative ds
                end.
Proof.
  unfold parse. destruct (strip_sign (trim_start s)) as [negative str].
  destruct (negb (R =? 0) && ((R <? 2) || (36 <? R))) eqn:G; [now left|]. right.
  assert (HR : R = 0 \/ 2 <= R <= 36).
  { destruct (Z.eqb_spec R 0) as [->|N]; [now left|right].
    cbn [negb andb] in G. apply orb_false_iff in G as [G1 G2].
    apply Z.ltb_ge in G1, G2. lia. }
  destruct (if (R =? 0) || (R =? 16) then strip_hex_prefix str else None) as [str'|].
  - exists 16, negative, str'. split; [lia|reflexivity].
  - exists (if R =? 0 then 10 else R), negative, str.
    split; [|reflexivity]. destruct HR as [->|HR]; [cbn; lia|].
    replace (R =? 0) with false by (symmetry; apply Z.eqb_neq; lia). exact HR.
Qed.

(** What [parseInt] returns: NaN, or a valid number that is integral or an
    infinity. *)
Lemma parse_class s R :
  isNaN (parse s R) = true \/
  (valid_binary prec emax (parse s R) = true /\
   (integral (parse s R) = true \/ exists sg, parse s R = S754_infinity sg)).
Proof.
  destruct (parse_unfold s R) as [->|(R' & negative & str & HR & ->)]; [now left|].
  pose proof (digit_prefix_in_radix R' str) as IR.
  destruct (digit_prefix R' str) as [|d ds]; [now left|]. right.
  now apply to_number_class.
Qed.

(** Every value that [baseToDecimal] returns is a valid number, integral
    or an infinity. *)
Lemma decoded_value_class value base y :
  baseToDecimal value base = Normal y ->
  valid_binary prec emax y = true /\
  (integral y = true \/ exists sg, y = S754_infinity sg).
Proof.
  unfold baseToDecimal, parseInt.
  destruct (lt base two || gt base thirty_six); [discriminate|].
  destruct (parse_class value (ToInt32 base)) as [N|C].
  - rewrite N. discriminate.
  - destruct (isNaN (parse value (ToInt32 base))); [discriminate|].
    now intros [= <-].
Qed.

End DecodeFacts.

(** * Interpolation *)

Module InterpolationFacts.
Import Num NumFacts.

Lemma basis_loop_non_finite t xi i j rest li :
  is_finite li = false -> is_finite (basis_loop t xi i j rest li) = false.
Proof.
  revert j li. induction rest as [|[xj yj] rest IH]; intros j li H; [exact H|].
  cbn [basis_loop]. apply IH. destruct (Nat.eqb i j); [exact H|].
  now apply mul_non_finite_l.
Qed.

(** A basis polynomial whose point shares its [x] with another selected
    point has a zero denominator, and is an infinity or NaN. *)
Lemma basis_loop_dup t xi i j (rest : list point) li d x y :
  rest !! d = Some (x, y) -> SFeqb xi x = true -> i <> (j + d)%nat ->
  is_finite (basis_loop t xi i j rest li) = false.
Proof.
  revert j li d. induction rest as [|[xj yj] rest IH]; intros j li d H Q N.
  - discriminate.
  - cbn [basis_loop]. destruct d as [|d].
    + injection H as -> ->. apply basis_loop_non_finite.
      replace (j + 0)%nat with j in N by lia.
      apply Nat.eqb_neq in N. rewrite N.
      now apply mul_non_finite_r, div_sub_eqb.
    + apply (IH (S j) _ d); [exact H | exact Q | lia].
Qed.

Lemma sum_loop_non_finite t sel i rest acc :
  is_finite acc = false -> is_finite (sum_loop t sel i rest acc) = false.
Proof.
  revert i acc. induction rest as [|[xi yi] rest IH]; intros i acc H; [exact H|].
  cbn [sum_loop]. apply IH. now apply add_non_finite_l.
Qed.

Lemma sum_loop_dup t (sel : list point) i (rest : list point) acc a b xa ya xb yb :
  rest !! a = Some (xa, ya) -> sel !! b = Some (xb, yb) -> SFeqb xa xb = true ->
  (i + a)%nat <> b ->
  is_finite (sum_loop t sel i rest acc) = false.
Proof.
  revert i acc a. induction rest as [|[xi yi] rest IH]; intros i acc a Ha Hb Q N.
  - discriminate.
  - cbn [sum_loop]. destruct a as [|a].
    + injection Ha as -> ->. apply sum_loop_non_finite, add_non_finite_r.
      apply mul_non_finite_r.
      apply (basis_loop_dup t xa i 0 sel one b xb yb Hb Q). lia.
    + apply (IH (S i) _ a); [exact Ha | exact Hb | exact Q | lia].
Qed.

Lemma interpolate_at_dup (sel : list point) t a b xa ya xb yb :
  a <> b -> sel !! a = Some (xa, ya) -> sel !! b = Some (xb, yb) ->
  SFeqb xa xb = true ->
  is_finite (interpolate_at sel t) = false.
Proof.
  intros N Ha Hb Q. unfold interpolate_at.
  apply (sum_loop_dup t sel 0 sel zero a b xa ya xb yb Ha Hb Q). lia.
Qed.

Lemma eqb_refl_integral y : integral y = true -> SFeqb y y = true.
Proof.
  destruct y as [s|s| |s m e]; try discriminate; intros _; [reflexivity|].
  unfold SFeqb, SFcompare. rewrite Z.compare_refl.
  change (Pos.compare_cont Eq m m) with (Pos.compare m m).
  rewrite Pos.compare_refl. now destruct s.
Qed.

(** With [k = 1] the sum has the single term [y * 1]. *)
Lemma lagrange_single x y rest :
  lagrangeInterpolation ((x, y) :: rest) one
  = Normal (round (add zero (mul y one))).
Proof.
  unfold lagrangeInterpolation.
  rewrite of_Z_ge_one by (cbn [length]; lia).
  assert (E : @slice0 point ((x, y) :: rest) one = [(x, y)]).
  { unfold slice0. rewrite one_eq. cbn [ToIntegerOrInfinity].
    change (truncate (S754_finite false 4503599627370496 (-52))) with 1.
    change (1 <? 0) with false. cbv iota.
    rewrite Z.min_l by (cbn [length]; lia). reflexivity. }
  cbv zeta. rewrite E. reflexivity.
Qed.

(** The single term is [y] when [y] is integral or an infinity. *)
Lemma single_term y :
  valid_binary prec emax y = true ->
  integral y = true \/ (exists sg, y = S754_infinity sg) ->
  SFeqb (round (add zero (mul y one))) y = true /\
  (y <> S754_zero true -> round (add zero (mul y one)) = y).
Proof.
  intros Hv [Hi|[sg ->]].
  - rewrite mul_one by assumption.
    assert (D : y = S754_zero true \/ y <> S754_zero true).
    { destruct y as [[]| | |]; (now left) || (right; discriminate). }
    destruct D as [->|N]; [split; [reflexivity|congruence]|].
    rewrite add_zero_l, round_integral by assumption.
    split; [now apply eqb_refl_integral|auto].
  - now destruct sg.
Qed.

(** With [k = 1], a decoded share is its own reconstruction. *)
Lemma lagrange_single_decoded value base x y rest :
  baseToDecimal value base = Normal y ->
  exists r, lagrangeInterpolation ((x, y) :: rest) one = Normal r /\
            SFeqb r y = true.
Proof.
  intros D. apply DecodeFacts.decoded_value_class in D as [Hv Hc].
  rewrite lagrange_single. eexists. split; [reflexivity|].
  now apply single_term.
Qed.

End InterpolationFacts.

(** * [solve] and [solveMultiple] *)

Module SolveFacts.
Import Num NumFacts ScanFacts.

Lemma parseTestCase_fuel_mono fuel fuel' testCase r :
  (fuel <= fuel')%nat ->
  parseTestCase fuel testCase = Some r -> parseTestCase fuel' testCase = Some r.
Proof.
  intros Hle. unfold parseTestCase.
  destruct (missing_keys testCase); [intros H; exact H|].
  destruct (declared_n testCase) as [n|], (declared_k testCase) as [k|];
    try (intros H; exact H).
  destruct (scan fuel _ _ _ _) as [c|] eqn:E; [|discriminate].
  now rewrite (scan_fuel_mono _ _ _ _ _ _ _ Hle E).
Qed.

Lemma solve_fuel_mono fuel fuel' testCase r :
  (fuel <= fuel')%nat ->
  solve fuel testCase = Some r -> solve fuel' testCase = Some r.
Proof.
  intros Hle. unfold solve.
  destruct (parseTestCase fuel testCase) as [c|] eqn:E; [|discriminate].
  now rewrite (parseTestCase_fuel_mono _ _ _ _ Hle E).
Qed.

Lemma solve_never_throws fuel testCase e : solve fuel testCase <> Some (Throw e).
Proof.
  unfold solve. destruct (parseTestCase fuel testCase) as [[[pts n k]|e']|];
    cbn [bind try_catch]; try discriminate.
  destruct (lagrangeInterpolation pts k); cbn [bind try_catch]; discriminate.
Qed.

Lemma solve_shape fuel testCase r :
  solve fuel testCase = Some (Normal r) ->
  success_shape r \/ exists e, r = failure e.
Proof.
  unfold solve. destruct (parseTestCase fuel testCase) as [[[pts n k]|e']|];
    cbn [bind try_catch]; try discriminate.
  - destruct (lagrangeInterpolation pts k); cbn [bind try_catch];
      intros [= <-]; [left|right; eauto].
    unfold success_shape; cbn; eauto 10.
  - intros [= <-]. eauto.
Qed.

(** What [solve] makes of the outcome of [parseTestCase]. *)
Lemma solve_parse_throw fuel testCase e :
  parseTestCase fuel testCase = Some (Throw e) ->
  solve fuel testCase = Some (Normal (failure e)).
Proof. unfold solve. now intros ->. Qed.

Lemma parseTestCase_distinct_x fuel testCase ps :
  parseTestCase fuel testCase = Some (Normal ps) ->
  NoDup (map fst (p_points ps)).
Proof.
  unfold parseTestCase.
  destruct (missing_keys testCase); [discriminate|].
  destruct (declared_n testCase) as [n|], (declared_k testCase) as [k|];
    try discriminate.
  destruct (scan fuel _ _ _ _) as [[pts|]|] eqn:E; try discriminate.
  destruct (lt _ k); [discriminate|]. intros [= <-]. cbn [p_points].
  change one with (of_Z 1) in E.
  apply scan_points in E as (new & -> & _ & N); [exact N|unfold two53; lia].
Qed.

Lemma missing_keys_throw fuel testCase :
  missing_keys testCase = true ->
  parseTestCase fuel testCase = Some (Throw MissingKeys).
Proof.
  unfold parseTestCase. now intros ->.
Qed.

Lemma parse_keys fuel testCase ps :
  parseTestCase fuel testCase = Some (Normal ps) ->
  missing_keys testCase = false /\
  declared_n testCase = Some (p_n ps) /\ declared_k testCase = Some (p_k ps) /\
  scan fuel (tc_shares testCase) (p_n ps) one [] = Some (Normal (p_points ps)).
Proof.
  unfold parseTestCase.
  destruct (missing_keys testCase); [discriminate|].
  destruct (declared_n testCase) as [n|], (declared_k testCase) as [k|];
    try discriminate.
  destruct (scan fuel _ _ _ _) as [[pts|]|] eqn:E; try discriminate.
  destruct (lt _ k); [discriminate|]. intros [= <-]. cbn [p_n p_k p_points].
  repeat split. exact E.
Qed.

Lemma parseTestCase_terminates testCase fuel :
  scan_bounded testCase = true -> (enough_fuel <= fuel)%nat ->
  exists r, parseTestCase fuel testCase = Some r.
Proof.
  intros B Hf. destruct (missing_keys testCase) eqn:M.
  { rewrite missing_keys_throw by assumption. eauto. }
  unfold scan_bounded in B. rewrite M in B. cbn [orb] in B.
  unfold parseTestCase. rewrite M.
  destruct (declared_n testCase) as [n|], (declared_k testCase) as [k|];
    try (eexists; reflexivity).
  apply negb_true_iff in B.
  destruct (scan_terminates (tc_shares testCase) n B (Z.to_nat (two53 - 1)) 1 [])
    as [r R]; [unfold two53; lia | unfold two53; lia |].
  change (of_Z 1) with one in R. fold enough_fuel in R.
  rewrite (scan_fuel_mono _ _ _ _ _ _ _ Hf R).
  destruct r as [pts|e]; [|eauto]. destruct (lt _ k); eauto.
Qed.

Lemma solve_terminates testCase fuel :
  scan_bounded testCase = true -> (enough_fuel <= fuel)%nat ->
  exists r, solve fuel testCase = Some (Normal r).
Proof.
  intros B Hf. destruct (parseTestCase_terminates testCase fuel B Hf) as [c Hc].
  destruct (solve fuel testCase) as [[r|e]|] eqn:E.
  - eauto.
  - now apply solve_never_throws in E.
  - unfold solve in E. rewrite Hc in E. discriminate.
Qed.

Lemma solveMultiple_from_spec fuel index testCases :
  Forall (fun tc => exists r, solve fuel tc = Some (Normal r)) testCases ->
  exists rs,
    solveMultiple_from fuel index testCases = Some (Normal rs) /\
    length rs = length testCases /\
    forall i tc, testCases !! i = Some tc ->
      exists r, rs !! i = Some ((index + i)%nat, r) /\
                solve fuel tc = Some (Normal r).
Proof.
  intros H. revert index. induction H as [|tc rest [r Hr] _ IH]; intros index.
  - exists []. repeat split. intros i tc Hi. discriminate.
  - destruct (IH (S index)) as (rs & E & L & A).
    exists ((index, r) :: rs). cbn [solveMultiple_from]. rewrite Hr, E.
    repeat split; [cbn; now rewrite L|].
    intros [|i] tc' Hi.
    + injection Hi as <-. exists r. rewrite Nat.add_0_r. auto.
    + destruct (A i tc' Hi) as (r' & R1 & R2). exists r'.
      replace (index + S i)%nat with (S index + i)%nat by lia. auto.
Qed.

(** With no share to decode and [n] at 2^53, the call never returns. *)
Lemma endless_diverges fuel : solve fuel endlessTestCase = None.
Proof.
  unfold solve, parseTestCase.
  change (missing_keys endlessTestCase) with false.
  change (declared_n endlessTestCase) with (Some (of_Z two53)).
  change (declared_k endlessTestCase) with (Some one).
  change (tc_shares endlessTestCase) with (∅ : gmap string share).
  cbv iota. change one with (of_Z 1) at 1.
  rewrite scan_diverges; [reflexivity | reflexivity | unfold two53; lia].
Qed.

End SolveFacts.

(** * The properties of the specification *)

Import Num NumFacts ScanFacts DecodeFacts InterpolationFacts SolveFacts.

(** ** The end-to-end example *)

(** C1, as the code behaves: on the example test case of the source file
    (n = 4, k = 3, shares 1, 2, 3 and 6), with fuel for the five tests of
    the loop condition, [solve] succeeds with secret 3 and reports the three
    points (1,4), (2,7), (3,12) as valid.  The share under the key "6" is in
    the record and would decode to 39, but the loop stops at i = n = 4: the
    validation report has no entry for the point (6,39). *)
Theorem example1_drops_share_6 (fuel : nat) :
  exists r v,
    solve (5 + fuel) exampleTestCase1 = Some (Normal r) /\
    success r = true /\ secret r = Some (of_Z 3) /\
    points r = Some example1_points /\
    validation r = Some v /\ isValid v = true /\
    map vr_point (results v) = example1_points /\
    tc_shares exampleTestCase1 !! "6"
      = Some {| share_base := "4"; share_value := "213" |} /\
    baseToDecimal "213" (parseInt1 "4") = Normal (of_Z 39) /\
    (of_Z 6, of_Z 39) ∉ map vr_point (results v).
Proof.
  do 2 eexists. split; [vm_compute; reflexivity|].
  repeat (split; [vm_compute; reflexivity|]).
  cbn [results]. intros H. vm_compute in H.
  repeat (apply elem_of_cons in H as [H|H]; [discriminate H|]).
  inversion H.
Qed.

(** ** Base decoding *)


(** In a radix that is not exact the number returned above 2^53 is the
    approximation the accumulation gives, which need not be the number
    nearest to the integer: in base 15 the string "89d49a0807a9be" denotes
    16852402726280954, which is a number, and [baseToDecimal] returns
    16852402726280956. *)
Lemma baseToDecimal_approximates :
  valid_digit_string 15 "89d49a0807a9be" = true /\
  positional_value 15 "89d49a0807a9be" = 16852402726280954 /\
  truncate (of_Z 16852402726280954) = 16852402726280954 /\
  exists y, baseToDecimal "89d49a0807a9be" (of_Z 15) = Normal y /\
            integral y = true /\ truncate y = 16852402726280956.
Proof.
  split; [reflexivity|]. split; [reflexivity|]. split; [reflexivity|].
  eexists. split; [vm_compute; reflexivity|]. split; reflexivity.
Qed.



(** C3, as the code behaves: [baseToDecimal] accepts strings that hold a
    character outside the digit set of the base.  In base 8 the string
    "129" is decoded to 10, the value of "12"; in base 10 the strings
    "12z", " 12" and "12 " are not valid digit strings, and each is decoded
    to 12 without an error: [parseInt] skips leading white space and stops
    at the first character that is not a digit. *)
Theorem baseToDecimal_accepts_invalid_digits :
  valid_digit_string 8 "129" = false /\
  baseToDecimal "129" (of_Z 8) = Normal (of_Z 10) /\
  valid_digit_string 10 "12z" = false /\
  valid_digit_string 10 " 12" = false /\
  valid_digit_string 10 "12 " = false /\
  baseToDecimal "12z" (of_Z 10) = Normal (of_Z 12) /\
  baseToDecimal " 12" (of_Z 10) = Normal (of_Z 12) /\
  baseToDecimal "12 " (of_Z 10) = Normal (of_Z 12).
Proof. repeat split; vm_compute; reflexivity. Qed.

(** ** Reconstruction *)

(** C4, as stated, fails on the points (1,4), (1,7) with k = 2: the two
    basis points share x = 1, and [lagrangeInterpolation] returns -Infinity
    without an error. *)
Lemma lagrangeInterpolation_duplicate_silent :
  lagrangeInterpolation [(of_Z 1, of_Z 4); (of_Z 1, of_Z 7)] (of_Z 2)
  = Normal (S754_infinity true).
Proof. vm_compute. reflexivity. Qed.

(** C4, amended: for every point sequence and threshold k with at least k
    points, if two of the selected points (the first k), of indices i <> j,
    share the same x ([xi == xj]), [lagrangeInterpolation] raises no error
    and returns NaN or an infinity. *)
Theorem lagrangeInterpolation_duplicate_x (points : list point) (k : number)
    (i j : nat) (xi yi xj yj : number) :
  lt (of_Z (Z.of_nat (length points))) k = false ->
  i <> j ->
  slice0 points k !! i = Some (xi, yi) ->
  slice0 points k !! j = Some (xj, yj) ->
  SFeqb xi xj = true ->
  exists r, lagrangeInterpolation points k = Normal r /\ is_finite r = false.
Proof.
  intros Hlen Hij Hi Hj Q. unfold lagrangeInterpolation. rewrite Hlen.
  eexists. split; [reflexivity|].
  rewrite round_non_finite; now apply (interpolate_at_dup _ _ i j xi yi xj yj).
Qed.

Lemma lagrangeInterpolation_duplicate_x_witness :
  exists r, lagrangeInterpolation [(of_Z 0, of_Z 4); (of_Z 0, of_Z 7)] (of_Z 2)
            = Normal r /\ is_finite r = false.
Proof.
  apply (lagrangeInterpolation_duplicate_x
           [(of_Z 0, of_Z 4); (of_Z 0, of_Z 7)] (of_Z 2) 0 1
           (of_Z 0) (of_Z 4) (of_Z 0) (of_Z 7));
    [reflexivity | lia | reflexivity | reflexivity | reflexivity].
Defined.

(** C5, as stated, fails on the points (1,1), (3,2) with k = 2: the
    interpolation at 0 is 1/2, which is not integral, and
    [lagrangeInterpolation] returns 1 without an error. *)
Lemma lagrangeInterpolation_rounds_half :
  interpolate_at (slice0 [(of_Z 1, of_Z 1); (of_Z 3, of_Z 2)] (of_Z 2)) zero
  = S754_finite false 4503599627370496 (-53) /\
  integral (S754_finite false 4503599627370496 (-53)) = false /\
  lagrangeInterpolation [(of_Z 1, of_Z 1); (of_Z 3, of_Z 2)] (of_Z 2)
  = Normal (of_Z 1).
Proof. repeat split; vm_compute; reflexivity. Qed.

(** C5, amended: for every point sequence and threshold k with at least k
    points, reconstruction reports no error: it returns [Math.round] of the
    interpolated sum, which is integral whenever it is finite, also when
    the sum itself is not integral. *)
Theorem lagrangeInterpolation_rounds (points : list point) (k : number) :
  lt (of_Z (Z.of_nat (length points))) k = false ->
  exists r, lagrangeInterpolation points k = Normal r /\
            r = round (interpolate_at (slice0 points k) zero) /\
            (is_finite r = true -> integral r = true).
Proof.
  intros Hlen. unfold lagrangeInterpolation. rewrite Hlen.
  eexists. split; [reflexivity|]. split; [reflexivity|]. apply round_class.
Qed.

Lemma lagrangeInterpolation_rounds_witness :
  exists r, lagrangeInterpolation [(of_Z 1, of_Z 1); (of_Z 3, of_Z 2)] (of_Z 2)
            = Normal r /\
            r = round (interpolate_at
                         (slice0 [(of_Z 1, of_Z 1); (of_Z 3, of_Z 2)] (of_Z 2)) zero) /\
            (is_finite r = true -> integral r = true).
Proof.
  apply (lagrangeInterpolation_rounds [(of_Z 1, of_Z 1); (of_Z 3, of_Z 2)] (of_Z 2)).
  reflexivity.
Defined.

(** C7: for every non-empty sequence of points whose first point has an
    integral y, reconstruction with k = 1 returns a number equal to that y;
    it is y itself unless y is the negative zero, for which it is the
    positive zero.  (Every decoded share has such a y, or an infinite one,
    which is returned as well: [lagrange_single_decoded].) *)
Theorem lagrangeInterpolation_k1 (x y : number) (rest : list point) :
  valid_binary prec emax y = true -> integral y = true ->
  exists r, lagrangeInterpolation ((x, y) :: rest) one = Normal r /\
            SFeqb r y = true /\
            (y <> S754_zero true -> r = y).
Proof.
  intros Hv Hi. rewrite lagrange_single. eexists. split; [reflexivity|].
  apply single_term; auto.
Qed.

Lemma lagrangeInterpolation_k1_witness :
  exists r, lagrangeInterpolation [(of_Z 6, of_Z 39); (of_Z 1, of_Z 4)] one = Normal r /\
            SFeqb r (of_Z 39) = true /\
            (of_Z 39 <> S754_zero true -> r = of_Z 39).
Proof.
  apply (lagrangeInterpolation_k1 (of_Z 6) (of_Z 39) [(of_Z 1, of_Z 4)]);
    reflexivity.
Defined.

(** ** The solve boundary *)

(** C6, as stated, fails on the record with keys n = 2^53, k = 1 and no
    share: the loop counter reaches 2^53 and stays there, so [solve] does
    not return, whatever the fuel, and neither does a batch that holds the
    record. *)
Lemma solve_endless :
  (~ exists fuel r, solve fuel endlessTestCase = Some r) /\
  (~ exists fuel r,
       solveMultiple fuel [exampleTestCase1; endlessTestCase] = Some r).
Proof.
  split; intros (fuel & r & H); pose proof (endless_diverges fuel) as E.
  - congruence.
  - unfold solveMultiple in H. cbn [solveMultiple_from] in H. rewrite E in H.
    destruct (solve fuel exampleTestCase1) as [[r1|e]|] eqn:S; try discriminate.
    now apply solve_never_throws in S.
Qed.

(** C6, amended: [solve] never throws, and a result it returns has the
    success shape or is the failure record of the error that was raised.
    For every sequence of N input records whose scanning loop is bounded
    (keys rejected by the guard, or n below 2^53), [solveMultiple] returns,
    given enough fuel, exactly N results in input order, each tagged with
    its index and equal to the result of [solve] on that record alone. *)
Theorem solveMultiple_bounded (testCases : list test_case) :
  Forall (fun tc => scan_bounded tc = true) testCases ->
  (forall fuel tc e, solve fuel tc <> Some (Throw e)) /\
  (forall fuel tc e, parseTestCase fuel tc = Some (Throw e) ->
     solve fuel tc = Some (Normal (failure e))) /\
  (forall fuel tc r, solve fuel tc = Some (Normal r) ->
     success_shape r \/ exists e, r = failure e) /\
  forall fuel, (enough_fuel <= fuel)%nat ->
    exists rs,
      solveMultiple fuel testCases = Some (Normal rs) /\
      length rs = length testCases /\
      forall i tc, testCases !! i = Some tc ->
        exists r, rs !! i = Some (i, r) /\ solve fuel tc = Some (Normal r).
Proof.
  intros B. split; [exact solve_never_throws|].
  split; [exact solve_parse_throw|]. split; [exact solve_shape|].
  intros fuel Hf. apply (solveMultiple_from_spec fuel 0 testCases).
  eapply Forall_impl; [exact B|]. intros tc Htc. now apply solve_terminates.
Qed.

Lemma solveMultiple_bounded_witness :
  exists rs,
    solveMultiple enough_fuel [exampleTestCase1; malformedTestCase; exampleTestCase1]
    = Some (Normal rs) /\
    length rs = 3%nat.
Proof.
  destruct (solveMultiple_bounded
              [exampleTestCase1; malformedTestCase; exampleTestCase1])
    as (_ & _ & _ & H).
  - repeat constructor.
  - destruct (H enough_fuel (le_n _)) as (rs & E & L & _).
    exists rs. split; assumption.
Defined.

(** ** The scanning loop *)

(** C8: [parseTestCase] scans the keys "1" to [keys.n] only.  Every point it
    produces has for x an integer index between 1 and [keys.n] whose key is
    in the record; and an entry whose index exceeds [keys.n] is ignored:
    putting any entry, decodable or not, under such a key changes neither
    the outcome of [parseTestCase] nor the result of [solve]. *)
Theorem parseTestCase_scans_up_to_n (fuel : nat) (testCase : test_case) (n : number) :
  declared_n testCase = Some n ->
  (forall ps, parseTestCase fuel testCase = Some (Normal ps) ->
     Forall (fun p : point => exists w,
               1 <= w /\ p.1 = of_Z w /\ le one p.1 = true /\ le p.1 n = true /\
               is_Some (tc_shares testCase !! pretty w))
            (p_points ps)) /\
  (forall j entry, lt n (of_Z j) = true ->
     parseTestCase fuel (with_share testCase (pretty j) entry)
     = parseTestCase fuel testCase /\
     solve fuel (with_share testCase (pretty j) entry) = solve fuel testCase).
Proof.
  intros Hn. split.
  - intros ps H. apply parse_keys in H as (_ & Hn' & _ & S).
    rewrite Hn in Hn'. injection Hn' as ->.
    change one with (of_Z 1) in S.
    apply scan_points in S as (new & E & F & _); [|unfold two53; lia].
    cbn [app] in E. rewrite E. eapply Forall_impl; [exact F|].
    intros p (w & entry & Hw & Ep & L & Hl & _). exists w. rewrite Ep.
    repeat split; try assumption; try lia.
    + apply le_one_of_Z. lia.
    + rewrite Hl. eauto.
  - intros j entry Hj.
    assert (P : parseTestCase fuel (with_share testCase (pretty j) entry)
                = parseTestCase fuel testCase).
    { unfold parseTestCase.
      change (missing_keys (with_share testCase (pretty j) entry))
        with (missing_keys testCase).
      change (declared_n (with_share testCase (pretty j) entry))
        with (declared_n testCase).
      change (declared_k (with_share testCase (pretty j) entry))
        with (declared_k testCase).
      change (tc_shares (with_share testCase (pretty j) entry))
        with (<[pretty j:=entry]> (tc_shares testCase)).
      rewrite Hn. destruct (missing_keys testCase); [reflexivity|].
      destruct (declared_k testCase) as [k|]; [|reflexivity].
      change one with (of_Z 1).
      rewrite (scan_ext fuel (<[pretty j:=entry]> (tc_shares testCase))
                 (tc_shares testCase) n 1 []); [reflexivity | unfold two53; lia |].
      intros w Hw L. apply lookup_insert_ne. intros E.
      apply (inj pretty) in E. subst w.
      pose proof (le_lt_trans _ _ _ L Hj) as C. now rewrite lt_irrefl in C. }
    split; [exact P|]. unfold solve. now rewrite P.
Qed.

Lemma parseTestCase_scans_up_to_n_witness :
  solve 5 (with_share exampleTestCase1 (pretty 6)
             {| share_base := "10"; share_value := "not a number" |})
  = solve 5 exampleTestCase1.
Proof.
  apply (parseTestCase_scans_up_to_n 5 exampleTestCase1 (of_Z 4)); reflexivity.
Defined.

(** ** Validation *)

(** C9: the report of [validateSolution] does not depend on its [secret]
    argument: for the same points and k, any two secrets give the same
    report. *)
Theorem validateSolution_ignores_secret (points : list point)
    (secret1 secret2 k : number) :
  validateSolution points secret1 k = validateSolution points secret2 k.
Proof. reflexivity. Qed.

(** ** The guard on the keys *)

(** C10, as stated, fails on the record with n = 1, k = -1 and the share
    1 -> ("10", "5"): [solve] succeeds, with secret 0, and reports k = -1,
    which is not at least 1. *)
Lemma solve_negative_threshold :
  exists r p,
    solve 2 negativeThreshold = Some (Normal r) /\
    success r = true /\ secret r = Some zero /\
    params r = Some p /\ par_k p = of_Z (-1) /\ le one (par_k p) = false.
Proof. do 2 eexists. repeat split; vm_compute; reflexivity. Qed.

(** C10, amended: a record whose [keys], [keys.n] or [keys.k] is absent or
    falsy (0, -0 or NaN) gets the failure record with the malformed-test-case
    message; consequently, in every successful result of [solve] the
    reported k is the declared one and is not falsy. *)
Theorem solve_rejects_falsy_keys (fuel : nat) (testCase : test_case) :
  (missing_keys testCase = true ->
   solve fuel testCase = Some (Normal (failure MissingKeys))) /\
  (forall r, solve fuel testCase = Some (Normal r) -> success r = true ->
     missing_keys testCase = false /\
     exists p, params r = Some p /\ declared_k testCase = Some (par_k p) /\
               falsy (par_k p) = false).
Proof.
  split.
  - intros M. apply solve_parse_throw. now apply missing_keys_throw.
  - intros r H S. unfold solve in H.
    destruct (parseTestCase fuel testCase) as [[ps|e]|] eqn:P; try discriminate.
    2:{ cbn in H. injection H as <-. discriminate. }
    pose proof (parse_keys _ _ _ P) as (M & _ & K & _). split; [exact M|].
    destruct ps as [pts n k]. cbn [bind try_catch] in H.
    destruct (lagrangeInterpolation pts k); cbn [bind try_catch] in H;
      injection H as <-; [|discriminate].
    eexists. split; [reflexivity|]. cbn [par_k p_k] in *. split; [exact K|].
    unfold missing_keys, declared_k in *.
    destruct (tc_keys testCase) as [[n' k']|]; [|discriminate].
    cbn in K. subst k'. cbn [keys_k not_number] in M.
    apply orb_false_iff in M as [_ M]. exact M.
Qed.

Lemma solve_rejects_falsy_keys_witness :
  solve 0 malformedTestCase = Some (Normal (failure MissingKeys)).
Proof.
  apply (proj1 (solve_rejects_falsy_keys 0 malformedTestCase)). reflexivity.
Defined.

(** * Further properties of the code

    Properties of the class read off the source, beyond the statements
    above: error and edge behaviour, invariants, and how the methods
    compose. *)

Module OrderFacts.
Import Num NumFacts ScanFacts.

Lemma lt_le a b : lt a b = true -> le a b = true.
Proof.
  rewrite lt_rank, le_rank. intros (Ha & Hb & L). auto.
Qed.

Lemma lt_not_le a b : lt a b = true -> le b a = false.
Proof.
  intros H. destruct (le b a) eqn:E; [|reflexivity].
  pose proof (le_lt_trans _ _ _ E H) as C. now rewrite lt_irrefl in C.
Qed.

Lemma le_refl_of_Z z : le (of_Z z) (of_Z z) = true.
Proof.
  apply le_rank. pose proof (of_Z_not_NaN z). auto.
Qed.

Lemma digits2_mono p q :
  (p <= q)%positive -> Zpos (digits2_pos p) <= Zpos (digits2_pos q).
Proof.
  intros H. pose proof (digits2_lower p) as Lp. pose proof (digits2_upper q) as Uq.
  destruct (Z_le_gt_dec (Zpos (digits2_pos p)) (Zpos (digits2_pos q))) as [|G];
    [assumption|exfalso].
  assert (2 ^ Zpos (digits2_pos q) <= 2 ^ (Zpos (digits2_pos p) - 1))
    by (apply Z.pow_le_mono_r; lia).
  lia.
Qed.

(** An integer above 2^53 is converted to +Infinity or to a number with a
    positive exponent. *)
Lemma of_Z_big b :
  two53 < b ->
  of_Z b = S754_infinity false \/
  exists m e, of_Z b = S754_finite false m e /\ 1 <= e /\ 2 ^ 52 <= Zpos m.
Proof.
  intros Hb. unfold two53 in Hb. destruct b as [|p|p]; try lia.
  pose proof (valid_of_Z (Zpos p)) as V.
  assert (D : 53 < Zpos (digits2_pos p)).
  { pose proof (digits2_upper p) as U.
    destruct (Z_le_gt_dec (Zpos (digits2_pos p)) 53) as [L|G]; [|lia].
    exfalso. assert (2 ^ Zpos (digits2_pos p) <= 2 ^ 53)
      by (apply Z.pow_le_mono_r; lia). lia. }
  revert V. unfold of_Z, binary_normalize, binary_round, shl_align.
  assert (F : fexp prec emax (Zpos (digits2_pos p) + 0) - 0
              = Zpos (digits2_pos p) - 53).
  { unfold fexp, emin, prec, emax. lia. }
  rewrite F. destruct (Zpos (digits2_pos p) - 53) as [|k|k] eqn:K; try lia.
  unfold binary_round_aux.
  assert (S1 : shr_fexp prec emax (Zpos p) 0 loc_Exact
               = (SpecFloat.iter_pos shr_1 k (shr_record_of_loc (Zpos p) loc_Exact), Zpos k)).
  { unfold shr_fexp. cbn [Zdigits2]. rewrite F. reflexivity. }
  rewrite S1.
  set (r1 := SpecFloat.iter_pos shr_1 k _).
  assert (M1 : 0 < shr_m r1).
  { pose proof (shr_fexp_pos (Zpos p) 0 loc_Exact ltac:(lia) ltac:(lia)) as [P _].
    rewrite S1 in P. exact P. }
  pose proof (round_nearest_even_ge (shr_m r1) (loc_of_shr_record r1)) as G.
  match goal with |- context [shr_fexp _ _ ?m' ?e' ?l'] =>
    pose proof (shr_fexp_pos m' e' l' ltac:(lia) ltac:(lia)) as [M2 E2];
    destruct (shr_fexp prec emax m' e' l') as [r2 e2] end.
  cbn [fst snd] in *. destruct (shr_m r2) as [|q|q]; try lia.
  destruct (e2 <=? emax - prec); [|now left].
  intros V. right. exists q, e2. split; [reflexivity|]. split; [lia|].
  cbn [valid_binary] in V. unfold bounded, canonical_mantissa in V.
  apply andb_true_iff in V as [C _]. apply Z.eqb_eq in C.
  unfold fexp, emin, prec, emax in C.
  assert (Dq : Zpos (digits2_pos q) = 53) by lia.
  pose proof (digits2_lower q) as Lq. rewrite Dq in Lq. exact Lq.
Qed.

(** The conversion of integers is strictly increasing below 2^53. *)
Lemma lt_of_Z a b :
  0 <= a < b -> a < two53 -> lt (of_Z a) (of_Z b) = true.
Proof.
  intros Hab Ha.
  destruct (Z_le_gt_dec b two53) as [Sb|Bb].
  - (* both small *)
    destruct (Z.eq_dec a 0) as [->|Na].
    + destruct (of_Z_small_form b ltac:(lia)) as (m & e & ->). reflexivity.
    + destruct (Z.eq_dec b two53) as [->|Nb].
      * apply lt_rank. rewrite !of_Z_not_NaN. repeat split.
        unfold two53 in Hab, Ha. destruct a as [|p|p]; try lia.
        unfold of_Z at 1. unfold binary_normalize.
        rewrite of_Z_pos_form by (apply digits2_le_53; lia).
        rewrite of_Z_two53. cbn [rank lex_lt]. right. split; [reflexivity|].
        left. pose proof (pad_le_52 p). lia.
      * unfold two53 in Hab, Ha, Sb, Nb.
        destruct a as [|p|p]; try lia. destruct b as [|q|q]; try lia.
        apply lt_rank. rewrite !of_Z_not_NaN. repeat split.
        unfold of_Z, binary_normalize.
        rewrite !of_Z_pos_form by (apply digits2_le_53; lia).
        cbn [rank lex_lt]. right. split; [reflexivity|].
        pose proof (digits2_mono p q ltac:(lia)) as M.
        pose proof (digits2_le_53 q ltac:(lia)) as Dq.
        pose proof (Pos2Z.is_pos (digits2_pos p)) as Dp.
        unfold pad. rewrite !Z2N.id by lia.
        destruct (Z.eq_dec (Zpos (digits2_pos p)) (Zpos (digits2_pos q))) as [E|N];
          [right|left; lia].
        split; [lia|]. rewrite !shiftl_Z, !Z2N.id by lia. rewrite E.
        apply Z.mul_lt_mono_pos_r; [apply Z.pow_pos_nonneg|]; lia.
  - destruct (of_Z_big b ltac:(lia)) as [Eb|(m & e & Eb & He & _)]; rewrite Eb.
    + destruct (Z.eq_dec a 0) as [->|Na]; [reflexivity|].
      destruct (of_Z_small_form a ltac:(lia)) as (ma & ea & ->). reflexivity.
    + destruct (Z.eq_dec a 0) as [->|Na]; [reflexivity|].
      apply lt_rank. rewrite of_Z_not_NaN. repeat split.
      unfold two53 in Hab, Ha. destruct a as [|p|p]; try lia.
      unfold of_Z, binary_normalize.
      rewrite of_Z_pos_form by (apply digits2_le_53; lia).
      cbn [rank lex_lt]. right. split; [reflexivity|]. left. lia.
Qed.

(** The conversion of integers is increasing from any integer up to 2^53. *)
Lemma le_of_Z a b :
  0 <= a <= b -> a <= two53 -> le (of_Z a) (of_Z b) = true.
Proof.
  intros Hab Ha.
  destruct (Z.eq_dec a b) as [->|N]; [apply le_refl_of_Z|].
  destruct (Z.eq_dec a two53) as [->|Na]; [|apply lt_le, lt_of_Z; lia].
  destruct (of_Z_big b ltac:(lia)) as [Eb|(m & e & Eb & He & Hm)]; rewrite Eb.
  - reflexivity.
  - rewrite of_Z_two53. apply le_rank. repeat split. cbn [rank lex_lt].
    destruct (Z.eq_dec e 1) as [->|]; [|left; right; split; [reflexivity|left; lia]].
    destruct (Z.eq_dec (Zpos m) 4503599627370496) as [E|];
      [right; now rewrite E|left].
    right. split; [reflexivity|]. right. split; [reflexivity|].
    change (2 ^ 52) with 4503599627370496 in Hm. lia.
Qed.

End OrderFacts.

Module ParseFacts.
Import Num NumFacts ParseInt DecodeFacts OrderFacts.

(** Negative integers are converted to negative numbers. *)
Lemma of_Z_neg_class p :
  (exists m e, of_Z (Zneg p) = S754_finite true m e) \/
  of_Z (Zneg p) = S754_infinity true.
Proof.
  unfold of_Z, binary_normalize.
  destruct (Z_le_gt_dec (Zpos (digits2_pos p)) 53) as [L|G].
  - left. rewrite of_Z_pos_form by assumption. eauto.
  - unfold binary_round, shl_align.
    assert (F : fexp prec emax (Zpos (digits2_pos p) + 0) - 0
                = Zpos (digits2_pos p) - 53).
    { unfold fexp, emin, prec, emax. lia. }
    rewrite F. destruct (Zpos (digits2_pos p) - 53) eqn:E; try lia.
    destruct (binary_round_aux_pos true (Zpos p) 0 loc_Exact) as [(m & e & R & _)|R];
      try lia; rewrite R; eauto.
Qed.

Lemma lt_of_Z_neg p x :
  match x with S754_finite false _ _ => True | _ => False end ->
  lt (of_Z (Zneg p)) x = true.
Proof.
  destruct x as [| | |[] m e]; try contradiction. intros _.
  destruct (of_Z_neg_class p) as [(m' & e' & ->)| ->]; reflexivity.
Qed.

(** An integer base outside [2,36] fails the guard of [baseToDecimal]. *)
Lemma base_guard_fails b :
  b < 2 \/ 36 < b -> lt (of_Z b) two || gt (of_Z b) thirty_six = true.
Proof.
  intros [L|G].
  - apply orb_true_iff. left. destruct b as [|p|p].
    + reflexivity.
    + assert (p = 1%positive) as -> by lia. reflexivity.
    + now apply lt_of_Z_neg.
  - apply orb_true_iff. right. unfold gt, thirty_six, SFltb.
    apply (lt_of_Z 36 b); unfold two53; lia.
Qed.

Lemma trim_start_id c s : is_white_space c = false -> trim_start (String c s) = String c s.
Proof. intros H. cbn [trim_start]. now rewrite H. Qed.

Lemma strip_sign_other c s :
  Ascii.eqb c "+" = false -> Ascii.eqb c "-" = false ->
  strip_sign (String c s) = (false, String c s).
Proof.
  intros P M. apply Ascii.eqb_neq in P, M.
  destruct c as [[] [] [] [] [] [] [] []]; try reflexivity; congruence.
Qed.

Lemma strip_hex_prefix_zero s s' :
  strip_hex_prefix s = Some s' -> exists t, s = String "0" t.
Proof.
  destruct s as [|c t]; [discriminate|].
  destruct c as [[] [] [] [] [] [] [] []]; try discriminate. eauto.
Qed.

(** A string with no leading digit is not a number for [parseInt]. *)
Lemma parse_no_leading_digit b s :
  2 <= b <= 36 -> no_leading_digit b s = true -> parse s b = S754_nan.
Proof.
  intros Hb H. unfold parse.
  replace (b =? 0) with false by (symmetry; apply Z.eqb_neq; lia).
  replace (b <? 2) with false by (symmetry; apply Z.ltb_ge; lia).
  replace (36 <? b) with false by (symmetry; apply Z.ltb_ge; lia).
  cbn [negb andb orb].
  destruct s as [|c s]; [cbn; now destruct (b =? 16)|].
  cbn [no_leading_digit] in H. rewrite !andb_true_iff, !negb_true_iff in H.
  destruct H as [[[W P] M] D].
  rewrite trim_start_id, strip_sign_other by assumption.
  assert (X : (if b =? 16 then strip_hex_prefix (String c s) else None) = None).
  { destruct (b =? 16) eqn:E; [|reflexivity].
    destruct (strip_hex_prefix (String c s)) eqn:X; [|reflexivity].
    apply strip_hex_prefix_zero in X as [t [= -> ->]].
    apply Z.eqb_eq in E. subst b. discriminate. }
  rewrite X. cbn [digit_prefix]. destruct (radix_digit b c); [discriminate|reflexivity].
Qed.

(** Upper case does not change what [parseInt] reads. *)
Lemma upper_char_digit c : digit_value (upper_char c) = digit_value c.
Proof. destruct c as [[] [] [] [] [] [] [] []]; reflexivity. Qed.

Lemma upper_char_space c : is_white_space (upper_char c) = is_white_space c.
Proof. destruct c as [[] [] [] [] [] [] [] []]; reflexivity. Qed.

Lemma trim_start_upper s : trim_start (upper s) = upper (trim_start s).
Proof.
  induction s as [|c s IH]; [reflexivity|]. cbn [upper trim_start].
  rewrite upper_char_space. destruct (is_white_space c); [exact IH|reflexivity].
Qed.

Lemma strip_sign_upper s :
  strip_sign (upper s) = ((strip_sign s).1, upper (strip_sign s).2).
Proof.
  destruct s as [|c s]; [reflexivity|].
  destruct c as [[] [] [] [] [] [] [] []]; reflexivity.
Qed.

Lemma strip_hex_prefix_upper s :
  strip_hex_prefix (upper s) = option_map upper (strip_hex_prefix s).
Proof.
  destruct s as [|c1 s]; [reflexivity|].
  destruct c1 as [[] [] [] [] [] [] [] []]; try reflexivity.
  destruct s as [|c2 s]; [reflexivity|].
  destruct c2 as [[] [] [] [] [] [] [] []]; reflexivity.
Qed.

Lemma digit_prefix_upper R s : digit_prefix R (upper s) = digit_prefix R s.
Proof.
  induction s as [|c s IH]; [reflexivity|]. cbn [upper digit_prefix].
  unfold radix_digit. rewrite upper_char_digit, IH. reflexivity.
Qed.

Lemma parse_upper s R : parse (upper s) R = parse s R.
Proof.
  unfold parse. rewrite trim_start_upper, strip_sign_upper.
  destruct (strip_sign (trim_start s)) as [negative str]. cbn [fst snd].
  destruct (negb (R =? 0) && ((R <? 2) || (36 <? R))); [reflexivity|].
  destruct ((R =? 0) || (R =? 16)).
  - rewrite strip_hex_prefix_upper.
    destruct (strip_hex_prefix str) as [str'|]; cbn [option_map];
      now rewrite digit_prefix_upper.
  - now rewrite digit_prefix_upper.
Qed.

(** *** Digits valid in a base *)

Lemma all_digits_mono b b' s :
  b <= b' -> all_digits b s = true -> all_digits b' s = true.
Proof.
  intros Hb. induction s as [|c s IH]; [reflexivity|]. cbn [all_digits].
  rewrite !andb_true_iff. intros [Hc Hs]. split; [|auto].
  destruct (digit_value c); [|discriminate]. apply Z.ltb_lt in Hc. apply Z.ltb_lt. lia.
Qed.

Lemma strip_hex_prefix_digits b s :
  b <= 16 -> all_digits b s = true -> strip_hex_prefix s = None.
Proof.
  intros Hb H. destruct (strip_hex_prefix s) eqn:X; [|reflexivity].
  apply hex_prefix_not_digits in X.
  now rewrite (all_digits_mono b 16 s Hb H) in X.
Qed.

(** With the radix 0 (an absent or NaN radix) a string of decimal digits is
    read in base 10. *)
Lemma parse_radix0 s :
  valid_digit_string 10 s = true -> parse s 0 = of_Z (positional_value 10 s).
Proof.
  intros Hv. destruct s as [|c s]; [discriminate|]. cbn [valid_digit_string] in Hv.
  pose proof Hv as Hall. cbn [all_digits] in Hv. apply andb_true_iff in Hv as [Hc Hs].
  destruct (digit_value c) as [d|] eqn:Ed; [|discriminate].
  unfold parse. cbn [trim_start].
  rewrite (proj1 (digit_not_space c d Ed)), (strip_sign_digit c d s Ed).
  cbn [Z.eqb negb andb orb].
  rewrite (strip_hex_prefix_digits 10 _ ltac:(lia) Hall).
  destruct (digit_prefix_all 10 _ Hall) as [L V].
  pose proof (digit_prefix_in_radix 10 (String c s)) as IR.
  destruct (digit_prefix 10 (String c s)) as [|d0 ds] eqn:DP; [discriminate|].
  rewrite to_number_exact, V by (lia || assumption || (left; reflexivity)).
  destruct (positional_value 10 (String c s) =? 0) eqn:Z0.
  - apply Z.eqb_eq in Z0. now rewrite Z0.
  - reflexivity.
Qed.

Lemma parse_radix0_no_digit s :
  no_leading_digit 10 s = true -> parse s 0 = S754_nan.
Proof.
  intros H. unfold parse. cbn [Z.eqb negb andb orb].
  destruct s as [|c s]; [reflexivity|].
  cbn [no_leading_digit] in H. rewrite !andb_true_iff, !negb_true_iff in H.
  destruct H as [[[W P] M] D].
  rewrite trim_start_id, strip_sign_other by assumption.
  assert (X : strip_hex_prefix (String c s) = None).
  { destruct (strip_hex_prefix (String c s)) eqn:X; [|reflexivity].
    apply strip_hex_prefix_zero in X as [t [= -> ->]]. discriminate. }
  rewrite X. cbn [digit_prefix]. destruct (radix_digit 10 c); [discriminate|reflexivity].
Qed.

(** *** Signs and what follows the digits *)

Lemma parse_negative b s :
  2 <= b <= 36 -> valid_digit_string b s = true ->
  parse (String "-" s) b = opp (parse s b).
Proof.
  intros Hb Hv. rewrite (proj1 (parse_valid_digits b s Hb Hv)).
  destruct s as [|c s]; [discriminate|]. cbn [valid_digit_string] in Hv.
  pose proof Hv as Hall. cbn [all_digits] in Hv. apply andb_true_iff in Hv as [Hc Hs].
  unfold parse.
  change (strip_sign (trim_start (String "-" (String c s)))) with (true, String c s).
  replace (b =? 0) with false by (symmetry; apply Z.eqb_neq; lia).
  replace (b <? 2) with false by (symmetry; apply Z.ltb_ge; lia).
  replace (36 <? b) with false by (symmetry; apply Z.ltb_ge; lia).
  cbn [negb andb orb].
  assert (P : (if b =? 16 then strip_hex_prefix (String c s) else None) = None).
  { destruct (b =? 16) eqn:E16; [|reflexivity]. apply Z.eqb_eq in E16. subst b.
    now apply (strip_hex_prefix_digits 16). }
  rewrite P. destruct (digit_prefix_all b _ Hall) as [L V].
  pose proof (digit_prefix_in_radix b (String c s)) as IR.
  destruct (digit_prefix b (String c s)) as [|d0 ds] eqn:DP; [discriminate|].
  now apply to_number_opp.
Qed.

Lemma digit_prefix_app b s junk :
  all_digits b s = true ->
  match junk with
  | EmptyString => True
  | String c _ => radix_digit b c = None
  end ->
  digit_prefix b (s ++ junk) = digit_prefix b s.
Proof.
  intros Hs Hj. induction s as [|c s IH].
  - destruct junk as [|c j]; [reflexivity|].
    change ("" ++ String c j)%string with (String c j).
    cbn [digit_prefix]. now rewrite Hj.
  - cbn [all_digits] in Hs. apply andb_true_iff in Hs as [Hc Hs].
    change (String c s ++ junk)%string with (String c (s ++ junk)).
    cbn [digit_prefix]. destruct (radix_digit b c); [|reflexivity].
    now rewrite IH.
Qed.

Lemma parse_prefix b s junk :
  2 <= b <= 36 -> valid_digit_string b s = true ->
  match junk with
  | EmptyString => True
  | String c _ => radix_digit b c = None
  end ->
  (b = 16 -> strip_hex_prefix (s ++ junk) = None) ->
  parse (s ++ junk) b = parse s b.
Proof.
  intros Hb Hv Hj Hx. rewrite (proj1 (parse_valid_digits b s Hb Hv)).
  destruct s as [|c s]; [discriminate|]. cbn [valid_digit_string] in Hv.
  pose proof Hv as Hall. cbn [all_digits] in Hv. apply andb_true_iff in Hv as [Hc Hs].
  destruct (digit_value c) as [d|] eqn:Ed; [|discriminate].
  unfold parse. change (String c s ++ junk)%string with (String c (s ++ junk)).
  cbn [trim_start].
  rewrite (proj1 (digit_not_space c d Ed)), (strip_sign_digit c d _ Ed).
  replace (b =? 0) with false by (symmetry; apply Z.eqb_neq; lia).
  replace (b <? 2) with false by (symmetry; apply Z.ltb_ge; lia).
  replace (36 <? b) with false by (symmetry; apply Z.ltb_ge; lia).
  cbn [negb andb orb].
  assert (P : (if b =? 16 then strip_hex_prefix (String c (s ++ junk)) else None) = None).
  { destruct (b =? 16) eqn:E16; [|reflexivity]. apply Z.eqb_eq in E16.
    apply (Hx E16). }
  rewrite P. change (String c (s ++ junk)) with (String c s ++ junk)%string.
  rewrite (digit_prefix_app b (String c s) junk Hall Hj).
  destruct (digit_prefix_all b _ Hall) as [L V].
  now destruct (digit_prefix b (String c s)) as [|d0 ds] eqn:DP.
Qed.

End ParseFacts.

Module SliceFacts.
Import Num NumFacts ScanFacts OrderFacts.

Lemma of_Z_not_infinite z :
  0 <= z <= two53 -> ToIntegerOrInfinity (of_Z z) = Fin z.
Proof.
  intros Hz. pose proof (truncate_of_Z z ltac:(lia)) as T.
  destruct (Z.eq_dec z 0) as [->|N]; [reflexivity|].
  destruct (of_Z_small_form z ltac:(lia)) as (m & e & E).
  rewrite E in *. cbn [ToIntegerOrInfinity]. now rewrite T.
Qed.

(** [slice(0, k)] for an integer [k] between 0 and 2^53 keeps the first [k]
    elements. *)
Lemma slice0_of_Z {A} (l : list A) k :
  0 <= k <= two53 -> slice0 l (of_Z k) = take (Z.to_nat k) l.
Proof.
  intros Hk. unfold slice0. rewrite of_Z_not_infinite by assumption.
  replace (k <? 0) with false by (symmetry; apply Z.ltb_ge; lia).
  destruct (Z_le_gt_dec k (Z.of_nat (length l))) as [L|G].
  - now rewrite Z.min_l.
  - rewrite Z.min_r, Nat2Z.id by lia. rewrite !take_ge; (reflexivity || lia).
Qed.

Lemma slice0_app {A} (l extra : list A) k :
  0 <= k <= Z.of_nat (length l) -> k <= two53 ->
  slice0 (l ++ extra) (of_Z k) = slice0 l (of_Z k).
Proof.
  intros Hk H53. rewrite !slice0_of_Z by lia. apply take_app_le. lia.
Qed.

(** The guard [points.length < k] for integers. *)
Lemma length_guard_passes {A} (l : list A) k :
  0 <= k <= Z.of_nat (length l) -> k <= two53 ->
  lt (of_Z (Z.of_nat (length l))) (of_Z k) = false.
Proof. intros Hk H53. apply le_not_lt, le_of_Z; lia. Qed.

Lemma length_guard_fails {A} (l : list A) k :
  Z.of_nat (length l) < k -> Z.of_nat (length l) < two53 ->
  lt (of_Z (Z.of_nat (length l))) (of_Z k) = true.
Proof. intros Hk H53. apply lt_of_Z; lia. Qed.

End SliceFacts.

Import OrderFacts ParseFacts SliceFacts.

(** * Further properties of the code *)

(** ** [baseToDecimal] *)

(** X1: for every integer base below 2 or above 36, [baseToDecimal] throws
    the invalid-base error, whatever the value string. *)
Theorem baseToDecimal_rejects_base (value : string) (b : Z) :
  b < 2 \/ 36 < b ->
  baseToDecimal value (of_Z b) = Throw (InvalidBase (of_Z b)).
Proof.
  intros Hb. unfold baseToDecimal. now rewrite base_guard_fails.
Qed.

Lemma baseToDecimal_rejects_base_witness :
  baseToDecimal "10" (of_Z 37) = Throw (InvalidBase (of_Z 37)).
Proof. apply (baseToDecimal_rejects_base "10" 37). right. lia. Defined.

(** X2: for every base in [2,36], a value string that is empty, or whose
    first character is neither white space, a sign nor a digit of the base,
    makes [baseToDecimal] throw the invalid-value error. *)
Theorem baseToDecimal_rejects_no_digit (b : Z) (s : string) :
  2 <= b <= 36 -> no_leading_digit b s = true ->
  baseToDecimal s (of_Z b) = Throw (InvalidValue s (of_Z b)).
Proof.
  intros Hb H. pose proof (bases_pass b Hb) as B. unfold base_passes in B.
  apply andb_true_iff in B as [G T]. apply negb_true_iff in G. apply Z.eqb_eq in T.
  unfold baseToDecimal, parseInt. rewrite G, T, parse_no_leading_digit by assumption.
  reflexivity.
Qed.

Lemma baseToDecimal_rejects_no_digit_witness :
  baseToDecimal "" (of_Z 10) = Throw (InvalidValue "" (of_Z 10)) /\
  baseToDecimal "9" (of_Z 8) = Throw (InvalidValue "9" (of_Z 8)).
Proof.
  split.
  - apply (baseToDecimal_rejects_no_digit 10 ""); [lia|reflexivity].
  - apply (baseToDecimal_rejects_no_digit 8 "9"); [lia|reflexivity].
Defined.

(** X3: a share whose [base] string does not start with a decimal digit
    (nor with white space or a sign) is not rejected: [parseInt] makes NaN of
    the base, NaN passes the range check, and a value made of decimal digits
    is decoded in base 10. *)
Theorem decode_entry_non_numeric_base (base value : string) :
  no_leading_digit 10 base = true -> valid_digit_string 10 value = true ->
  decode_entry {| share_base := base; share_value := value |}
  = Normal (of_Z (positional_value 10 value)).
Proof.
  intros Hb Hv. unfold decode_entry, parseInt1. cbn [share_base share_value].
  rewrite parse_radix0_no_digit by assumption.
  unfold baseToDecimal, parseInt.
  change (lt S754_nan two || gt S754_nan thirty_six) with false.
  change (ToInt32 S754_nan) with 0. cbv iota.
  rewrite parse_radix0 by assumption. now rewrite of_Z_not_NaN.
Qed.

Lemma decode_entry_non_numeric_base_witness :
  decode_entry {| share_base := "ten"; share_value := "42" |}
  = Normal (of_Z (positional_value 10 "42")).
Proof. apply (decode_entry_non_numeric_base "ten" "42"); reflexivity. Defined.

(** X4: for every base in [2,36] and every valid digit string s,
    [baseToDecimal] accepts "-" followed by s and returns the opposite of
    the number it returns for s (the negative zero when that number is 0):
    negative values are not rejected.  The number for s is the integer s
    denotes when that integer is at most 2^53, and the number nearest to
    it in the radixes 2, 4, 8, 10, 16 and 32. *)
Theorem baseToDecimal_negative (b : Z) (s : string) :
  2 <= b <= 36 -> valid_digit_string b s = true ->
  exists y,
    baseToDecimal s (of_Z b) = Normal y /\
    baseToDecimal (String "-" s) (of_Z b) = Normal (opp y) /\
    (ParseInt.exact_radix b = true \/ positional_value b s <= two53 ->
     y = of_Z (positional_value b s)).
Proof.
  intros Hb Hv. pose proof (bases_pass b Hb) as B. unfold base_passes in B.
  apply andb_true_iff in B as [G T]. apply negb_true_iff in G. apply Z.eqb_eq in T.
  destruct (parse_valid_digits b s Hb Hv) as [_ N].
  exists (ParseInt.parse s b). unfold baseToDecimal, parseInt.
  rewrite G, T, parse_negative, N by assumption. split; [reflexivity|]. split.
  - now destruct (ParseInt.parse s b).
  - intros Hx. now apply parse_valid.
Qed.

Lemma baseToDecimal_negative_witness :
  exists y,
    baseToDecimal "213" (of_Z 4) = Normal y /\
    baseToDecimal "-213" (of_Z 4) = Normal (opp y) /\
    (ParseInt.exact_radix 4 = true \/ positional_value 4 "213" <= two53 ->
     y = of_Z (positional_value 4 "213")).
Proof. apply (baseToDecimal_negative 4 "213"); [lia|reflexivity]. Defined.

(** X5: [baseToDecimal] does not distinguish the case of letters: on the
    upper-case form of a value string it returns the same number, or throws
    the same error (the invalid-value error quoting the string it was given). *)
Theorem baseToDecimal_upper (s : string) (base : number) :
  baseToDecimal (upper s) base
  = match baseToDecimal s base with
    | Throw (InvalidValue _ b) => Throw (InvalidValue (upper s) b)
    | r => r
    end.
Proof.
  unfold baseToDecimal, parseInt. rewrite parse_upper.
  destruct (lt base two || gt base thirty_six); [reflexivity|].
  now destruct (isNaN (ParseInt.parse s (ToInt32 base))).
Qed.

(** X6: for every base in [2,36] and every valid digit string s, whatever
    follows s from the first character that is not a digit of the base on is
    ignored: [baseToDecimal] returns what it returns for s alone, which is
    the integer s denotes when that integer is at most 2^53, and the number
    nearest to it in the radixes 2, 4, 8, 10, 16 and 32.  (In base 16 the
    string must not start with the prefix 0x, which [parseInt] removes.) *)
Theorem baseToDecimal_ignores_suffix (b : Z) (s junk : string) :
  2 <= b <= 36 -> valid_digit_string b s = true ->
  match junk with
  | EmptyString => True
  | String c _ => ParseInt.radix_digit b c = None
  end ->
  (b = 16 -> ParseInt.strip_hex_prefix (s ++ junk) = None) ->
  (exists y, baseToDecimal s (of_Z b) = Normal y /\
             baseToDecimal (s ++ junk) (of_Z b) = Normal y) /\
  (ParseInt.exact_radix b = true \/ positional_value b s <= two53 ->
   baseToDecimal (s ++ junk) (of_Z b) = Normal (of_Z (positional_value b s))).
Proof.
  intros Hb Hv Hj Hx. pose proof (bases_pass b Hb) as B. unfold base_passes in B.
  apply andb_true_iff in B as [G T]. apply negb_true_iff in G. apply Z.eqb_eq in T.
  destruct (parse_valid_digits b s Hb Hv) as [_ N].
  unfold baseToDecimal, parseInt. rewrite G, T, parse_prefix, N by assumption.
  split; [eauto|]. intros H. now rewrite parse_valid.
Qed.

Lemma baseToDecimal_ignores_suffix_witness :
  (exists y, baseToDecimal "12" (of_Z 10) = Normal y /\
             baseToDecimal ("12" ++ ".75") (of_Z 10) = Normal y) /\
  (ParseInt.exact_radix 10 = true \/ positional_value 10 "12" <= two53 ->
   baseToDecimal ("12" ++ ".75") (of_Z 10) = Normal (of_Z (positional_value 10 "12"))).
Proof.
  apply (baseToDecimal_ignores_suffix 10 "12" ".75");
    [lia | reflexivity | reflexivity | discriminate].
Defined.

(** ** [lagrangeInterpolation] *)

(** X7: for every point sequence of fewer than 2^53 points and every
    integer k above the number of points, [lagrangeInterpolation] throws the
    need-at-least error with k and the number of points. *)
Theorem lagrangeInterpolation_too_few (points : list point) (k : Z) :
  Z.of_nat (length points) < k -> Z.of_nat (length points) < two53 ->
  lagrangeInterpolation points (of_Z k)
  = Throw (NeedAtLeast (of_Z k) (length points)).
Proof.
  intros Hk H53. unfold lagrangeInterpolation.
  now rewrite length_guard_fails.
Qed.

Lemma lagrangeInterpolation_too_few_witness :
  lagrangeInterpolation [(of_Z 1, of_Z 4)] (of_Z 2)
  = Throw (NeedAtLeast (of_Z 2) 1).
Proof.
  apply (lagrangeInterpolation_too_few [(of_Z 1, of_Z 4)] 2); cbn; unfold two53; lia.
Defined.

(** X8: [lagrangeInterpolation] uses the first k points only: for an
    integer k between 0 and the number of points (and at most 2^53), points
    appended to the sequence do not change the result. *)
Theorem lagrangeInterpolation_first_k (points extra : list point) (k : Z) :
  0 <= k <= Z.of_nat (length points) -> k <= two53 ->
  lagrangeInterpolation (points ++ extra) (of_Z k)
  = lagrangeInterpolation points (of_Z k).
Proof.
  intros Hk H53. unfold lagrangeInterpolation.
  rewrite (length_guard_passes points k), (length_guard_passes (points ++ extra) k)
    by (rewrite ?length_app; lia).
  cbv zeta. now rewrite slice0_app.
Qed.

Lemma lagrangeInterpolation_first_k_witness :
  lagrangeInterpolation
    ([(of_Z 1, of_Z 4); (of_Z 2, of_Z 7)] ++ [(of_Z 3, of_Z 100)]) (of_Z 2)
  = lagrangeInterpolation [(of_Z 1, of_Z 4); (of_Z 2, of_Z 7)] (of_Z 2).
Proof.
  apply (lagrangeInterpolation_first_k
           [(of_Z 1, of_Z 4); (of_Z 2, of_Z 7)] [(of_Z 3, of_Z 100)] 2);
    cbn; unfold two53; lia.
Defined.

(** X9: with k = 0 or k = NaN no point is selected and
    [lagrangeInterpolation] returns 0 without an error, whatever the
    points. *)
Theorem lagrangeInterpolation_empty_basis (points : list point) :
  lagrangeInterpolation points zero = Normal zero /\
  lagrangeInterpolation points S754_nan = Normal zero.
Proof.
  split.
  - unfold lagrangeInterpolation.
    change (lt (of_Z (Z.of_nat (length points))) zero)
      with (lt (of_Z (Z.of_nat (length points))) (of_Z 0)).
    rewrite length_guard_passes by (unfold two53; lia). cbv zeta.
    change (slice0 points zero) with (slice0 points (of_Z 0)).
    rewrite slice0_of_Z by (unfold two53; lia). reflexivity.
  - unfold lagrangeInterpolation.
    replace (lt (of_Z (Z.of_nat (length points))) S754_nan) with false
      by (now destruct (of_Z (Z.of_nat (length points)))).
    assert (E : @slice0 point points S754_nan = []).
    { unfold slice0. cbn [ToIntegerOrInfinity truncate]. change (0 <? 0) with false.
      cbv iota. rewrite Z.min_l by lia. reflexivity. }
    cbv zeta. rewrite E. reflexivity.
Qed.

(** ** [validateSolution] *)

(** X10: the basis of [validateSolution] is the first k points: for an
    integer k between 0 and the number of points (and at most 2^53), points
    appended to the sequence leave the entries of the earlier points as they
    were and add one entry each, checked against the same basis. *)
Theorem validateSolution_app (points extra : list point) (secret : number) (k : Z) :
  0 <= k <= Z.of_nat (length points) -> k <= two53 ->
  results (validateSolution (points ++ extra) secret (of_Z k))
  = results (validateSolution points secret (of_Z k))
    ++ map (validate_point (take (Z.to_nat k) points) tolerance_1e_10) extra.
Proof.
  intros Hk H53. unfold validateSolution. cbn [results].
  rewrite slice0_app, slice0_of_Z by lia. apply map_app.
Qed.

Lemma validateSolution_app_witness :
  results (validateSolution ([(of_Z 1, of_Z 4); (of_Z 2, of_Z 7)] ++ [(of_Z 3, of_Z 12)])
             zero (of_Z 2))
  = results (validateSolution [(of_Z 1, of_Z 4); (of_Z 2, of_Z 7)] zero (of_Z 2))
    ++ map (validate_point (take (Z.to_nat 2) [(of_Z 1, of_Z 4); (of_Z 2, of_Z 7)])
              tolerance_1e_10) [(of_Z 3, of_Z 12)].
Proof.
  apply (validateSolution_app [(of_Z 1, of_Z 4); (of_Z 2, of_Z 7)] [(of_Z 3, of_Z 12)]);
    cbn; unfold two53; lia.
Defined.

Module CollectFacts.
Import Num NumFacts ScanFacts OrderFacts SolveFacts.

Lemma counter_next z N : 1 <= z <= N -> N < two53 -> add (of_Z z) one = of_Z (z + 1).
Proof. intros Hz HN. rewrite counter_step, Z.min_l by lia. reflexivity. Qed.

Lemma loop_test_true z N : 1 <= z <= N -> N < two53 -> le (of_Z z) (of_Z N) = true.
Proof. intros Hz HN. apply le_of_Z; lia. Qed.

Lemma loop_test_false N : 0 <= N < two53 -> le (of_Z (N + 1)) (of_Z N) = false.
Proof. intros HN. apply lt_not_le, lt_of_Z; lia. Qed.

(** For an integer [n] below 2^53 the loop visits the indices from the
    counter to [n] in ascending order; when every entry decodes it adds
    their points. *)
Lemma scan_all_decodable shares N fuel z points :
  1 <= z <= N + 1 -> N < two53 -> N + 1 - z < Z.of_nat fuel ->
  (forall w, z <= w <= N -> decodable shares w) ->
  scan fuel shares (of_Z N) (of_Z z) points
  = Some (Normal (points ++ omap (point_at shares) (seqZ z (N + 1 - z)))).
Proof.
  revert z points. induction fuel as [|fuel IH]; intros z points Hz HN Hf D; [lia|].
  cbn [scan]. destruct (Z.eq_dec z (N + 1)) as [->|Nz].
  - rewrite loop_test_false by lia. replace (N + 1 - (N + 1)) with 0 by lia.
    cbn. now rewrite app_nil_r.
  - rewrite loop_test_true, (counter_next z N), toString_of_Z by lia.
    rewrite (seqZ_cons z) by lia. cbn [omap list_omap]. unfold point_at at 1.
    replace (Z.pred (N + 1 - z)) with (N + 1 - Z.succ z) by lia.
    replace (z + 1) with (Z.succ z) by lia.
    destruct (shares !! pretty z) as [entry|] eqn:E.
    + destruct (D z ltac:(lia) entry E) as [y Hy]. fold (decode_entry entry).
      rewrite Hy. rewrite IH by (try lia; intros w Hw; apply D; lia).
      now rewrite <- app_assoc.
    + apply IH; try lia. intros w Hw. apply D. lia.
Qed.

(** The first entry that does not decode ends the loop with its error. *)
Lemma scan_first_failure shares N fuel z points w entry e :
  1 <= z <= w -> w <= N -> N < two53 -> w - z < Z.of_nat fuel ->
  shares !! pretty w = Some entry -> decode_entry entry = Throw e ->
  (forall w', z <= w' < w -> decodable shares w') ->
  scan fuel shares (of_Z N) (of_Z z) points
  = Some (Throw (ErrorDecodingPoint (of_Z w) e)).
Proof.
  revert z points. induction fuel as [|fuel IH]; intros z points Hz Hw HN Hf E T D; [lia|].
  cbn [scan]. rewrite loop_test_true, (counter_next z N), toString_of_Z by lia.
  destruct (Z.eq_dec z w) as [->|Nz].
  - rewrite E. fold (decode_entry entry). now rewrite T.
  - destruct (shares !! pretty z) as [entry'|] eqn:E'.
    + destruct (D z ltac:(lia) entry' E') as [y Hy]. fold (decode_entry entry').
      rewrite Hy. apply IH; try lia; try assumption. intros w' Hw'. apply D. lia.
    + apply IH; try lia; try assumption. intros w' Hw'. apply D. lia.
Qed.

(** What the loop throws is the error of an entry it decodes. *)
Lemma scan_throw fuel shares n z points e :
  1 <= z <= two53 ->
  scan fuel shares n (of_Z z) points = Some (Throw e) ->
  exists w entry inner,
    z <= w <= two53 /\ le (of_Z w) n = true /\
    shares !! pretty w = Some entry /\ decode_entry entry = Throw inner /\
    e = ErrorDecodingPoint (of_Z w) inner.
Proof.
  revert z points. induction fuel as [|fuel IH]; intros z points Hz H; [discriminate|].
  cbn [scan] in H. destruct (le (of_Z z) n) eqn:L; [|discriminate].
  rewrite counter_step, toString_of_Z in H by lia.
  assert (Hm : 1 <= Z.min (z + 1) two53 <= two53) by (unfold two53 in *; lia).
  assert (W : forall w, Z.min (z + 1) two53 <= w <= two53 -> z <= w <= two53)
    by (unfold two53 in *; lia).
  destruct (shares !! pretty z) as [entry|] eqn:E.
  - fold (decode_entry entry) in H. destruct (decode_entry entry) as [y|inner] eqn:D.
    + apply IH in H as (w & en & inn & Hw & R); [|exact Hm]. exists w, en, inn. auto.
    + injection H as <-. exists z, entry, inner. repeat split; (assumption || lia).
  - apply IH in H as (w & en & inn & Hw & R); [|exact Hm]. exists w, en, inn. auto.
Qed.

Lemma decode_entry_error entry e : decode_entry entry = Throw e -> decode_error e = true.
Proof.
  unfold decode_entry, baseToDecimal.
  destruct (lt _ two || gt _ thirty_six); [now intros [= <-]|].
  destruct (isNaN _); [now intros [= <-]|discriminate].
Qed.

(** [solveMultiple] from an index on is [solveMultiple] with the indices
    moved. *)
Lemma solveMultiple_from_shift fuel index testCases :
  solveMultiple_from fuel index testCases
  = match solveMultiple fuel testCases with
    | Some (Normal rs) => Some (Normal (map (shift_index index) rs))
    | other => other
    end.
Proof.
  unfold solveMultiple.
  assert (G : forall base d,
    solveMultiple_from fuel (d + base) testCases
    = match solveMultiple_from fuel base testCases with
      | Some (Normal rs) => Some (Normal (map (shift_index d) rs))
      | other => other
      end).
  { induction testCases as [|tc rest IH]; intros base d; [reflexivity|].
    cbn [solveMultiple_from]. destruct (solve fuel tc) as [[r|e]|]; try reflexivity.
    replace (S (d + base)) with (d + S base)%nat by lia. rewrite IH.
    destruct (solveMultiple_from fuel (S base) rest) as [[rs|e]|]; reflexivity. }
  rewrite <- (Nat.add_0_r index) at 1. apply G.
Qed.

Lemma solveMultiple_from_app fuel index a b :
  solveMultiple_from fuel index (a ++ b)
  = match solveMultiple_from fuel index a with
    | Some (Normal ra) =>
        match solveMultiple_from fuel (index + length a) b with
        | Some (Normal rb) => Some (Normal (ra ++ rb))
        | other => other
        end
    | other => other
    end.
Proof.
  revert index. induction a as [|tc a IH]; intros index.
  - cbn. rewrite Nat.add_0_r. now destruct (solveMultiple_from fuel index b) as [[?|?]|].
  - cbn [app solveMultiple_from length]. destruct (solve fuel tc) as [[r|e]|]; try reflexivity.
    rewrite IH. replace (S index + length a)%nat with (index + S (length a))%nat by lia.
    destruct (solveMultiple_from fuel (S index) a) as [[ra|e]|]; try reflexivity.
    destruct (solveMultiple_from fuel (index + S (length a)) b) as [[rb|e]|]; reflexivity.
Qed.

End CollectFacts.

Import CollectFacts.

(** ** [parseTestCase] *)

(** X11: for a record whose [keys.n] is an integer n with 1 <= n < 2^53
    and whose entries under the keys "1" to n all decode, [parseTestCase]
    ends after n + 1 tests of the loop condition with the points of the
    present keys, in ascending order of index, each with the decoded value
    of its entry; it throws the insufficient-points error when they are
    fewer than [keys.k]. *)
Theorem parseTestCase_collects (fuel : nat) (testCase : test_case) (n : Z)
    (k : number) :
  missing_keys testCase = false ->
  declared_n testCase = Some (of_Z n) -> declared_k testCase = Some k ->
  1 <= n < two53 -> n < Z.of_nat fuel ->
  (forall w, 1 <= w <= n -> decodable (tc_shares testCase) w) ->
  parseTestCase fuel testCase
  = Some (let points := omap (point_at (tc_shares testCase)) (seqZ 1 n) in
          if lt (of_Z (Z.of_nat (length points))) k
          then Throw (InsufficientPoints k (length points))
          else Normal {| p_points := points; p_n := of_Z n; p_k := k |}).
Proof.
  intros M Hn Hk HN Hf D. unfold parseTestCase. rewrite M, Hn, Hk.
  change one with (of_Z 1).
  rewrite (scan_all_decodable _ n fuel 1 []) by (assumption || lia).
  replace (n + 1 - 1) with n by lia. cbn [app].
  now destruct (lt _ k).
Qed.

Lemma parseTestCase_collects_witness :
  parseTestCase 5 exampleTestCase1
  = Some (let points := omap (point_at (tc_shares exampleTestCase1)) (seqZ 1 4) in
          if lt (of_Z (Z.of_nat (length points))) (of_Z 3)
          then Throw (InsufficientPoints (of_Z 3) (length points))
          else Normal {| p_points := points; p_n := of_Z 4; p_k := of_Z 3 |}).
Proof.
  apply (parseTestCase_collects 5 exampleTestCase1 4 (of_Z 3));
    try reflexivity; try (unfold two53; lia).
  intros w Hw entry E.
  assert (C : w = 1 \/ w = 2 \/ w = 3 \/ w = 4) by lia.
  destruct C as [C|[C|[C|C]]]; subst w; vm_compute in E; try discriminate;
    injection E as <-; eexists; vm_compute; reflexivity.
Defined.

(** X12: for a record whose [keys.n] is an integer below 2^53, the first
    entry, in ascending order of index from 1 to n, that does not decode
    makes [parseTestCase] throw the decoding error of that index, which
    carries the error of [baseToDecimal]; [solve] returns it as a failure. *)
Theorem parseTestCase_first_failure (fuel : nat) (testCase : test_case)
    (n w : Z) (entry : share) (e : error) :
  missing_keys testCase = false -> declared_n testCase = Some (of_Z n) ->
  1 <= w <= n -> n < two53 -> w <= Z.of_nat fuel ->
  tc_shares testCase !! pretty w = Some entry -> decode_entry entry = Throw e ->
  (forall w', 1 <= w' < w -> decodable (tc_shares testCase) w') ->
  parseTestCase fuel testCase = Some (Throw (ErrorDecodingPoint (of_Z w) e)) /\
  solve fuel testCase = Some (Normal (failure (ErrorDecodingPoint (of_Z w) e))).
Proof.
  intros M Hn Hw HN Hf E T D.
  assert (P : parseTestCase fuel testCase
              = Some (Throw (ErrorDecodingPoint (of_Z w) e))).
  { unfold parseTestCase. rewrite M, Hn.
    destruct (declared_k testCase) as [k|] eqn:K.
    - change one with (of_Z 1).
      now rewrite (scan_first_failure _ n fuel 1 [] w entry e) by (assumption || lia).
    - exfalso. unfold missing_keys, declared_k in *.
      destruct (tc_keys testCase) as [[n' [k'|]]|]; try discriminate.
      cbn in M. now rewrite orb_true_r in M. }
  split; [exact P|]. now apply solve_parse_throw.
Qed.

Lemma parseTestCase_first_failure_witness :
  parseTestCase 2 brokenTestCase
  = Some (Throw (ErrorDecodingPoint (of_Z 2) (InvalidValue "zz" (of_Z 10)))) /\
  solve 2 brokenTestCase
  = Some (Normal (failure (ErrorDecodingPoint (of_Z 2) (InvalidValue "zz" (of_Z 10))))).
Proof.
  apply (parseTestCase_first_failure 2 brokenTestCase 3 2
           {| share_base := "10"; share_value := "zz" |});
    try reflexivity; try (unfold two53; cbn; lia).
  intros w Hw entry E. assert (w = 1) as -> by lia.
  vm_compute in E. injection E as <-. eexists. vm_compute. reflexivity.
Defined.

(** X13: the points [parseTestCase] returns have pairwise distinct x. *)
Theorem parseTestCase_no_duplicate_x (fuel : nat) (testCase : test_case)
    (ps : parsed) :
  parseTestCase fuel testCase = Some (Normal ps) ->
  NoDup (map fst (p_points ps)).
Proof. apply parseTestCase_distinct_x. Qed.

Lemma parseTestCase_no_duplicate_x_witness :
  NoDup (map fst example1_points).
Proof.
  apply (parseTestCase_no_duplicate_x 5 exampleTestCase1
           {| p_points := example1_points; p_n := of_Z 4; p_k := of_Z 3 |}).
  vm_compute. reflexivity.
Defined.

(** ** [solve] *)

(** X14: a failure of [solve] carries one of three errors: the missing-keys
    error; the decoding error of an index whose entry is in the record and
    makes [baseToDecimal] throw (invalid base or invalid value); or the
    insufficient-points error, with fewer points found than the declared k.
    The need-at-least error of [lagrangeInterpolation] never reaches the
    result, because [parseTestCase] has already counted the points. *)
Theorem solve_errors (fuel : nat) (testCase : test_case) (r : solve_result) :
  solve fuel testCase = Some (Normal r) -> success r = false ->
  exists e, r = failure e /\
    (e = MissingKeys \/
     (exists w entry inner,
        1 <= w /\ tc_shares testCase !! pretty w = Some entry /\
        decode_entry entry = Throw inner /\ decode_error inner = true /\
        e = ErrorDecodingPoint (of_Z w) inner) \/
     (exists k found,
        declared_k testCase = Some k /\ lt (of_Z (Z.of_nat found)) k = true /\
        e = InsufficientPoints k found)).
Proof.
  unfold solve, parseTestCase. intros H S.
  destruct (missing_keys testCase).
  { injection H as <-. exists MissingKeys. auto. }
  destruct (declared_n testCase) as [n|], (declared_k testCase) as [k|];
    try (injection H as <-; exists MissingKeys; now auto).
  change one with (of_Z 1) in H.
  destruct (scan fuel _ _ _ _) as [[pts|e]|] eqn:E; try discriminate.
  - destruct (lt (of_Z (Z.of_nat (length pts))) k) eqn:L.
    + injection H as <-. eexists. split; [reflexivity|]. right. right. eauto.
    + cbn [bind try_catch] in H. unfold lagrangeInterpolation in H. rewrite L in H.
      cbn [bind try_catch] in H. injection H as <-. discriminate.
  - injection H as <-. eexists. split; [reflexivity|]. right. left.
    apply scan_throw in E as (w & entry & inner & Hw & _ & El & D & ->);
      [|unfold two53; lia].
    exists w, entry, inner. repeat split; try assumption; try lia.
    now apply decode_entry_error in D.
Qed.

Lemma solve_errors_witness :
  exists e, failure (ErrorDecodingPoint (of_Z 2) (InvalidValue "zz" (of_Z 10)))
            = failure e /\
    (e = MissingKeys \/
     (exists w entry inner,
        1 <= w /\ tc_shares brokenTestCase !! pretty w = Some entry /\
        decode_entry entry = Throw inner /\ decode_error inner = true /\
        e = ErrorDecodingPoint (of_Z w) inner) \/
     (exists k found,
        declared_k brokenTestCase = Some k /\ lt (of_Z (Z.of_nat found)) k = true /\
        e = InsufficientPoints k found)).
Proof.
  apply (solve_errors 2 brokenTestCase); [vm_compute|]; reflexivity.
Defined.

(** ** [solveMultiple] *)

(** X15: a batch made of two batches gives the results of the first
    followed by the results of the second, whose indices are moved by the
    length of the first. *)
Theorem solveMultiple_app (fuel : nat) (a b : list test_case)
    (ra rb : list (nat * solve_result)) :
  solveMultiple fuel a = Some (Normal ra) ->
  solveMultiple fuel b = Some (Normal rb) ->
  solveMultiple fuel (a ++ b)
  = Some (Normal (ra ++ map (shift_index (length a)) rb)).
Proof.
  intros Ha Hb. unfold solveMultiple in Ha |- *.
  rewrite solveMultiple_from_app, Ha. cbn [Nat.add].
  now rewrite solveMultiple_from_shift, Hb.
Qed.

Lemma solveMultiple_app_witness :
  exists ra rb,
    solveMultiple 5 ([exampleTestCase1; malformedTestCase] ++ [brokenTestCase])
    = Some (Normal (ra ++ map (shift_index 2) rb)).
Proof.
  do 2 eexists.
  apply (solveMultiple_app 5 [exampleTestCase1; malformedTestCase] [brokenTestCase]);
    vm_compute; reflexivity.
Defined.

(** * Subtraction of integers, and the tolerance *)

Module ValidationFacts.
Import Num NumFacts ScanFacts ExactFacts OrderFacts ParseFacts.

(** Subtraction of integers below 2^53 in magnitude is exact when the
    difference is at most 2^53 in magnitude. *)
Lemma sub_of_Z a b :
  - two53 < a < two53 -> - two53 < b < two53 -> - two53 <= a - b <= two53 ->
  sub (of_Z a) (of_Z b) = of_Z (a - b).
Proof.
  intros Ha Hb Hd.
  destruct (Z.eq_dec b 0) as [->|Nb].
  { rewrite Z.sub_0_r. change (of_Z 0) with (S754_zero false).
    unfold sub. now destruct (of_Z a) as [[]|[]| |]. }
  destruct (Z.eq_dec a 0) as [->|Na].
  { destruct (of_Z_opp b Hb Nb) as (s & m & e & E1 & E2).
    rewrite Z.sub_0_l, E1, E2. reflexivity. }
  destruct (of_Z_form a Na Ha) as (ma & ea & Ea & La & Va).
  destruct (of_Z_form b Nb Hb) as (mb & eb & Eb & Lb & Vb).
  rewrite Ea, Eb. unfold sub, SFsub.
  set (ez := Z.min ea eb).
  assert (Lz : ez <= 0) by (unfold ez; lia).
  pose proof (shl_align_value ma ea ez ltac:(unfold ez; lia)) as A.
  pose proof (shl_align_value mb eb ez ltac:(unfold ez; lia)) as B.
  destruct (shl_align ma ea ez) as [a' ea'], (shl_align mb eb ez) as [b' eb'].
  cbn [fst] in *.
  apply normalize_exact; [exact Lz| |exact Hd].
  assert (SA : cond_Zopp (a <? 0) (Zpos a') = a * 2 ^ (- ez)).
  { replace (- ez) with (- ea + (ea - ez)) by lia.
    rewrite Z.pow_add_r, Z.mul_assoc, <- Va by (unfold ez; lia).
    destruct (a <? 0); cbn [cond_Zopp] in *; rewrite A; ring. }
  assert (SB : cond_Zopp (b <? 0) (Zpos b') = b * 2 ^ (- ez)).
  { replace (- ez) with (- eb + (eb - ez)) by lia.
    rewrite Z.pow_add_r, Z.mul_assoc, <- Vb by (unfold ez; lia).
    destruct (b <? 0); cbn [cond_Zopp] in *; rewrite B; ring. }
  rewrite SA, SB. ring.
Qed.

Lemma abs_of_Z c : - two53 < c < two53 -> abs (of_Z c) = of_Z (Z.abs c).
Proof.
  unfold two53. intros Hc. unfold of_Z, binary_normalize.
  destruct c as [|p|p]; [reflexivity| |].
  - change (Z.abs (Zpos p)) with (Zpos p).
    rewrite !of_Z_pos_form by (apply digits2_le_53; lia). reflexivity.
  - change (Z.abs (Zneg p)) with (Zpos p).
    rewrite !of_Z_pos_form by (apply digits2_le_53; lia). reflexivity.
Qed.

(** The tolerance lies strictly between 0 and 1. *)
Lemma tolerance_below_one : lt tolerance_1e_10 one = true.
Proof. reflexivity. Qed.

Lemma within_tolerance_of_Z c :
  0 <= c -> le (of_Z c) tolerance_1e_10 = (c =? 0).
Proof.
  intros Hc. destruct (Z.eqb_spec c 0) as [->|N]; [reflexivity|].
  destruct (le (of_Z c) tolerance_1e_10) eqn:L; [|reflexivity].
  pose proof (le_lt_trans _ _ _ L tolerance_below_one) as C.
  rewrite of_Z_ge_one in C by lia. discriminate.
Qed.

(** A calculated value that is not finite is never within the tolerance. *)
Lemma non_finite_invalid c y :
  is_finite c = false -> le (abs (sub c y)) tolerance_1e_10 = false.
Proof.
  destruct c as [s|s| |s m e]; try discriminate; intros _.
  - destruct s, y as [[]|[]| |[] m e]; reflexivity.
  - now destruct y.
Qed.

(** With a single basis point the calculated value is its y. *)
Lemma interpolate_at_single x y t :
  interpolate_at [(x, y)] t = add zero (mul y one).
Proof. reflexivity. Qed.

Lemma slice0_one (x : point) rest : slice0 (x :: rest) one = [x].
Proof.
  unfold slice0. rewrite one_eq. cbn [ToIntegerOrInfinity].
  change (truncate (S754_finite false 4503599627370496 (-52))) with 1.
  change (1 <? 0) with false. cbv iota.
  rewrite Z.min_l by (cbn [length]; lia). reflexivity.
Qed.

Lemma single_term_of_Z a : add zero (mul (of_Z a) one) = of_Z a.
Proof.
  rewrite mul_one by apply valid_of_Z. apply add_zero_l. intros E.
  destruct a as [|p|p]; [discriminate| |].
  - destruct (Z_le_gt_dec (Zpos p) two53) as [L|G].
    + destruct (of_Z_small_form (Zpos p) ltac:(lia)) as (m & e & F). congruence.
    + destruct (of_Z_big (Zpos p) ltac:(lia)) as [F|(m & e & F & _)]; congruence.
  - destruct (of_Z_neg_class p) as [(m & e & F)|F]; congruence.
Qed.

End ValidationFacts.
Import ValidationFacts.

(** ** [validateSolution] *)

(** X16: [validateSolution] detects what [lagrangeInterpolation] lets
    pass: when two of the first k points have the same x, the calculated
    value of every point is NaN or an infinity, every entry is invalid and
    the report is invalid. *)
Theorem validateSolution_duplicate_x (points : list point) (secret k : number)
    (a b : nat) (xa ya xb yb : number) :
  a <> b ->
  slice0 points k !! a = Some (xa, ya) -> slice0 points k !! b = Some (xb, yb) ->
  SFeqb xa xb = true ->
  isValid (validateSolution points secret k) = false /\
  Forall (fun r => is_finite (vr_calculated r) = false /\ vr_valid r = false)
         (results (validateSolution points secret k)).
Proof.
  intros Hab Ha Hb E.
  assert (F : Forall (fun r => is_finite (vr_calculated r) = false /\ vr_valid r = false)
                (results (validateSolution points secret k))).
  { unfold validateSolution. cbn [results]. apply Forall_fmap, Forall_forall.
    intros [x y] _. cbn [validate_point vr_calculated vr_valid compose].
    pose proof (interpolate_at_dup _ x a b xa ya xb yb Hab Ha Hb E) as N.
    split; [exact N|]. now apply non_finite_invalid. }
  split; [|exact F].
  unfold validateSolution in *. cbn [isValid results] in *.
  destruct points as [|p points].
  { unfold slice0 in Ha. rewrite take_nil in Ha. now rewrite lookup_nil in Ha. }
  cbn [map] in F. apply Forall_cons in F as [[_ V] _].
  cbn [map forallb]. now rewrite V.
Qed.

Lemma validateSolution_duplicate_x_witness :
  isValid (validateSolution [(of_Z 1, of_Z 4); (of_Z 1, of_Z 7)] (of_Z 0) (of_Z 2))
  = false /\
  Forall (fun r => is_finite (vr_calculated r) = false /\ vr_valid r = false)
    (results (validateSolution [(of_Z 1, of_Z 4); (of_Z 1, of_Z 7)] (of_Z 0) (of_Z 2))).
Proof.
  apply (validateSolution_duplicate_x _ _ _ 0%nat 1%nat (of_Z 1) (of_Z 4) (of_Z 1) (of_Z 7));
    [lia | reflexivity | reflexivity | reflexivity].
Defined.

(** X17: with k = 1 and integer values below 2^53, the calculated value of
    every point is the y of the first point, the difference is the exact
    distance of the two values, and the point is valid exactly when its y is
    the y of the first point. *)
Theorem validateSolution_k1 (x0 : number) (a : Z) (rest : list point)
    (secret : number) (i : nat) (x : number) (b : Z) :
  0 <= a < two53 -> 0 <= b < two53 ->
  ((x0, of_Z a) :: rest) !! i = Some (x, of_Z b) ->
  results (validateSolution ((x0, of_Z a) :: rest) secret one) !! i
  = Some {| vr_point := (x, of_Z b);
            vr_calculated := of_Z a;
            vr_difference := of_Z (Z.abs (a - b));
            vr_valid := (a =? b) |}.
Proof.
  intros Ha Hb Hi. unfold validateSolution. cbn [results].
  apply list_lookup_fmap_Some. exists (x, of_Z b). split; [|exact Hi].
  rewrite slice0_one. cbn [validate_point].
  rewrite interpolate_at_single, single_term_of_Z.
  rewrite sub_of_Z, abs_of_Z by (unfold two53 in *; lia).
  rewrite within_tolerance_of_Z by lia. f_equal.
  destruct (Z.eqb_spec a b), (Z.eqb_spec (Z.abs (a - b)) 0); lia || reflexivity.
Qed.

Lemma validateSolution_k1_witness :
  results (validateSolution [(of_Z 1, of_Z 5); (of_Z 2, of_Z 9)] (of_Z 5) one) !! 1%nat
  = Some {| vr_point := (of_Z 2, of_Z 9);
            vr_calculated := of_Z 5;
            vr_difference := of_Z (Z.abs (5 - 9));
            vr_valid := (5 =? 9) |}.
Proof.
  apply (validateSolution_k1 (of_Z 1) 5 [(of_Z 2, of_Z 9)] (of_Z 5) 1 (of_Z 2) 9);
    [unfold two53; lia | unfold two53; lia | reflexivity].
Defined.

(** ** [solve], on success *)

(** X18: whenever [parseTestCase] returns, [solve] succeeds:
    [lagrangeInterpolation] cannot throw on the points it is given, and the
    outcome of the validation does not enter [success].  The result holds
    the rounded interpolation at 0 of the first k points, the points, the
    parameters with degree k - 1, and the validation report. *)
Theorem solve_succeeds_when_parsed (fuel : nat) (testCase : test_case)
    (ps : parsed) :
  parseTestCase fuel testCase = Some (Normal ps) ->
  solve fuel testCase
  = Some (Normal
      (let s := round (interpolate_at (slice0 (p_points ps) (p_k ps)) zero) in
       {| success := true;
          secret := Some s;
          points := Some (p_points ps);
          params := Some {| par_n := p_n ps; par_k := p_k ps;
                            par_degree := sub (p_k ps) one |};
          validation := Some (validateSolution (p_points ps) s (p_k ps));
          error_message := None |})).
Proof.
  intros P. unfold solve. rewrite P.
  assert (L : lt (of_Z (Z.of_nat (length (p_points ps)))) (p_k ps) = false).
  { unfold parseTestCase in P.
    destruct (missing_keys testCase); [discriminate|].
    destruct (declared_n testCase), (declared_k testCase); try discriminate.
    destruct (scan _ _ _ _ _) as [[pts|]|]; try discriminate.
    destruct (lt _ _) eqn:L; [discriminate|]. now injection P as <-. }
  destruct ps as [pts n k]. cbn [p_points p_n p_k] in *.
  cbn [bind try_catch]. unfold lagrangeInterpolation. rewrite L. reflexivity.
Qed.

Lemma solve_succeeds_when_parsed_witness :
  solve 5 exampleTestCase1
  = Some (Normal
      (let s := round (interpolate_at (slice0 example1_points (of_Z 3)) zero) in
       {| success := true;
          secret := Some s;
          points := Some example1_points;
          params := Some {| par_n := of_Z 4; par_k := of_Z 3;
                            par_degree := sub (of_Z 3) one |};
          validation := Some (validateSolution example1_points s (of_Z 3));
          error_message := None |})).
Proof.
  apply (solve_succeeds_when_parsed 5 exampleTestCase1
           {| p_points := example1_points; p_n := of_Z 4; p_k := of_Z 3 |}).
  vm_compute. reflexivity.
Defined.

(** ** [baseToDecimal], the prefix 0x *)

(** X19: in base 16 [baseToDecimal] accepts the prefix 0x or 0X before a
    valid digit string and returns the value of the digits. *)
Theorem baseToDecimal_hex_prefix (s : string) :
  valid_digit_string 16 s = true ->
  baseToDecimal (String "0" (String "x" s)) (of_Z 16)
  = Normal (of_Z (positional_value 16 s)) /\
  baseToDecimal (String "0" (String "X" s)) (of_Z 16)
  = Normal (of_Z (positional_value 16 s)).
Proof.
  intros Hv.
  assert (P : forall c, c = "x"%char \/ c = "X"%char ->
    ParseInt.parse (String "0" (String c s)) 16 = of_Z (positional_value 16 s)).
  { intros c Hc. destruct s as [|d s]; [discriminate|].
    cbn [valid_digit_string] in Hv.
    destruct (digit_prefix_all 16 _ Hv) as [L V].
    unfold ParseInt.parse. cbn [ParseInt.trim_start].
    change (ParseInt.is_white_space "0") with false. cbv iota.
    change (ParseInt.strip_sign (String "0" (String c (String d s))))
      with (false, String "0" (String c (String d s))).
    cbv iota beta. change (16 =? 0) with false. change (16 <? 2) with false.
    change (36 <? 16) with false. change (16 =? 16) with true.
    cbn [negb andb orb].
    assert (X : ParseInt.strip_hex_prefix (String "0" (String c (String d s)))
                = Some (String d s)) by (destruct Hc as [-> | ->]; reflexivity).
    rewrite X.
    pose proof (digit_prefix_in_radix 16 (String d s)) as IR.
    destruct (ParseInt.digit_prefix 16 (String d s)) as [|d0 ds] eqn:DP;
      [discriminate|].
    rewrite to_number_exact, V by (lia || assumption || (left; reflexivity)).
    destruct (positional_value 16 (String d s) =? 0) eqn:Z0.
    - apply Z.eqb_eq in Z0. now rewrite Z0.
    - reflexivity. }
  unfold baseToDecimal, parseInt.
  change (lt (of_Z 16) two || gt (of_Z 16) thirty_six) with false.
  change (ToInt32 (of_Z 16)) with 16. cbv iota.
  rewrite !P by auto. now rewrite of_Z_not_NaN.
Qed.

Lemma baseToDecimal_hex_prefix_witness :
  baseToDecimal (String "0" (String "x" "1f")) (of_Z 16)
  = Normal (of_Z (positional_value 16 "1f")) /\
  baseToDecimal (String "0" (String "X" "1f")) (of_Z 16)
  = Normal (of_Z (positional_value 16 "1f")).
Proof. apply (baseToDecimal_hex_prefix "1f"). reflexivity. Defined.

(** * The quotient of a number by itself, and two basis points *)

Module LineFacts.
Import Num NumFacts ScanFacts ExactFacts OrderFacts ParseFacts SliceFacts ValidationFacts.

(** [d / d] is exactly 1 for every finite [d] other than zero. *)
Lemma div_self s m e : div (S754_finite s m e) (S754_finite s m e) = one.
Proof.
  unfold div, SFdiv, SFdiv_core_binary. rewrite xorb_nilpotent.
  replace (Zdigits2 (Zpos m) + e - (Zdigits2 (Zpos m) + e)) with 0 by lia.
  rewrite Z.sub_diag.
  change (Z.min (fexp prec emax 0) 0) with (-53). change (0 - -53) with 53.
  cbv zeta iota.
  destruct (IntDef.Z.div_eucl (Z.shiftl (Zpos m) 53) (Zpos m)) as [q r] eqn:E.
  assert (Q : q = Z.shiftl (Zpos m) 53 / Zpos m)
    by (unfold Z.div; change Z.div_eucl with IntDef.Z.div_eucl; now rewrite E).
  assert (R : r = Z.shiftl (Zpos m) 53 mod Zpos m)
    by (unfold Z.modulo; change Z.div_eucl with IntDef.Z.div_eucl; now rewrite E).
  rewrite Z.shiftl_mul_pow2 in Q, R by lia.
  rewrite Z.mul_comm, Z.div_mul in Q by lia.
  rewrite Z.mul_comm, Z.mod_mul in R by lia.
  subst q r.
  assert (L : new_location (Zpos m) 0 = loc_Exact).
  { unfold new_location, new_location_even, new_location_odd.
    now destruct (IntDef.Z.even (Zpos m)). }
  rewrite L. reflexivity.
Qed.

Lemma sub_of_Z_finite a b :
  0 <= a < two53 -> 0 <= b < two53 -> a <> b ->
  exists s m e, sub (of_Z a) (of_Z b) = S754_finite s m e.
Proof.
  intros Ha Hb N. rewrite sub_of_Z by (unfold two53 in *; lia).
  destruct (of_Z_form (a - b)) as (m & e & E & _); [lia|unfold two53 in *; lia|].
  eauto.
Qed.

Lemma sub_of_Z_diag a : 0 <= a < two53 -> sub (of_Z a) (of_Z a) = zero.
Proof.
  intros Ha. rewrite sub_of_Z by (unfold two53 in *; lia).
  now rewrite Z.sub_diag.
Qed.

(** A non-negative integer below 2^53 is [+0] or a positive finite number. *)
Lemma of_Z_nonneg_form a :
  0 <= a < two53 ->
  of_Z a = zero \/ exists m e, of_Z a = S754_finite false m e.
Proof.
  intros Ha. destruct (Z.eq_dec a 0) as [->|N]; [now left|right].
  apply of_Z_small_form. lia.
Qed.

(** The basis polynomial of a point is 1 at its own x and a zero at the x
    of the other point. *)
Lemma basis_factor_one t x :
  0 <= t < two53 -> 0 <= x < two53 -> t <> x ->
  mul one (div (sub (of_Z t) (of_Z x)) (sub (of_Z t) (of_Z x))) = one.
Proof.
  intros Ht Hx N. destruct (sub_of_Z_finite t x Ht Hx N) as (s & m & e & ->).
  now rewrite div_self.
Qed.

Lemma basis_factor_zero t x :
  0 <= t < two53 -> 0 <= x < two53 -> t <> x ->
  exists s, mul one (div (sub (of_Z t) (of_Z t)) (sub (of_Z x) (of_Z t)))
            = S754_zero s.
Proof.
  intros Ht Hx N. rewrite sub_of_Z_diag by assumption.
  destruct (sub_of_Z_finite x t Hx Ht ltac:(congruence)) as (s & m & e & ->).
  exists s. reflexivity.
Qed.

(** A term [y * (+-0)] does not change the sum. *)
Lemma add_zero_term acc y s :
  0 <= acc < two53 -> 0 <= y < two53 ->
  add (of_Z acc) (mul (of_Z y) (S754_zero s)) = of_Z acc.
Proof.
  intros Ha Hy.
  destruct (of_Z_nonneg_form y Hy) as [->|(m & e & ->)],
           (of_Z_nonneg_form acc Ha) as [->|(m' & e' & ->)];
    now destruct s.
Qed.

Lemma zero_term_add y y' s :
  0 <= y < two53 -> 0 <= y' < two53 ->
  add (add zero (mul (of_Z y) (S754_zero s))) (mul (of_Z y') one) = of_Z y'.
Proof.
  intros Hy Hy'. rewrite (mul_one (of_Z y')) by apply valid_of_Z.
  destruct (of_Z_nonneg_form y Hy) as [->|(m & e & ->)],
           (of_Z_nonneg_form y' Hy') as [->|(m' & e' & ->)];
    now destruct s.
Qed.

Lemma interpolate_at_two X1 Y1 X2 Y2 t :
  interpolate_at [(X1, Y1); (X2, Y2)] t
  = add (add zero (mul Y1 (mul one (div (sub t X2) (sub X1 X2)))))
        (mul Y2 (mul one (div (sub t X1) (sub X2 X1)))).
Proof. reflexivity. Qed.

Lemma valid_entry x y :
  0 <= y < two53 ->
  {| vr_point := (x, of_Z y);
     vr_calculated := of_Z y;
     vr_difference := abs (sub (of_Z y) (of_Z y));
     vr_valid := le (abs (sub (of_Z y) (of_Z y))) tolerance_1e_10 |}
  = {| vr_point := (x, of_Z y); vr_calculated := of_Z y;
       vr_difference := zero; vr_valid := true |}.
Proof. intros Hy. now rewrite sub_of_Z_diag. Qed.

End LineFacts.
Import LineFacts.

(** X20: a line passes through the two points that define it: with k = 2,
    distinct integer x and integer y (non-negative, below 2^53), the entries
    of the two basis points have the calculated value equal to their y, the
    difference 0, and are valid. *)
Theorem validateSolution_two_basis_points (x1 y1 x2 y2 : Z) (rest : list point)
    (secret : number) :
  0 <= x1 < two53 -> 0 <= x2 < two53 -> x1 <> x2 ->
  0 <= y1 < two53 -> 0 <= y2 < two53 ->
  take 2 (results (validateSolution
                     ((of_Z x1, of_Z y1) :: (of_Z x2, of_Z y2) :: rest)
                     secret (of_Z 2)))
  = [ {| vr_point := (of_Z x1, of_Z y1); vr_calculated := of_Z y1;
         vr_difference := zero; vr_valid := true |};
      {| vr_point := (of_Z x2, of_Z y2); vr_calculated := of_Z y2;
         vr_difference := zero; vr_valid := true |} ].
Proof.
  intros H1 H2 N Hy1 Hy2. unfold validateSolution. cbn [results].
  assert (E : @slice0 point ((of_Z x1, of_Z y1) :: (of_Z x2, of_Z y2) :: rest) (of_Z 2)
              = [(of_Z x1, of_Z y1); (of_Z x2, of_Z y2)]).
  { rewrite slice0_of_Z by (unfold two53; lia). reflexivity. }
  rewrite E. cbn [map take validate_point]. rewrite !interpolate_at_two.
  rewrite (basis_factor_one x1 x2) by assumption.
  rewrite (basis_factor_one x2 x1) by (assumption || congruence).
  destruct (basis_factor_zero x1 x2 H1 H2 N) as (s & ->).
  destruct (basis_factor_zero x2 x1 H2 H1 ltac:(congruence)) as (s' & ->).
  rewrite single_term_of_Z, add_zero_term, zero_term_add by assumption.
  now rewrite !valid_entry by assumption.
Qed.

Lemma validateSolution_two_basis_points_witness :
  take 2 (results (validateSolution
                     ((of_Z 1, of_Z 4) :: (of_Z 2, of_Z 7) :: [(of_Z 3, of_Z 12)])
                     (of_Z 3) (of_Z 2)))
  = [ {| vr_point := (of_Z 1, of_Z 4); vr_calculated := of_Z 4;
         vr_difference := zero; vr_valid := true |};
      {| vr_point := (of_Z 2, of_Z 7); vr_calculated := of_Z 7;
         vr_difference := zero; vr_valid := true |} ].
Proof.
  apply (validateSolution_two_basis_points 1 4 2 7); unfold two53; lia.
Defined.
